(** * MRRB: the Multiple Reader Ring Buffer (mrrb.c, v0.2)

    A shallow embedding of [Middlewares/Third_Party/MRRB/mrrb.c] and of the
    types of its header, together with the properties of the design document
    that can be stated over sequential executions.

    Conventions of the embedding.
    - A pointer into the ring ([write_ptr], [reservation_ptr], [read_ptr],
      [read_complete_ptr]) is the offset of the pointed byte from
      [mrrb->buffer]; pointer comparison is comparison of offsets.
    - [mrrb->buffer] together with [mrrb->buffer_length] is a list of bytes,
      and [mrrb->readers] together with [mrrb->num_readers] is a list of
      readers: the length field is the length of the list.
    - [unsigned int] arithmetic that can wrap is written with [u32].
    - A [void *] or a function pointer is an address in [Z]; [NULL] is 0.
    - The port layer (lock, unlock, interrupt predicate) is not part of the
      library: the result of each port call is an input of the operation.
    - A user callback is opaque: invoking it is recorded as an [event]. *)

From stdpp Require Import base numbers list.
From Stdlib Require Import ZArith Lia.
From Stdlib.Strings Require Import Byte.

Local Open Scope Z_scope.

(** ** Machine integers *)

Definition u32 (z : Z) : Z := z mod 4294967296.

(** Conversion of an [unsigned int] to the [int] that [mrrb_write] returns. *)
Definition to_int (z : Z) : Z := if z <? 2147483648 then z else z - 4294967296.

Definition NULL : Z := 0.

(** ** Types of mrrb.h *)

Inductive mrrb_reader_status_t : Set :=
  | MRRB_READER_STATUS_DISABLED
  | MRRB_READER_STATUS_IDLE
  | MRRB_READER_STATUS_ACTIVE
  | MRRB_READER_STATUS_ABORTING
  | MRRB_READER_STATUS_ABORTED
  | MRRB_READER_STATUS_DISABLING.

Inductive mrrb_reader_overrun_policy_t : Set :=
  | MRRB_READER_OVERRUN_BLOCKING
  | MRRB_READER_OVERRUN_DISABLE
  | MRRB_READER_OVERRUN_SKIP.

Global Instance mrrb_reader_status_eq_dec : EqDecision mrrb_reader_status_t.
Proof. solve_decision. Defined.

Global Instance mrrb_reader_overrun_policy_eq_dec : EqDecision mrrb_reader_overrun_policy_t.
Proof. solve_decision. Defined.

Record ring_buffer_reader_t : Set := mk_reader {
  handle : Z;
  overrun_policy : mrrb_reader_overrun_policy_t;
  read_ptr : Z;
  read_complete_ptr : Z;
  status : mrrb_reader_status_t;
  is_full : bool;
  notify_data : Z;
  abort_data : Z;
}.

Record multi_reader_ring_buffer_t : Set := mk_mrrb {
  buffer : list byte;
  readers : list ring_buffer_reader_t;
  write_ptr : Z;
  reservation_ptr : Z;
  ongoing_writes : Z;
}.

Definition buffer_length (mrrb : multi_reader_ring_buffer_t) : Z :=
  Z.of_nat (length (buffer mrrb)).

Definition num_readers (mrrb : multi_reader_ring_buffer_t) : Z :=
  Z.of_nat (length (readers mrrb)).

(** Field assignments. *)

Definition set_status (r : ring_buffer_reader_t) (s : mrrb_reader_status_t) :=
  mk_reader (handle r) (overrun_policy r) (read_ptr r) (read_complete_ptr r)
            s (is_full r) (notify_data r) (abort_data r).

Definition set_is_full (r : ring_buffer_reader_t) (b : bool) :=
  mk_reader (handle r) (overrun_policy r) (read_ptr r) (read_complete_ptr r)
            (status r) b (notify_data r) (abort_data r).

Definition set_read_ptr (r : ring_buffer_reader_t) (p : Z) :=
  mk_reader (handle r) (overrun_policy r) p (read_complete_ptr r)
            (status r) (is_full r) (notify_data r) (abort_data r).

Definition set_read_complete_ptr (r : ring_buffer_reader_t) (p : Z) :=
  mk_reader (handle r) (overrun_policy r) (read_ptr r) p
            (status r) (is_full r) (notify_data r) (abort_data r).

Definition set_readers (m : multi_reader_ring_buffer_t) (rs : list ring_buffer_reader_t) :=
  mk_mrrb (buffer m) rs (write_ptr m) (reservation_ptr m) (ongoing_writes m).

Definition set_buffer (m : multi_reader_ring_buffer_t) (b : list byte) :=
  mk_mrrb b (readers m) (write_ptr m) (reservation_ptr m) (ongoing_writes m).

Definition set_write_ptr (m : multi_reader_ring_buffer_t) (p : Z) :=
  mk_mrrb (buffer m) (readers m) p (reservation_ptr m) (ongoing_writes m).

Definition set_reservation_ptr (m : multi_reader_ring_buffer_t) (p : Z) :=
  mk_mrrb (buffer m) (readers m) (write_ptr m) p (ongoing_writes m).

Definition set_ongoing_writes (m : multi_reader_ring_buffer_t) (n : Z) :=
  mk_mrrb (buffer m) (readers m) (write_ptr m) (reservation_ptr m) n.

(** [reader->status == DISABLED || reader->status == DISABLING] *)
Definition is_disabled (r : ring_buffer_reader_t) : bool :=
  match status r with
  | MRRB_READER_STATUS_DISABLED | MRRB_READER_STATUS_DISABLING => true
  | _ => false
  end.

(** ** The port and the callbacks *)

(** Results of the port calls made by one operation: [port_lock p k] is what
    the k-th call of [_mrrb_lock] returns (negative on failure), likewise
    [port_unlock]; [allow_write_from_isr] is the compile-time switch
    [MRRB_ALLOW_WRITE_FROM_ISR]. *)
Record port_t : Type := mk_port {
  allow_write_from_isr : bool;
  port_interrupt_active : Z;
  port_lock : nat -> Z;
  port_unlock : nat -> Z;
}.

(** The port on which nothing fails and no interrupt is active. *)
Definition port_ok : port_t := mk_port false 0 (fun _ => 0) (fun _ => 0).

(** A callback invocation. [ev_reader] is the index of the reader whose
    callback runs; [ev_data] is the pointer passed (an offset into the ring)
    and [ev_bytes] the [ev_length] bytes readable through it at the time of
    the call. *)
Inductive event : Set :=
  | notify_call (ev_reader : nat) (ev_handle : Z) (ev_data : Z) (ev_length : Z)
                (ev_bytes : list byte)
  | abort_call (ev_reader : nat) (ev_handle : Z).

(** Bytes [off .. off+len) of a byte array. *)
Definition slice (b : list byte) (off len : Z) : list byte :=
  take (Z.to_nat len) (drop (Z.to_nat off) b).

(** [memcpy(dst + off, src, n)] *)
Definition memcpy (dst : list byte) (off : Z) (src : list byte) (n : Z) : list byte :=
  take (Z.to_nat off) dst ++ take (Z.to_nat n) src ++ drop (Z.to_nat (off + n)) dst.

(** ** The notification bitmap

    [unsigned char flags[(num_readers + 7) / 8]]; reader [i] owns bit
    [i % 8] of byte [i / 8]. *)

Definition flags_zero (n : Z) : list Z := replicate (Z.to_nat ((n + 7) / 8)) 0.

(** [flags[i / 8] |= 1 << (i % 8)] *)
Definition flag_set (flags : list Z) (i : nat) : list Z :=
  match flags !! (i / 8)%nat with
  | Some b => <[(i / 8)%nat := Z.lor b (Z.shiftl 1 (Z.of_nat (i mod 8)))]> flags
  | None => flags
  end.

(** [flags[i / 8] & (1 << (i % 8))] as a truth value *)
Definition flag_get (flags : list Z) (i : nat) : bool :=
  match flags !! (i / 8)%nat with
  | Some b => negb (Z.land b (Z.shiftl 1 (Z.of_nat (i mod 8))) =? 0)
  | None => false
  end.

(** ** Private functions of mrrb.c *)

Definition _mrrb_advance_pointer (mrrb : multi_reader_ring_buffer_t) (ptr len : Z) : Z :=
  if u32 ptr <? u32 (buffer_length mrrb - len)
  then ptr + len
  else ptr - u32 (buffer_length mrrb - len).

Definition _mrrb_reader_get_continuous_readable_space
    (mrrb : multi_reader_ring_buffer_t) (reader : ring_buffer_reader_t) : Z :=
  let write_ptr := write_ptr mrrb in
  let read_complete_ptr := read_complete_ptr reader in
  if (read_complete_ptr >? write_ptr) || is_full reader
  then u32 (buffer_length mrrb - read_complete_ptr)
  else u32 (write_ptr - read_complete_ptr).

Definition _mrrb_reader_get_remaining_space
    (mrrb : multi_reader_ring_buffer_t) (reader : ring_buffer_reader_t) : Z :=
  if is_disabled reader then buffer_length mrrb
  else if is_full reader then 0
  else if read_complete_ptr reader >? reservation_ptr mrrb
       then u32 (read_complete_ptr reader - reservation_ptr mrrb)
       else u32 (buffer_length mrrb - (reservation_ptr mrrb - read_complete_ptr reader)).

Definition _mrrb_reader_get_overwritable_space
    (mrrb : multi_reader_ring_buffer_t) (reader : ring_buffer_reader_t) : Z :=
  match overrun_policy reader with
  | MRRB_READER_OVERRUN_BLOCKING => _mrrb_reader_get_remaining_space mrrb reader
  | _ => buffer_length mrrb
  end.

(** The linear scan with [break]: the index of the first reader whose handle
    is [h], counted from [i]. *)
Fixpoint get_reader_by_handle_from (i : nat) (rs : list ring_buffer_reader_t) (h : Z)
  : option nat :=
  match rs with
  | [] => None
  | reader :: rs' =>
      if handle reader =? h then Some i else get_reader_by_handle_from (S i) rs' h
  end.

Definition _mrrb_get_reader_by_handle (mrrb : multi_reader_ring_buffer_t) (h : Z)
  : option nat :=
  get_reader_by_handle_from 0 (readers mrrb) h.

(** A loop [for (i = 0; i < num_readers; i++)] whose body may assign to
    [readers[i]] and to locals of type [A]. *)
Fixpoint for_readers {A : Type}
    (body : nat -> ring_buffer_reader_t -> A -> ring_buffer_reader_t * A)
    (i : nat) (rs : list ring_buffer_reader_t) (a : A)
  : list ring_buffer_reader_t * A :=
  match rs with
  | [] => ([], a)
  | reader :: rs' =>
      let '(reader', a') := body i reader a in
      let '(rs'', a'') := for_readers body (S i) rs' a' in
      (reader' :: rs'', a'')
  end.

(** ** Exported functions: initialisation *)

Definition mrrb_reader_init (reader : option ring_buffer_reader_t)
    (h : Z) (policy : mrrb_reader_overrun_policy_t) (notify abort : Z)
  : Z * option ring_buffer_reader_t :=
  match reader with
  | None => (-1, None)
  | Some r =>
      if (notify =? NULL)
         || (bool_decide (policy = MRRB_READER_OVERRUN_SKIP) && (abort =? NULL))
      then (-1, Some r)
      else (0, Some (mk_reader h policy (read_ptr r) (read_complete_ptr r)
                               MRRB_READER_STATUS_IDLE false notify abort))
  end.

(** [mrrb_init] writes through [mrrb]: the object before the call is an
    argument, the object after the call a result. [lock_init] is what
    [port_lock_init] returns (0 when no mutex is configured). *)
Definition mrrb_init (lock_init : Z) (mrrb : multi_reader_ring_buffer_t)
    (buf : option (list byte)) (rs : option (list ring_buffer_reader_t))
  : Z * multi_reader_ring_buffer_t :=
  match buf, rs with
  | Some buf, Some rs =>
      if (Z.of_nat (length buf) =? 0) || (Z.of_nat (length rs) =? 0) then (-1, mrrb)
      else
        let mrrb1 := mk_mrrb buf rs 0 0 0 in
        if lock_init <? 0 then (-1, mrrb1)
        else
          (0, set_readers mrrb1
                ((fun r => set_is_full
                             (set_read_complete_ptr
                                (set_read_ptr (set_status r MRRB_READER_STATUS_IDLE) 0) 0)
                             false) <$> rs))
  | _, _ => (-1, mrrb)
  end.

(** ** Exported functions: queries *)

Definition mrrb_get_remaining_space (mrrb : option multi_reader_ring_buffer_t) : Z :=
  match mrrb with
  | None => 0
  | Some m =>
      foldl (fun remaining_space reader =>
               let reader_remaining_space := _mrrb_reader_get_remaining_space m reader in
               if reader_remaining_space <? remaining_space
               then reader_remaining_space else remaining_space)
            (buffer_length m) (readers m)
  end.

Definition mrrb_get_overwritable_space (mrrb : option multi_reader_ring_buffer_t) : Z :=
  match mrrb with
  | None => 0
  | Some m =>
      foldl (fun overwritable_space reader =>
               let reader_overwritable_space := _mrrb_reader_get_overwritable_space m reader in
               if reader_overwritable_space <? overwritable_space
               then reader_overwritable_space else overwritable_space)
            (buffer_length m) (readers m)
  end.

Definition mrrb_is_empty (mrrb : option multi_reader_ring_buffer_t) : Z :=
  match mrrb with
  | None => -1
  | Some m => if mrrb_get_remaining_space (Some m) =? buffer_length m then 1 else 0
  end.

Fixpoint is_full_loop (rs : list ring_buffer_reader_t) : Z :=
  match rs with
  | [] => 0
  | reader :: rs' =>
      if bool_decide (status reader = MRRB_READER_STATUS_ACTIVE) && is_full reader
      then 1 else is_full_loop rs'
  end.

Definition mrrb_is_full (mrrb : option multi_reader_ring_buffer_t) : Z :=
  match mrrb with
  | None => -1
  | Some m => is_full_loop (readers m)
  end.

(** ** Exported functions: enabling and disabling a reader

    The [reader] argument is a pointer to an element of [mrrb->readers]: it is
    the index of that element, [None] for a null pointer. *)

Definition mrrb_reader_enable (p : port_t) (mrrb : multi_reader_ring_buffer_t)
    (reader : option nat) : Z * multi_reader_ring_buffer_t :=
  match reader with
  | None => (-1, mrrb)
  | Some i =>
      if port_lock p 0 <? 0 then (-1, mrrb)
      else
        match readers mrrb !! i with
        | None => (0, mrrb)
        | Some r =>
            if is_disabled r
            then (0, set_readers mrrb
                       (<[i := set_read_complete_ptr
                                 (set_read_ptr
                                    (set_is_full (set_status r MRRB_READER_STATUS_IDLE) false)
                                    (reservation_ptr mrrb))
                                 (reservation_ptr mrrb)]> (readers mrrb)))
            else (0, mrrb)
        end
  end.

Definition mrrb_reader_disable (p : port_t) (mrrb : multi_reader_ring_buffer_t)
    (reader : option nat) : Z * multi_reader_ring_buffer_t * list event :=
  match reader with
  | None => (-1, mrrb, [])
  | Some i =>
      if port_lock p 0 <? 0 then (-1, mrrb, [])
      else
        match readers mrrb !! i with
        | None => (0, mrrb, [])
        | Some r =>
            if is_disabled r then (0, mrrb, [])
            else if negb (abort_data r =? NULL)
            then (0, set_readers mrrb
                       (<[i := set_status r MRRB_READER_STATUS_DISABLING]> (readers mrrb)),
                  [abort_call i (handle r)])
            else (0, set_readers mrrb
                       (<[i := set_status r MRRB_READER_STATUS_DISABLED]> (readers mrrb)),
                  [])
        end
  end.

(** ** Exported functions: completion of a read and of an abort *)

Definition mrrb_read_complete (p : port_t) (mrrb : multi_reader_ring_buffer_t)
    (reader_handle : Z) : multi_reader_ring_buffer_t * list event :=
  if reader_handle =? NULL then (mrrb, [])
  else
    match _mrrb_get_reader_by_handle mrrb reader_handle with
    | None => (mrrb, [])
    | Some i =>
        if port_lock p 0 <? 0 then (mrrb, [])
        else
          match readers mrrb !! i with
          | None => (mrrb, [])
          | Some reader =>
              match status reader with
              | MRRB_READER_STATUS_ACTIVE =>
                  let reader1 :=
                    set_read_complete_ptr (set_is_full reader false) (read_ptr reader) in
                  let readable_data_length :=
                    _mrrb_reader_get_continuous_readable_space mrrb reader1 in
                  if readable_data_length >? 0 then
                    let reader2 :=
                      set_read_ptr reader1
                        (_mrrb_advance_pointer mrrb (read_complete_ptr reader1)
                                               readable_data_length) in
                    (set_readers mrrb (<[i := reader2]> (readers mrrb)),
                     [notify_call i (handle reader2) (read_complete_ptr reader2)
                                  readable_data_length
                                  (slice (buffer mrrb) (read_complete_ptr reader2)
                                         readable_data_length)])
                  else
                    (set_readers mrrb
                       (<[i := set_status reader1 MRRB_READER_STATUS_IDLE]> (readers mrrb)),
                     [])
              | _ => (mrrb, [])
              end
          end
    end.

Definition mrrb_abort_complete (p : port_t) (mrrb : multi_reader_ring_buffer_t)
    (reader_handle : Z) : multi_reader_ring_buffer_t * list event :=
  if reader_handle =? NULL then (mrrb, [])
  else
    match _mrrb_get_reader_by_handle mrrb reader_handle with
    | None => (mrrb, [])
    | Some i =>
        if port_lock p 0 <? 0 then (mrrb, [])
        else
          match readers mrrb !! i with
          | None => (mrrb, [])
          | Some reader =>
              match status reader with
              | MRRB_READER_STATUS_DISABLING =>
                  (set_readers mrrb
                     (<[i := set_status reader MRRB_READER_STATUS_DISABLED]> (readers mrrb)),
                   [])
              | MRRB_READER_STATUS_ABORTING =>
                  let readable_data_length :=
                    _mrrb_reader_get_continuous_readable_space mrrb reader in
                  if (readable_data_length >? 0) && (ongoing_writes mrrb =? 0) then
                    let reader1 :=
                      set_status
                        (set_read_ptr reader
                           (_mrrb_advance_pointer mrrb (read_complete_ptr reader)
                                                  readable_data_length))
                        MRRB_READER_STATUS_ACTIVE in
                    (set_readers mrrb (<[i := reader1]> (readers mrrb)),
                     [notify_call i (handle reader1) (read_complete_ptr reader1)
                                  readable_data_length
                                  (slice (buffer mrrb) (read_complete_ptr reader1)
                                         readable_data_length)])
                  else
                    (set_readers mrrb
                       (<[i := set_status reader MRRB_READER_STATUS_ABORTED]> (readers mrrb)),
                     [])
              | _ => (mrrb, [])
              end
          end
    end.

(** ** Overrun clearing *)

(** One iteration of the loop of [_mrrb_clear_overrun_space] on [reader]:
    [None] when the iteration is left by [continue], otherwise the reader
    after the iteration, whether its bit of [reader_abort_flags] is set, and
    the final value of [reader_clear_space]. *)
Definition clear_overrun_reader (mrrb : multi_reader_ring_buffer_t)
    (requested_space : Z) (reader : ring_buffer_reader_t)
  : option (ring_buffer_reader_t * bool * Z) :=
  match status reader with
  | MRRB_READER_STATUS_DISABLED
  | MRRB_READER_STATUS_DISABLING
  | MRRB_READER_STATUS_IDLE => None
  | _ =>
      let reader_clear_space := _mrrb_reader_get_remaining_space mrrb reader in
      if reader_clear_space <? requested_space then
        match overrun_policy reader with
        | MRRB_READER_OVERRUN_BLOCKING => Some (reader, false, reader_clear_space)
        | MRRB_READER_OVERRUN_DISABLE =>
            if negb (abort_data reader =? NULL)
            then Some (set_status reader MRRB_READER_STATUS_DISABLING, true,
                       buffer_length mrrb)
            else Some (set_status reader MRRB_READER_STATUS_DISABLED, false,
                       buffer_length mrrb)
        | MRRB_READER_OVERRUN_SKIP =>
            let '(reader1, flag) :=
              match status reader with
              | MRRB_READER_STATUS_ACTIVE =>
                  (set_is_full
                     (set_read_complete_ptr
                        (set_status reader MRRB_READER_STATUS_ABORTING)
                        (read_ptr reader))
                     false, true)
              | _ => (reader, false)
              end in
            let reader_clear_space1 := _mrrb_reader_get_remaining_space mrrb reader1 in
            let '(reader2, reader_clear_space2) :=
              if reader_clear_space1 <? requested_space
              then (set_read_complete_ptr reader1
                      (_mrrb_advance_pointer mrrb (read_complete_ptr reader1)
                         (u32 (requested_space - reader_clear_space1))),
                    requested_space)
              else (reader1, reader_clear_space1) in
            Some (set_is_full reader2 (reader_clear_space2 =? requested_space),
                  flag, reader_clear_space2)
        end
      else Some (reader, false, reader_clear_space)
  end.

Definition clear_overrun_body (mrrb : multi_reader_ring_buffer_t) (requested_space : Z)
    (i : nat) (reader : ring_buffer_reader_t) (acc : list Z * Z)
  : ring_buffer_reader_t * (list Z * Z) :=
  match clear_overrun_reader mrrb requested_space reader with
  | None => (reader, acc)
  | Some (reader', flag, reader_clear_space) =>
      (reader',
       (if flag then flag_set acc.1 i else acc.1,
        if reader_clear_space <? acc.2 then reader_clear_space else acc.2))
  end.

(** Returns the MRRB after the call, the abort flags and [clear_space]. *)
Definition _mrrb_clear_overrun_space (mrrb : multi_reader_ring_buffer_t)
    (requested_space : Z) (reader_abort_flags : list Z)
  : multi_reader_ring_buffer_t * list Z * Z :=
  let '(rs, (flags, clear_space)) :=
    for_readers (clear_overrun_body mrrb requested_space) 0 (readers mrrb)
                (reader_abort_flags, buffer_length mrrb) in
  (set_readers mrrb rs, flags, clear_space).

(** ** Exported functions: [mrrb_write] *)

(** The locals of [mrrb_write] that survive the reservation phase, with the
    MRRB as the phase leaves it. *)
Record write_reservation : Type := mk_reservation {
  rsv_mrrb : multi_reader_ring_buffer_t;
  rsv_flags : list Z;
  rsv_abort_readers : bool;
  rsv_write_pointer : Z;
  rsv_continuous_write_length : Z;
  rsv_spill_write_length : Z;
  rsv_write_length : Z;
}.

(** The choice of [write_length], with overrun clearing where it applies. *)
Definition write_fit (mrrb : multi_reader_ring_buffer_t) (data_length : Z) (flags : list Z)
  : multi_reader_ring_buffer_t * list Z * bool * Z :=
  let remaining_space := mrrb_get_remaining_space (Some mrrb) in
  if data_length <=? remaining_space then (mrrb, flags, false, data_length)
  else
    let overwritable_space := mrrb_get_overwritable_space (Some mrrb) in
    if overwritable_space >? remaining_space then
      let requested_space :=
        if data_length <=? buffer_length mrrb then data_length else buffer_length mrrb in
      let '(mrrb', flags', remaining_space') :=
        _mrrb_clear_overrun_space mrrb requested_space flags in
      (mrrb', flags', true,
       if data_length <=? remaining_space' then data_length else remaining_space')
    else (mrrb, flags, false, remaining_space).

(** The update of the full flags after the reservation pointer has moved. *)
Definition update_full_flags (mrrb : multi_reader_ring_buffer_t) : multi_reader_ring_buffer_t :=
  set_readers mrrb
    ((fun reader =>
        if is_disabled reader then reader
        else set_is_full reader (reservation_ptr mrrb =? read_complete_ptr reader))
       <$> readers mrrb).

(** The part of [mrrb_write] between the first lock and the first unlock. *)
Definition write_reserve (mrrb : multi_reader_ring_buffer_t) (data_length : Z)
    (flags : list Z) : write_reservation :=
  let '(mrrb1, flags1, abort_readers, write_length) := write_fit mrrb data_length flags in
  let continuous_remaining_space := u32 (buffer_length mrrb1 - reservation_ptr mrrb1) in
  let write_pointer := reservation_ptr mrrb1 in
  let '(continuous_write_length, spill_write_length, reservation_ptr') :=
    if write_length >=? continuous_remaining_space
    then (continuous_remaining_space,
          u32 (write_length - continuous_remaining_space),
          u32 (write_length - continuous_remaining_space))
    else (write_length, 0, reservation_ptr mrrb1 + write_length) in
  let mrrb2 := update_full_flags (set_reservation_ptr mrrb1 reservation_ptr') in
  let mrrb3 := set_ongoing_writes mrrb2 (u32 (ongoing_writes mrrb2 + 1)) in
  mk_reservation mrrb3 flags1 abort_readers write_pointer
                 continuous_write_length spill_write_length write_length.

(** The abort callbacks of the flagged readers, in the order of the loop. *)
Definition abort_body (flags : list Z) (i : nat) (reader : ring_buffer_reader_t)
    (evs : list event) : ring_buffer_reader_t * list event :=
  if flag_get flags i then (reader, evs ++ [abort_call i (handle reader)])
  else (reader, evs).

(** The two [memcpy] calls of the copy phase. *)
Definition write_copy (mrrb : multi_reader_ring_buffer_t) (write_pointer : Z)
    (data : list byte) (continuous_write_length spill_write_length : Z)
  : multi_reader_ring_buffer_t :=
  let b1 := if continuous_write_length >? 0
            then memcpy (buffer mrrb) write_pointer data continuous_write_length
            else buffer mrrb in
  let b2 := if spill_write_length >? 0
            then memcpy b1 0 (drop (Z.to_nat continuous_write_length) data) spill_write_length
            else b1 in
  set_buffer mrrb b2.

(** The loop "Reserve readers" of the publish phase. *)
Definition publish_body (mrrb : multi_reader_ring_buffer_t) (i : nat)
    (reader : ring_buffer_reader_t) (flags : list Z) : ring_buffer_reader_t * list Z :=
  match status reader with
  | MRRB_READER_STATUS_IDLE =>
      (set_read_complete_ptr (set_status reader MRRB_READER_STATUS_ACTIVE) (write_ptr mrrb),
       flag_set flags i)
  | MRRB_READER_STATUS_ABORTED =>
      (set_status reader MRRB_READER_STATUS_ACTIVE, flag_set flags i)
  | _ => (reader, flags)
  end.

(** The loop "Notify readers", run after the unlock. *)
Definition notify_body (mrrb : multi_reader_ring_buffer_t) (flags : list Z) (i : nat)
    (reader : ring_buffer_reader_t) (evs : list event) : ring_buffer_reader_t * list event :=
  if flag_get flags i then
    let readable_data_length := _mrrb_reader_get_continuous_readable_space mrrb reader in
    let reader' :=
      set_read_ptr reader
        (_mrrb_advance_pointer mrrb (read_complete_ptr reader) readable_data_length) in
    (reader',
     evs ++ [notify_call i (handle reader') (read_complete_ptr reader') readable_data_length
                         (slice (buffer mrrb) (read_complete_ptr reader')
                                readable_data_length)])
  else (reader, evs).

(** The part of [mrrb_write] after the second lock has been taken. *)
Definition write_publish (mrrb : multi_reader_ring_buffer_t) (flags : list Z)
  : multi_reader_ring_buffer_t * list event :=
  let ongoing := u32 (ongoing_writes mrrb - 1) in
  let mrrb1 := set_ongoing_writes mrrb ongoing in
  if ongoing =? 0 then
    let '(rs, flags1) := for_readers (publish_body mrrb1) 0 (readers mrrb1) flags in
    let mrrb2 := set_write_ptr (set_readers mrrb1 rs) (reservation_ptr mrrb1) in
    let '(rs', evs) := for_readers (notify_body mrrb2 flags1) 0 (readers mrrb2) [] in
    (set_readers mrrb2 rs', evs)
  else (mrrb1, []).

Definition mrrb_write (p : port_t) (mrrb : multi_reader_ring_buffer_t)
    (data : option (list byte)) (data_length : Z)
  : Z * multi_reader_ring_buffer_t * list event :=
  match data with
  | None => (-1, mrrb, [])
  | Some data =>
      if data_length =? 0 then (0, mrrb, [])
      else if negb (allow_write_from_isr p) && negb (port_interrupt_active p =? 0)
      then (0, mrrb, [])
      else
        let reader_notification_flags := flags_zero (num_readers mrrb) in
        if port_lock p 0 <? 0 then (-1, mrrb, [])
        else
          let rsv := write_reserve mrrb data_length reader_notification_flags in
          let mrrb1 := rsv_mrrb rsv in
          if port_unlock p 0 <? 0 then (-1, mrrb1, [])
          else
            let aborts :=
              if rsv_abort_readers rsv
              then (for_readers (abort_body (rsv_flags rsv)) 0 (readers mrrb1) []).2
              else [] in
            let flags1 :=
              if rsv_abort_readers rsv then flags_zero (num_readers mrrb) else rsv_flags rsv in
            let mrrb2 :=
              write_copy mrrb1 (rsv_write_pointer rsv) data
                         (rsv_continuous_write_length rsv) (rsv_spill_write_length rsv) in
            if port_lock p 1 <? 0 then (-1, mrrb2, aborts)
            else
              let '(mrrb3, notifies) := write_publish mrrb2 flags1 in
              (to_int (rsv_write_length rsv), mrrb3, aborts ++ notifies)
  end.

(** ** Sequential executions *)

Inductive op : Set :=
  | op_write (data : list byte)
  | op_read_complete (reader_handle : Z)
  | op_abort_complete (reader_handle : Z)
  | op_reader_enable (reader : nat)
  | op_reader_disable (reader : nat).

(** One call on the port [port_ok]; the value returned is 0 for the two
    functions that return [void]. *)
Definition step (mrrb : multi_reader_ring_buffer_t) (o : op)
  : Z * multi_reader_ring_buffer_t * list event :=
  match o with
  | op_write data => mrrb_write port_ok mrrb (Some data) (Z.of_nat (length data))
  | op_read_complete h => let '(m, evs) := mrrb_read_complete port_ok mrrb h in (0, m, evs)
  | op_abort_complete h => let '(m, evs) := mrrb_abort_complete port_ok mrrb h in (0, m, evs)
  | op_reader_enable i => let '(r, m) := mrrb_reader_enable port_ok mrrb (Some i) in (r, m, [])
  | op_reader_disable i => mrrb_reader_disable port_ok mrrb (Some i)
  end.

(** The calls of an execution with what each returned and which callbacks it
    invoked, and the MRRB at the end. *)
Fixpoint run (mrrb : multi_reader_ring_buffer_t) (ops : list op)
  : multi_reader_ring_buffer_t * list (op * Z * list event) :=
  match ops with
  | [] => (mrrb, [])
  | o :: ops' =>
      let '(ret, mrrb', evs) := step mrrb o in
      let '(mrrb'', tr) := run mrrb' ops' in
      (mrrb'', (o, ret, evs) :: tr)
  end.

Definition trace_events (tr : list (op * Z * list event)) : list event :=
  concat ((fun x => x.2) <$> tr).

(** ** Vocabulary of the design document *)

(** A cursor of the ring: an offset inside the buffer. *)
Definition in_ring (mrrb : multi_reader_ring_buffer_t) (ptr : Z) : Prop :=
  0 <= ptr < buffer_length mrrb.

(** An enabled reader: neither DISABLED nor DISABLING. *)
Definition enabled (r : ring_buffer_reader_t) : Prop := is_disabled r = false.

(** The number of bytes met going forward around a ring of [n] bytes from
    [from] until [to] is reached; with both cursors on the same byte the walk
    is the whole ring (the other reading of equal cursors, the full ring, is
    what [is_full] records). *)
Definition forward_distance (n from to : Z) : Z :=
  if to =? from then n else (to - from) mod n.

(** The space a reader leaves to the writer, in the words of the design
    document (4.1 step 1). *)
Definition reader_space (mrrb : multi_reader_ring_buffer_t) (r : ring_buffer_reader_t) : Z :=
  if is_disabled r then buffer_length mrrb
  else if is_full r then 0
  else forward_distance (buffer_length mrrb) (reservation_ptr mrrb) (read_complete_ptr r).

(** [s] is the minimum of [f] over the readers of the MRRB. *)
Definition is_min_over_readers (mrrb : multi_reader_ring_buffer_t)
    (f : ring_buffer_reader_t -> Z) (s : Z) : Prop :=
  (forall r, r ∈ readers mrrb -> s <= f r) ∧ (exists r, r ∈ readers mrrb ∧ s = f r).

(** The state of reader [i] that the design document promises after
    [mrrb_reader_enable]: both cursors on the reservation pointer, not full,
    IDLE. *)
Definition reseated (mrrb : multi_reader_ring_buffer_t) (i : nat) : Prop :=
  exists r, readers mrrb !! i = Some r ∧
    read_ptr r = reservation_ptr mrrb ∧
    read_complete_ptr r = reservation_ptr mrrb ∧
    is_full r = false ∧
    status r = MRRB_READER_STATUS_IDLE.

(** [mrrb'] is [mrrb] with reader [i] replaced by [r']. *)
Definition reader_replaced (mrrb : multi_reader_ring_buffer_t) (i : nat)
    (r' : ring_buffer_reader_t) (mrrb' : multi_reader_ring_buffer_t) : Prop :=
  mrrb' = set_readers mrrb (<[i := r']> (readers mrrb)).

(** The cursors that a completion reads lie inside the buffer. *)
Definition cursors_in_ring (mrrb : multi_reader_ring_buffer_t) (r : ring_buffer_reader_t)
  : Prop :=
  buffer_length mrrb < 4294967296 ∧ in_ring mrrb (write_ptr mrrb) ∧
  in_ring mrrb (read_ptr r) ∧ in_ring mrrb (read_complete_ptr r).

(** [r'] is [r] with its read cursor advanced by [span] bytes from [from]:
    the cursor that [_mrrb_advance_pointer] computes, which is [from + span]
    modulo the buffer length when the cursors lie inside the buffer. *)
Definition read_ptr_advanced (mrrb : multi_reader_ring_buffer_t) (r : ring_buffer_reader_t)
    (from span : Z) (r' : ring_buffer_reader_t) : Prop :=
  read_ptr r' = _mrrb_advance_pointer mrrb from span ∧
  (cursors_in_ring mrrb r -> read_ptr r' = (from + span) mod buffer_length mrrb).

(** What the design document (4.5, 4.3, P6) says [mrrb_read_complete] does
    with the handle [h]: [mrrb'] is the MRRB after the call and [evs] are the
    callbacks invoked. The located reader is the one the linear scan finds;
    every field of the reader after the call is given, and nothing but that
    reader changes. *)
Definition read_complete_spec (mrrb : multi_reader_ring_buffer_t) (h : Z)
    (mrrb' : multi_reader_ring_buffer_t) (evs : list event) : Prop :=
  match _mrrb_get_reader_by_handle mrrb h with
  | None => mrrb' = mrrb ∧ evs = []
  | Some i =>
      forall r, readers mrrb !! i = Some r ->
        if bool_decide (status r = MRRB_READER_STATUS_ACTIVE) then
          exists r', reader_replaced mrrb i r' mrrb' ∧
            read_complete_ptr r' = read_ptr r ∧ is_full r' = false ∧
            handle r' = handle r ∧ overrun_policy r' = overrun_policy r ∧
            notify_data r' = notify_data r ∧ abort_data r' = abort_data r ∧
            let span := _mrrb_reader_get_continuous_readable_space mrrb r' in
            if 0 <? span
            then status r' = MRRB_READER_STATUS_ACTIVE ∧
                 read_ptr_advanced mrrb r (read_ptr r) span r' ∧
                 evs = [notify_call i h (read_ptr r) span (slice (buffer mrrb) (read_ptr r) span)]
            else status r' = MRRB_READER_STATUS_IDLE ∧ read_ptr r' = read_ptr r ∧ evs = []
        else mrrb' = mrrb ∧ evs = []
  end.

(** What the design document (4.5, 4.3) says [mrrb_abort_complete] does with
    the handle [h]; every field of the reader after the call is given, and
    nothing but that reader changes. *)
Definition abort_complete_spec (mrrb : multi_reader_ring_buffer_t) (h : Z)
    (mrrb' : multi_reader_ring_buffer_t) (evs : list event) : Prop :=
  match _mrrb_get_reader_by_handle mrrb h with
  | None => mrrb' = mrrb ∧ evs = []
  | Some i =>
      forall r, readers mrrb !! i = Some r ->
        match status r with
        | MRRB_READER_STATUS_DISABLING =>
            reader_replaced mrrb i (set_status r MRRB_READER_STATUS_DISABLED) mrrb' ∧ evs = []
        | MRRB_READER_STATUS_ABORTING =>
            let span := _mrrb_reader_get_continuous_readable_space mrrb r in
            if (0 <? span) && (ongoing_writes mrrb =? 0)
            then exists r', reader_replaced mrrb i r' mrrb' ∧
                   status r' = MRRB_READER_STATUS_ACTIVE ∧
                   read_complete_ptr r' = read_complete_ptr r ∧
                   is_full r' = is_full r ∧
                   handle r' = handle r ∧ overrun_policy r' = overrun_policy r ∧
                   notify_data r' = notify_data r ∧ abort_data r' = abort_data r ∧
                   read_ptr_advanced mrrb r (read_complete_ptr r) span r' ∧
                   evs = [notify_call i h (read_complete_ptr r) span
                                      (slice (buffer mrrb) (read_complete_ptr r) span)]
            else reader_replaced mrrb i (set_status r MRRB_READER_STATUS_ABORTED) mrrb' ∧
                 evs = []
        | _ => mrrb' = mrrb ∧ evs = []
        end
  end.

(** ** Concrete objects used in the examples *)

(** Memory before initialisation: arbitrary contents. *)
Definition uninit_reader : ring_buffer_reader_t :=
  mk_reader 77 MRRB_READER_OVERRUN_DISABLE 5 9 MRRB_READER_STATUS_ABORTED true 0 0.

Definition uninit_mrrb : multi_reader_ring_buffer_t := mk_mrrb [] [] 3 2 1.

(** A reader as [mrrb_reader_init] leaves it; the notify callback is at
    address 4096. *)
Definition example_reader (h : Z) (policy : mrrb_reader_overrun_policy_t) (abort : Z)
  : ring_buffer_reader_t :=
  default uninit_reader (mrrb_reader_init (Some uninit_reader) h policy 4096 abort).2.

(** An MRRB as [mrrb_init] leaves it, on a buffer of [n] bytes. *)
Definition example_mrrb (n : nat) (rs : list ring_buffer_reader_t) : multi_reader_ring_buffer_t :=
  (mrrb_init 0 uninit_mrrb (Some (replicate n "000"%byte)) (Some rs)).2.

(** One SKIP reader with handle 1 (abort callback at 8192) on 4 bytes. *)
Definition example_skip : multi_reader_ring_buffer_t :=
  example_mrrb 4 [example_reader 1 MRRB_READER_OVERRUN_SKIP 8192].

(** One BLOCKING reader with handle 1 on 8 bytes. *)
Definition example_blocking : multi_reader_ring_buffer_t :=
  example_mrrb 8 [example_reader 1 MRRB_READER_OVERRUN_BLOCKING NULL].

(** One BLOCKING reader whose handle is NULL on 8 bytes. *)
Definition example_null_handle : multi_reader_ring_buffer_t :=
  example_mrrb 8 [example_reader NULL MRRB_READER_OVERRUN_BLOCKING NULL].

(** Two BLOCKING readers with handles 1 and 2 on 4 bytes. *)
Definition example_two_blocking : multi_reader_ring_buffer_t :=
  example_mrrb 4 [example_reader 1 MRRB_READER_OVERRUN_BLOCKING NULL;
                  example_reader 2 MRRB_READER_OVERRUN_BLOCKING NULL].

(** One DISABLE reader whose handle is NULL, with an abort callback, on 8 bytes. *)
Definition example_null_handle_abort : multi_reader_ring_buffer_t :=
  example_mrrb 8 [example_reader NULL MRRB_READER_OVERRUN_DISABLE 8192].

(** The port on which the [k]-th lock of an operation fails. *)
Definition port_fail_lock (k : nat) : port_t :=
  mk_port false 0 (fun j => if Nat.eqb j k then -1 else 0) (fun _ => 0).

(** ** Vocabulary of overrun clearing *)




(** The reader that one iteration of the clearing loop leaves. *)
Definition cleared_reader (mrrb : multi_reader_ring_buffer_t) (requested_space : Z)
    (r : ring_buffer_reader_t) : ring_buffer_reader_t :=
  match clear_overrun_reader mrrb requested_space r with
  | Some (r', _, _) => r'
  | None => r
  end.

(** ** The effect of [mrrb_write] on one reader *)

(** The reader after the choice of [write_length]. *)
Definition fitted_reader (mrrb : multi_reader_ring_buffer_t) (data_length : Z)
    (r : ring_buffer_reader_t) : ring_buffer_reader_t :=
  if data_length <=? mrrb_get_remaining_space (Some mrrb) then r
  else if mrrb_get_overwritable_space (Some mrrb) >? mrrb_get_remaining_space (Some mrrb)
  then cleared_reader mrrb
         (if data_length <=? buffer_length mrrb then data_length else buffer_length mrrb) r
  else r.

(** The reader after the update of the full flags, the reservation pointer
    being [res]. *)
Definition flagged_reader (res : Z) (r : ring_buffer_reader_t) : ring_buffer_reader_t :=
  if is_disabled r then r else set_is_full r (res =? read_complete_ptr r).

(** The readers that the publish phase notifies. *)
Definition needs_notify (r : ring_buffer_reader_t) : bool :=
  match status r with
  | MRRB_READER_STATUS_IDLE | MRRB_READER_STATUS_ABORTED => true
  | _ => false
  end.

(** The reader after the loop "Reserve readers". *)
Definition published_reader (mrrb : multi_reader_ring_buffer_t) (r : ring_buffer_reader_t)
  : ring_buffer_reader_t :=
  (publish_body mrrb 0 r []).1.

(** The reader after the loop "Notify readers". *)
Definition notified_reader (mrrb : multi_reader_ring_buffer_t) (r : ring_buffer_reader_t)
  : ring_buffer_reader_t :=
  set_read_ptr r
    (_mrrb_advance_pointer mrrb (read_complete_ptr r)
       (_mrrb_reader_get_continuous_readable_space mrrb r)).

(** The bytes that the notify calls of an event list hand to reader [i]. *)
Definition event_bytes (i : nat) (e : event) : list byte :=
  match e with
  | notify_call k _ _ _ bs => if Nat.eqb k i then bs else []
  | abort_call _ _ => []
  end.

Definition delivered (i : nat) (evs : list event) : list byte :=
  concat (event_bytes i <$> evs).

(** The length passed by a notify call is at least one. *)
Definition notify_length_positive (e : event) : Prop :=
  match e with
  | notify_call _ _ _ len _ => 1 <= len
  | abort_call _ _ => True
  end.

(** An abort callback. *)
Definition is_abort (e : event) : Prop :=
  match e with
  | abort_call _ _ => True
  | notify_call _ _ _ _ _ => False
  end.

(** The reader at the end of [mrrb_write] when the write is the last ongoing
    one: [res] is the reservation pointer after the reservation and [final]
    the MRRB at the end of the call. *)
Definition written_reader (mrrb : multi_reader_ring_buffer_t) (data_length res : Z)
    (final : multi_reader_ring_buffer_t) (r : ring_buffer_reader_t) : ring_buffer_reader_t :=
  let r2 := flagged_reader res (fitted_reader mrrb data_length r) in
  if needs_notify r2 then notified_reader final (published_reader mrrb r2)
  else published_reader mrrb r2.

(** ** States of a sequential execution *)

(** The MRRB between two calls of a sequential execution in which no port
    call failed: no write is ongoing, everything reserved is published, the
    cursors lie in the ring, and an IDLE reader has completed everything
    published. *)
Definition quiescent (mrrb : multi_reader_ring_buffer_t) : Prop :=
  buffer_length mrrb < 4294967296 ∧
  ongoing_writes mrrb = 0 ∧
  write_ptr mrrb = reservation_ptr mrrb ∧
  in_ring mrrb (reservation_ptr mrrb) ∧
  forall k r, readers mrrb !! k = Some r ->
    in_ring mrrb (read_ptr r) ∧ in_ring mrrb (read_complete_ptr r) ∧
    (status r = MRRB_READER_STATUS_IDLE -> read_complete_ptr r = write_ptr mrrb).

(** The arguments of the writes of an execution fit an [unsigned int]. *)
Definition op_fits (o : op) : Prop :=
  match o with
  | op_write data => Z.of_nat (length data) < 4294967296
  | _ => True
  end.

(** ** The byte stream of an execution *)

(** The operations of the no-loss property (P1). *)
Definition data_op (o : op) : Prop :=
  match o with
  | op_write _ | op_read_complete _ | op_abort_complete _ => True
  | op_reader_enable _ | op_reader_disable _ => False
  end.

(** The bytes that a call added to the ring: the first [ret] bytes of the
    argument of a write that returned [ret]. *)
Definition accepted_bytes (x : op * Z * list event) : list byte :=
  match x.1.1 with
  | op_write data => take (Z.to_nat x.1.2) data
  | _ => []
  end.

(** The writer stream of an execution. *)
Definition accepted (tr : list (op * Z * list event)) : list byte :=
  concat (accepted_bytes <$> tr).

Definition written_count (x : op * Z * list event) : Z :=
  match x.1.1 with
  | op_write _ => x.1.2
  | _ => 0
  end.

(** The sum of the values returned by the writes of an execution. *)
Definition total_written (tr : list (op * Z * list event)) : Z :=
  foldr Z.add 0 (written_count <$> tr).

(** No write of at least one byte returns 0 while reader [i] is IDLE. *)
Fixpoint no_stalled_idle_write (i : nat) (mrrb : multi_reader_ring_buffer_t)
    (ops : list op) : Prop :=
  match ops with
  | [] => True
  | o :: ops' =>
      match o with
      | op_write data =>
          data ≠ [] ->
          (exists r, readers mrrb !! i = Some r ∧ status r = MRRB_READER_STATUS_IDLE) ->
          (step mrrb o).1.1 ≠ 0
      | _ => True
      end ∧ no_stalled_idle_write i (step mrrb o).1.2 ops'
  end.

(** A position of the ring reached from a cursor by less than one turn. *)
Definition wrap (n x : Z) : Z := if x <? n then x else x - n.

(** The ring [b] of [n] bytes holds the bytes [pending] from the cursor [rp]
    on, wrapping at the buffer end. *)
Definition ring_holds (b : list byte) (n rp : Z) (pending : list byte) : Prop :=
  forall j : nat, (j < length pending)%nat ->
    pending !! j = b !! Z.to_nat (wrap n (rp + Z.of_nat j)).

(** The state of the BLOCKING reader [i] in a sequential execution whose
    writer stream so far is [stream] and whose notify calls so far handed
    [dl] to the reader: [pending] are the bytes published but not yet handed
    out, which the ring holds from the read cursor on, and [shown] is the
    number of bytes handed out and not yet completed. *)
Definition blocking_reader_inv (i : nat) (mrrb : multi_reader_ring_buffer_t)
    (stream dl : list byte) : Prop :=
  buffer_length mrrb < 2147483648 ∧
  ongoing_writes mrrb = 0 ∧
  write_ptr mrrb = reservation_ptr mrrb ∧
  in_ring mrrb (reservation_ptr mrrb) ∧
  exists (r : ring_buffer_reader_t) (pending : list byte) (shown : Z),
    readers mrrb !! i = Some r ∧
    overrun_policy r = MRRB_READER_OVERRUN_BLOCKING ∧
    stream = dl ++ pending ∧
    0 <= shown ∧ shown + Z.of_nat (length pending) <= buffer_length mrrb ∧
    in_ring mrrb (read_complete_ptr r) ∧ in_ring mrrb (read_ptr r) ∧
    read_ptr r = wrap (buffer_length mrrb) (read_complete_ptr r + shown) ∧
    write_ptr mrrb = wrap (buffer_length mrrb) (read_ptr r + Z.of_nat (length pending)) ∧
    is_full r = (shown + Z.of_nat (length pending) =? buffer_length mrrb) ∧
    (status r = MRRB_READER_STATUS_IDLE ∧ shown = 0 ∧ pending = [] ∨
     status r = MRRB_READER_STATUS_ACTIVE ∧ 1 <= shown) ∧
    ring_holds (buffer mrrb) (buffer_length mrrb) (read_ptr r) pending.

(** What a write was asked to add: its whole argument. *)
Definition written_data (x : op * Z * list event) : list byte :=
  match x.1.1 with
  | op_write data => data
  | _ => []
  end.

(** The concatenated writer input of an execution. *)
Definition writer_input (tr : list (op * Z * list event)) : list byte :=
  concat (written_data <$> tr).

(** ** Identity of a reader and its callbacks *)

(** The fields that [mrrb_reader_init] sets and no other function assigns:
    [r'] has the handle, the policy and the callbacks of [r]. *)
Definition same_identity (r r' : ring_buffer_reader_t) : Prop :=
  handle r' = handle r ∧ overrun_policy r' = overrun_policy r ∧
  notify_data r' = notify_data r ∧ abort_data r' = abort_data r.

(** A reader as a successful [mrrb_reader_init] leaves it. *)
Definition initialised (r : ring_buffer_reader_t) : Prop :=
  exists r0 h policy notify abort,
    mrrb_reader_init (Some r0) h policy notify abort = (0, Some r).

(** What the argument check of [mrrb_reader_init] establishes. *)
Definition callbacks_checked (r : ring_buffer_reader_t) : Prop :=
  notify_data r ≠ NULL ∧
  (overrun_policy r = MRRB_READER_OVERRUN_SKIP -> abort_data r ≠ NULL).

(** The callback invoked by [e] is a function of the reader it names, not a
    null pointer, and is passed the handle of that reader. *)
Definition calls_set_callback (rs : list ring_buffer_reader_t) (e : event) : Prop :=
  match e with
  | notify_call k h _ _ _ =>
      exists r, rs !! k = Some r ∧ handle r = h ∧ notify_data r ≠ NULL
  | abort_call k h =>
      exists r, rs !! k = Some r ∧ handle r = h ∧ abort_data r ≠ NULL
  end.

(** Whether the iteration of the clearing loop on [r] sets the abort flag of
    [r]. *)
Definition raises_abort_flag (mrrb : multi_reader_ring_buffer_t) (requested_space : Z)
    (r : ring_buffer_reader_t) : bool :=
  match clear_overrun_reader mrrb requested_space r with
  | Some (_, flag, _) => flag
  | None => false
  end.

(** ** Callbacks of a sequential execution *)

(** The span passed by a notify call lies inside a buffer of [n] bytes, is at
    least one byte long, and [ev_bytes] are its bytes. *)
Definition notify_in_buffer (n : Z) (e : event) : Prop :=
  match e with
  | notify_call _ _ off len bs =>
      0 <= off ∧ 1 <= len ∧ off + len <= n ∧ Z.of_nat (length bs) = len
  | abort_call _ _ => True
  end.

(** What one call on the MRRB [mrrb] guarantees of a callback it invokes:
    the reader named exists and is passed its handle; a notify call passes a
    span inside the buffer; an abort call is made on a reader that has an
    abort callback or the SKIP policy. *)
Definition event_sound (mrrb : multi_reader_ring_buffer_t) (e : event) : Prop :=
  match e with
  | notify_call k h off len bs =>
      (exists r, readers mrrb !! k = Some r ∧ handle r = h) ∧
      notify_in_buffer (buffer_length mrrb) e
  | abort_call k h =>
      exists r, readers mrrb !! k = Some r ∧ handle r = h ∧
        (abort_data r ≠ NULL ∨ overrun_policy r = MRRB_READER_OVERRUN_SKIP)
  end.

(** ** A call of another thread inside [mrrb_write]

    [mrrb_write] holds the lock twice, around the reservation and around the
    publication, and copies with the lock released (mrrb.c:489-513). [other]
    is a call that another thread or an interrupt makes on the MRRB in that
    window, after the abort callbacks of the writer; it returns the MRRB it
    leaves and the callbacks it invoked. The port calls of the writer
    succeed, and its locals ([write_pointer], the lengths, the flags) are
    its own. *)
Definition mrrb_write_interleaved (mrrb : multi_reader_ring_buffer_t) (data : list byte)
    (data_length : Z)
    (other : multi_reader_ring_buffer_t -> multi_reader_ring_buffer_t * list event)
  : Z * multi_reader_ring_buffer_t * list event :=
  if data_length =? 0 then (0, mrrb, [])
  else
    let reader_notification_flags := flags_zero (num_readers mrrb) in
    let rsv := write_reserve mrrb data_length reader_notification_flags in
    let mrrb1 := rsv_mrrb rsv in
    let aborts :=
      if rsv_abort_readers rsv
      then (for_readers (abort_body (rsv_flags rsv)) 0 (readers mrrb1) []).2
      else [] in
    let flags1 :=
      if rsv_abort_readers rsv then flags_zero (num_readers mrrb) else rsv_flags rsv in
    let '(mrrb1', others) := other mrrb1 in
    let mrrb2 :=
      write_copy mrrb1' (rsv_write_pointer rsv) data
                 (rsv_continuous_write_length rsv) (rsv_spill_write_length rsv) in
    let '(mrrb3, notifies) := write_publish mrrb2 flags1 in
    (to_int (rsv_write_length rsv), mrrb3, aborts ++ others ++ notifies).

(** One BLOCKING reader on 8 bytes that has been shown a full ring. *)
Definition example_full : multi_reader_ring_buffer_t :=
  (run example_blocking [op_write ["a"; "b"; "c"; "d"; "e"; "f"; "g"; "h"]%byte]).1.

(** * Properties *)

(** ** The notification bitmap *)

Lemma land_bit_eqb (b k : Z) :
  0 <= k -> (Z.land b (Z.shiftl 1 k) =? 0) = negb (Z.testbit b k).
Proof.
  intros Hk. rewrite Z.shiftl_1_l.
  destruct (Z.testbit b k) eqn:Hb; simpl.
  - apply Z.eqb_neq. intros H0.
    assert (Hbit : Z.testbit (Z.land b (2 ^ k)) k = true)
      by (rewrite Z.land_spec, Hb, Z.pow2_bits_true; auto).
    rewrite H0, Z.bits_0 in Hbit. discriminate.
  - apply Z.eqb_eq. apply Z.bits_inj'. intros n Hn.
    rewrite Z.land_spec, Z.bits_0, Z.pow2_bits_eqb by assumption.
    destruct (Z.eqb_spec k n) as [->|]; [rewrite Hb|]; auto using andb_false_r.
Qed.

Lemma flag_get_zero (n : Z) (k : nat) : flag_get (flags_zero n) k = false.
Proof.
  unfold flag_get, flags_zero.
  destruct (replicate _ 0 !! (k / 8)%nat) eqn:E; [|reflexivity].
  apply lookup_replicate in E as [-> _]. reflexivity.
Qed.

Lemma length_flag_set (flags : list Z) (i : nat) : length (flag_set flags i) = length flags.
Proof. unfold flag_set. destruct (flags !! _); [apply length_insert|reflexivity]. Qed.

Lemma flag_get_set_eq (flags : list Z) (i : nat) :
  (i / 8 < length flags)%nat -> flag_get (flag_set flags i) i = true.
Proof.
  intros Hi. unfold flag_get, flag_set.
  destruct (lookup_lt_is_Some_2 flags _ Hi) as [b Hb]. rewrite Hb.
  rewrite list_lookup_insert_eq by assumption.
  rewrite land_bit_eqb by lia. rewrite negb_involutive, Z.lor_spec.
  rewrite Z.shiftl_1_l, Z.pow2_bits_true by lia. apply orb_true_r.
Qed.

Lemma flag_get_set_ne (flags : list Z) (i k : nat) :
  i ≠ k -> flag_get (flag_set flags i) k = flag_get flags k.
Proof.
  intros Hne. unfold flag_get, flag_set.
  destruct (flags !! (i / 8)%nat) as [b|] eqn:Hb; [|reflexivity].
  destruct (decide (i / 8 = k / 8)%nat) as [Heq|Hdiv].
  - rewrite <- Heq, Hb.
    rewrite list_lookup_insert_eq by (eapply lookup_lt_Some; eauto).
    rewrite !land_bit_eqb by lia. rewrite Z.lor_spec.
    rewrite Z.shiftl_1_l, Z.pow2_bits_false; [rewrite orb_false_r; reflexivity|].
    intros Hmod. apply Hne.
    rewrite (Nat.div_mod_eq i 8), (Nat.div_mod_eq k 8). lia.
  - rewrite list_lookup_insert_ne by assumption. reflexivity.
Qed.

Lemma flag_get_set (flags : list Z) (i k : nat) :
  flag_get (flag_set flags i) k = true -> i = k ∨ flag_get flags k = true.
Proof.
  destruct (decide (i = k)) as [|Hne]; [auto|].
  rewrite flag_get_set_ne by assumption. auto.
Qed.

Lemma flag_get_set_mono (flags : list Z) (i k : nat) :
  flag_get flags k = true -> flag_get (flag_set flags i) k = true.
Proof.
  intros Hk. destruct (decide (i = k)) as [->|Hne].
  - apply flag_get_set_eq. unfold flag_get in Hk.
    destruct (flags !! (k / 8)%nat) eqn:E; [|discriminate].
    eapply lookup_lt_Some; eauto.
  - rewrite flag_get_set_ne by assumption. assumption.
Qed.

Lemma length_flags_zero (n : nat) (i : nat) :
  (i < n)%nat -> (i / 8 < length (flags_zero (Z.of_nat n)))%nat.
Proof.
  intros Hi. unfold flags_zero. rewrite length_replicate.
  assert (H : Z.of_nat (i / 8) < (Z.of_nat n + 7) / 8).
  { rewrite Nat2Z.inj_div. apply Z.div_lt_upper_bound; [lia|].
    pose proof (Z.mul_div_le (Z.of_nat i) 8 ltac:(lia)).
    pose proof (Z.mod_pos_bound (Z.of_nat n + 7) 8 ltac:(lia)).
    pose proof (Z.div_mod (Z.of_nat n + 7) 8 ltac:(lia)).
    change (Z.of_nat 8) with 8. lia. }
  lia.
Qed.

(** ** Loops over the readers *)

Section for_readers.
Context {A : Type}.
Variable body : nat -> ring_buffer_reader_t -> A -> ring_buffer_reader_t * A.

Lemma for_readers_length (rs : list ring_buffer_reader_t) (i : nat) (a : A) :
  length (for_readers body i rs a).1 = length rs.
Proof.
  revert i a. induction rs as [|r rs IH]; intros i a; simpl; [reflexivity|].
  destruct (body i r a) as [r' a'].
  specialize (IH (S i) a'). destruct (for_readers body (S i) rs a') as [rs'' a''].
  simpl in *. congruence.
Qed.

(** When what the body assigns to the reader does not depend on the locals,
    the reader at index [k] after the loop is the body at [k] applied to the
    reader at index [k] before the loop. *)
Lemma for_readers_lookup (f : nat -> ring_buffer_reader_t -> ring_buffer_reader_t)
    (rs : list ring_buffer_reader_t) (i : nat) (a : A) (k : nat) :
  (forall j r a, (body j r a).1 = f j r) ->
  (for_readers body i rs a).1 !! k = f (i + k)%nat <$> rs !! k.
Proof.
  intros Hf. revert i a k. induction rs as [|r rs IH]; intros i a k; simpl.
  - reflexivity.
  - pose proof (Hf i r a) as Hr. destruct (body i r a) as [r' a'].
    specialize (IH (S i) a'). destruct (for_readers body (S i) rs a') as [rs'' a''].
    simpl in *. destruct k as [|k]; simpl.
    + rewrite Nat.add_0_r. congruence.
    + rewrite IH. replace (i + S k)%nat with (S (i + k)) by lia. reflexivity.
Qed.

(** Invariant rule for the locals. *)
Lemma for_readers_acc (P : nat -> A -> Prop) (rs : list ring_buffer_reader_t)
    (i : nat) (a : A) :
  P i a ->
  (forall k r a, rs !! k = Some r -> P (i + k)%nat a ->
                 P (S (i + k)) (body (i + k)%nat r a).2) ->
  P (i + length rs)%nat (for_readers body i rs a).2.
Proof.
  revert i a. induction rs as [|r rs IH]; intros i a Hinit Hstep; simpl.
  - rewrite Nat.add_0_r. exact Hinit.
  - pose proof (Hstep 0%nat r a eq_refl) as H0. rewrite Nat.add_0_r in H0.
    specialize (H0 Hinit).
    destruct (body i r a) as [r' a']. simpl in H0.
    specialize (IH (S i) a' H0).
    destruct (for_readers body (S i) rs a') as [rs'' a'']. simpl in *.
    replace (i + S (length rs))%nat with (S i + length rs)%nat by lia.
    apply IH. intros k r0 a0 Hk HP.
    specialize (Hstep (S k) r0 a0 Hk).
    replace (i + S k)%nat with (S i + k)%nat in Hstep by lia. auto.
Qed.
End for_readers.

Lemma get_reader_by_handle_from_Some (rs : list ring_buffer_reader_t) (h : Z) (i k : nat) :
  get_reader_by_handle_from i rs h = Some k ->
  (i <= k)%nat ∧ exists r, rs !! (k - i)%nat = Some r ∧ handle r = h.
Proof.
  revert i. induction rs as [|r rs IH]; intros i; simpl; [discriminate|].
  destruct (Z.eqb_spec (handle r) h) as [Heq|Hne].
  - intros [= <-]. split; [lia|]. exists r. rewrite Nat.sub_diag. auto.
  - intros H. apply IH in H as [Hle (r' & Hr' & Hh)]. split; [lia|].
    exists r'. split; [|assumption].
    replace (k - i)%nat with (S (k - S i)) by lia. exact Hr'.
Qed.

Lemma get_reader_by_handle_from_None (rs : list ring_buffer_reader_t) (h : Z) (i : nat) :
  get_reader_by_handle_from i rs h = None <-> forall r, r ∈ rs -> handle r ≠ h.
Proof.
  revert i. induction rs as [|r rs IH]; intros i; simpl.
  - split; [|reflexivity]. intros _ r Hr. inversion Hr.
  - destruct (Z.eqb_spec (handle r) h) as [Heq|Hne].
    + split; [discriminate|]. intros H. exfalso. apply (H r); [constructor|assumption].
    + rewrite IH. split.
      * intros H r' Hr'. inversion Hr'; subst; auto.
      * intros H r' Hr'. apply H. constructor. assumption.
Qed.

Lemma get_reader_by_handle_Some (mrrb : multi_reader_ring_buffer_t) (h : Z) (k : nat) :
  _mrrb_get_reader_by_handle mrrb h = Some k ->
  exists r, readers mrrb !! k = Some r ∧ handle r = h.
Proof.
  unfold _mrrb_get_reader_by_handle. intros H.
  apply get_reader_by_handle_from_Some in H as [_ (r & Hr & Hh)].
  rewrite Nat.sub_0_r in Hr. eauto.
Qed.

(** ** Arithmetic *)

Lemma u32_small (z : Z) : 0 <= z < 4294967296 -> u32 z = z.
Proof. intros H. unfold u32. apply Z.mod_small. exact H. Qed.

Lemma to_int_small (z : Z) : 0 <= z < 2147483648 -> to_int z = z.
Proof.
  intros H. unfold to_int. destruct (Z.ltb_spec z 2147483648); [reflexivity|lia].
Qed.

(** ** Initialisation *)

(** C10: after a successful [mrrb_init] both global cursors are at the start
    of the supplied buffer, no write is ongoing, and every reader of the
    supplied array is IDLE with both cursors at the buffer start and the full
    flag cleared, whatever state the reader (and the MRRB object) held before
    the call; identity, policy and callbacks of the readers are kept. *)
Theorem mrrb_init_resets (lock_init : Z) (mrrb mrrb' : multi_reader_ring_buffer_t)
    (buf : option (list byte)) (rs : option (list ring_buffer_reader_t)) :
  mrrb_init lock_init mrrb buf rs = (0, mrrb') ->
  write_ptr mrrb' = 0 ∧ reservation_ptr mrrb' = 0 ∧ ongoing_writes mrrb' = 0 ∧
  buf = Some (buffer mrrb') ∧
  exists rs0, rs = Some rs0 ∧ length (readers mrrb') = length rs0 ∧
    forall i r0, rs0 !! i = Some r0 ->
      exists r, readers mrrb' !! i = Some r ∧
        status r = MRRB_READER_STATUS_IDLE ∧
        read_ptr r = 0 ∧ read_complete_ptr r = 0 ∧ is_full r = false ∧
        handle r = handle r0 ∧ overrun_policy r = overrun_policy r0 ∧
        notify_data r = notify_data r0 ∧ abort_data r = abort_data r0.
Proof.
  unfold mrrb_init. destruct buf as [b|], rs as [rs0|]; try discriminate.
  destruct (_ || _); [discriminate|].
  destruct (lock_init <? 0); [discriminate|].
  intros [= <-]. simpl. repeat split. exists rs0. split; [reflexivity|].
  split; [apply length_fmap|].
  intros i r0 Hr0. eexists. split.
  - rewrite list_lookup_fmap, Hr0. reflexivity.
  - simpl. repeat split.
Qed.

Lemma mrrb_init_resets_witness :
  mrrb_init 0 uninit_mrrb (Some (replicate 4 "000"%byte)) (Some [uninit_reader])
    = (0, example_mrrb 4 [uninit_reader]) ∧
  write_ptr (example_mrrb 4 [uninit_reader]) = 0.
Proof.
  split; [reflexivity|].
  exact (proj1 (mrrb_init_resets 0 uninit_mrrb (example_mrrb 4 [uninit_reader])
                  (Some (replicate 4 "000"%byte)) (Some [uninit_reader]) eq_refl)).
Defined.

(** ** Enabling a reader *)




(** ** The space queries *)

(** C7 fails on the code: [mrrb_is_full] looks at ACTIVE readers only. After
    two writes of four bytes into a ring of four bytes with one SKIP reader,
    the second write has overrun the reader: it is ABORTING (enabled), its
    full flag is set and no space remains, yet [mrrb_is_full] returns 0. *)
Theorem mrrb_is_full_ignores_aborting :
  let mrrb := (run example_skip [op_write ["a"; "b"; "c"; "d"]%byte;
                                 op_write ["e"; "f"; "g"; "h"]%byte]).1 in
  mrrb_is_full (Some mrrb) = 0 ∧
  mrrb_get_remaining_space (Some mrrb) = 0 ∧
  exists r, r ∈ readers mrrb ∧ enabled r ∧ is_full r = true ∧
            status r = MRRB_READER_STATUS_ABORTING.
Proof.
  vm_compute. repeat split. eexists. split; [constructor|]. repeat split.
Qed.

Lemma reader_space_code (mrrb : multi_reader_ring_buffer_t) (r : ring_buffer_reader_t) :
  buffer_length mrrb < 4294967296 ->
  in_ring mrrb (reservation_ptr mrrb) ->
  (enabled r -> in_ring mrrb (read_complete_ptr r)) ->
  _mrrb_reader_get_remaining_space mrrb r = reader_space mrrb r.
Proof.
  unfold in_ring, enabled, _mrrb_reader_get_remaining_space, reader_space, forward_distance.
  intros HN Hres Hr. destruct (is_disabled r); [reflexivity|].
  destruct (is_full r); [reflexivity|]. specialize (Hr eq_refl).
  destruct (Z.gtb_spec (read_complete_ptr r) (reservation_ptr mrrb)) as [Hgt|Hle].
  - destruct (Z.eqb_spec (read_complete_ptr r) (reservation_ptr mrrb)); [lia|].
    rewrite u32_small by lia. rewrite Z.mod_small by lia. reflexivity.
  - rewrite u32_small by lia.
    destruct (Z.eqb_spec (read_complete_ptr r) (reservation_ptr mrrb)) as [->|Hne]; [lia|].
    rewrite <- (Z.mod_add _ 1) by lia. rewrite Z.mod_small by lia. lia.
Qed.

Lemma reader_space_le (mrrb : multi_reader_ring_buffer_t) (r : ring_buffer_reader_t) :
  0 < buffer_length mrrb -> 0 <= reader_space mrrb r <= buffer_length mrrb.
Proof.
  intros HN. unfold reader_space, forward_distance.
  destruct (is_disabled r); [lia|]. destruct (is_full r); [lia|].
  destruct (_ =? _); [lia|].
  pose proof (Z.mod_pos_bound (read_complete_ptr r - reservation_ptr mrrb)
                              (buffer_length mrrb) HN). lia.
Qed.

(** The loop of [mrrb_get_remaining_space] and [mrrb_get_overwritable_space]. *)
Lemma foldl_min (f : ring_buffer_reader_t -> Z) (rs : list ring_buffer_reader_t) (n : Z) :
  let s := foldl (fun a r => if f r <? a then f r else a) n rs in
  s <= n ∧ (forall r, r ∈ rs -> s <= f r) ∧ (s = n ∨ exists r, r ∈ rs ∧ s = f r).
Proof.
  revert n. induction rs as [|r rs IH]; intros n; simpl.
  - split; [lia|]. split; [|auto]. intros r Hr. inversion Hr.
  - specialize (IH (if f r <? n then f r else n)). simpl in IH.
    destruct IH as (Hle & Hall & Hex).
    destruct (Z.ltb_spec (f r) n) as [Hlt|Hge].
    + split; [lia|]. split.
      * intros r' Hr'. inversion Hr'; subst; [lia|auto].
      * right. destruct Hex as [->|(r' & Hr' & ->)].
        -- exists r. split; [constructor|reflexivity].
        -- exists r'. split; [constructor; assumption|reflexivity].
    + split; [lia|]. split.
      * intros r' Hr'. inversion Hr'; subst; [lia|auto].
      * destruct Hex as [->|(r' & Hr' & ->)]; [auto|].
        right. exists r'. split; [constructor; assumption|reflexivity].
Qed.

(** C8: on an MRRB with at least one reader whose cursors lie in the ring,
    [mrrb_get_remaining_space] returns the minimum over the readers of the
    reader's space, where a DISABLED or DISABLING reader contributes the
    buffer length, a reader with the full flag set contributes 0 and any
    other reader the forward distance around the ring from the reservation
    pointer to its complete cursor; and [mrrb_is_empty] returns 1 when that
    minimum is the buffer length and 0 otherwise. *)
Theorem mrrb_get_remaining_space_is_min (mrrb : multi_reader_ring_buffer_t) :
  buffer_length mrrb < 4294967296 ->
  readers mrrb ≠ [] ->
  in_ring mrrb (reservation_ptr mrrb) ->
  (forall r, r ∈ readers mrrb -> enabled r -> in_ring mrrb (read_complete_ptr r)) ->
  is_min_over_readers mrrb (reader_space mrrb) (mrrb_get_remaining_space (Some mrrb)) ∧
  mrrb_is_empty (Some mrrb) =
    (if mrrb_get_remaining_space (Some mrrb) =? buffer_length mrrb then 1 else 0).
Proof.
  intros HN Hne Hres Hrs. split; [|reflexivity].
  assert (Hpos : 0 < buffer_length mrrb) by (unfold in_ring in Hres; lia).
  unfold is_min_over_readers, mrrb_get_remaining_space.
  destruct (foldl_min (_mrrb_reader_get_remaining_space mrrb) (readers mrrb)
                      (buffer_length mrrb)) as (Hle & Hall & Hex).
  set (s := foldl _ _ _) in *.
  assert (Heq : forall r, r ∈ readers mrrb ->
                  _mrrb_reader_get_remaining_space mrrb r = reader_space mrrb r)
    by (intros r Hr; apply reader_space_code; auto).
  split.
  - intros r Hr. rewrite <- Heq by assumption. auto.
  - destruct Hex as [Hs|(r & Hr & Hs)].
    + destruct (readers mrrb) as [|r rs] eqn:E; [congruence|].
      exists r. assert (Hin : r ∈ r :: rs) by constructor. split; [assumption|].
      pose proof (Hall r Hin) as H1. rewrite Heq in H1 by assumption.
      pose proof (reader_space_le mrrb r Hpos). lia.
    + exists r. split; [assumption|]. rewrite <- Heq by assumption. exact Hs.
Qed.

Lemma mrrb_get_remaining_space_is_min_witness :
  let mrrb := (run example_two_blocking [op_write ["a"; "b"; "c"]%byte;
                                         op_read_complete 1]).1 in
  is_min_over_readers mrrb (reader_space mrrb) (mrrb_get_remaining_space (Some mrrb)) ∧
  mrrb_get_remaining_space (Some mrrb) = 1 ∧ mrrb_is_empty (Some mrrb) = 0.
Proof.
  split; [|split; reflexivity].
  refine (proj1 (mrrb_get_remaining_space_is_min _ _ _ _ _)).
  - reflexivity.
  - discriminate.
  - split; [discriminate|reflexivity].
  - intros r Hr _. vm_compute in Hr.
    repeat (apply elem_of_cons in Hr as [->|Hr]; [split; [discriminate|reflexivity]|]).
    inversion Hr.
Defined.

(** ** Overrun clearing *)


Lemma add_mod_linear (n ptr len : Z) :
  0 <= ptr < n -> 0 <= len <= n ->
  (ptr + len) mod n = if ptr + len <? n then ptr + len else ptr + len - n.
Proof.
  intros Hp Hl. destruct (Z.ltb_spec (ptr + len) n).
  - apply Z.mod_small. lia.
  - rewrite <- (Z.mod_add _ (-1)) by lia. rewrite Z.mod_small by lia. lia.
Qed.

Lemma advance_pointer_mod (mrrb : multi_reader_ring_buffer_t) (ptr len : Z) :
  buffer_length mrrb < 4294967296 ->
  in_ring mrrb ptr -> 0 <= len <= buffer_length mrrb ->
  _mrrb_advance_pointer mrrb ptr len = (ptr + len) mod buffer_length mrrb.
Proof.
  unfold in_ring, _mrrb_advance_pointer. intros HN Hp Hl.
  rewrite add_mod_linear by assumption. rewrite !u32_small by lia.
  destruct (Z.ltb_spec ptr (buffer_length mrrb - len)),
           (Z.ltb_spec (ptr + len) (buffer_length mrrb)); lia.
Qed.

Lemma advance_pointer_in_ring (mrrb : multi_reader_ring_buffer_t) (ptr len : Z) :
  buffer_length mrrb < 4294967296 ->
  in_ring mrrb ptr -> 0 <= len <= buffer_length mrrb ->
  in_ring mrrb (_mrrb_advance_pointer mrrb ptr len).
Proof.
  intros HN Hp Hl. rewrite advance_pointer_mod by assumption.
  unfold in_ring in *. apply Z.mod_pos_bound. lia.
Qed.

Lemma clear_overrun_space_fields (mrrb : multi_reader_ring_buffer_t) (requested : Z)
    (flags : list Z) :
  let mrrb' := (_mrrb_clear_overrun_space mrrb requested flags).1.1 in
  buffer mrrb' = buffer mrrb ∧ write_ptr mrrb' = write_ptr mrrb ∧
  reservation_ptr mrrb' = reservation_ptr mrrb ∧ ongoing_writes mrrb' = ongoing_writes mrrb.
Proof.
  unfold _mrrb_clear_overrun_space.
  destruct (for_readers _ _ _ _) as [rs [fl cs]]. simpl. auto.
Qed.

Lemma clear_overrun_space_lookup (mrrb : multi_reader_ring_buffer_t) (requested : Z)
    (flags : list Z) (k : nat) :
  readers (_mrrb_clear_overrun_space mrrb requested flags).1.1 !! k
  = cleared_reader mrrb requested <$> readers mrrb !! k.
Proof.
  unfold _mrrb_clear_overrun_space.
  pose proof (for_readers_lookup (clear_overrun_body mrrb requested)
                (fun _ => cleared_reader mrrb requested) (readers mrrb) 0
                (flags, buffer_length mrrb) k) as H.
  destruct (for_readers _ _ _ _) as [rs [fl cs]]. simpl in *. apply H.
  intros j r a. unfold clear_overrun_body, cleared_reader.
  destruct (clear_overrun_reader mrrb requested r) as [[[r' fl'] s']|]; reflexivity.
Qed.

Lemma clear_overrun_space_flag (mrrb : multi_reader_ring_buffer_t) (requested : Z)
    (flags : list Z) (k : nat) (r r' : ring_buffer_reader_t) (s : Z) :
  readers mrrb !! k = Some r ->
  clear_overrun_reader mrrb requested r = Some (r', true, s) ->
  (k / 8 < length flags)%nat ->
  flag_get (_mrrb_clear_overrun_space mrrb requested flags).1.2 k = true.
Proof.
  intros Hr Hc Hk. unfold _mrrb_clear_overrun_space.
  pose proof (for_readers_acc (clear_overrun_body mrrb requested)
    (fun j acc => length acc.1 = length flags ∧
       ((k < j)%nat -> flag_get acc.1 k = true))
    (readers mrrb) 0 (flags, buffer_length mrrb)) as H.
  destruct (for_readers _ _ _ _) as [rs [fl cs]]. cbn [fst snd] in *.
  apply H; clear H.
  - split; [reflexivity|lia].
  - intros j r0 [fl0 cs0] Hr0 [Hlen Hget]. cbn [fst snd Nat.add] in *.
    unfold clear_overrun_body.
    destruct (clear_overrun_reader mrrb requested r0) as [[[r0' [|]] s0]|] eqn:E0;
      cbn [fst snd].
    + rewrite length_flag_set. split; [assumption|]. intros Hlt.
      destruct (decide (k = j)) as [->|Hne].
      * apply flag_get_set_eq. rewrite Hlen. exact Hk.
      * apply flag_get_set_mono. apply Hget. lia.
    + split; [assumption|]. intros Hlt.
      destruct (decide (k = j)) as [->|Hne]; [congruence|]. apply Hget. lia.
    + split; [assumption|]. intros Hlt.
      destruct (decide (k = j)) as [->|Hne]; [congruence|]. apply Hget. lia.
  - eapply lookup_lt_Some. exact Hr.
Qed.




(** ** Lock failures *)

(** X2: when the first lock of an operation is not acquired, the MRRB is left as
    it was and no callback is invoked; [mrrb_write], [mrrb_reader_enable]
    and [mrrb_reader_disable] then return -1. *)
Lemma first_lock_failure_no_change (p : port_t) (mrrb : multi_reader_ring_buffer_t) :
  port_lock p 0 < 0 ->
  (forall data n, (mrrb_write p mrrb data n).1.2 = mrrb ∧ (mrrb_write p mrrb data n).2 = []) ∧
  (forall data n, n ≠ 0 -> port_interrupt_active p = 0 ->
     (mrrb_write p mrrb (Some data) n).1.1 = -1) ∧
  (forall h, mrrb_read_complete p mrrb h = (mrrb, [])) ∧
  (forall h, mrrb_abort_complete p mrrb h = (mrrb, [])) ∧
  (forall i, mrrb_reader_enable p mrrb (Some i) = (-1, mrrb)) ∧
  (forall i, mrrb_reader_disable p mrrb (Some i) = (-1, mrrb, [])).
Proof.
  intros Hlock.
  assert (Hl : (port_lock p 0 <? 0) = true) by (apply Z.ltb_lt; exact Hlock).
  repeat split.
  - unfold mrrb_write. destruct data; [|reflexivity].
    destruct (n =? 0); [reflexivity|]. destruct (_ && _); [reflexivity|].
    rewrite Hl. reflexivity.
  - unfold mrrb_write. destruct data; [|reflexivity].
    destruct (n =? 0); [reflexivity|]. destruct (_ && _); [reflexivity|].
    rewrite Hl. reflexivity.
  - intros data n Hn Hisr. unfold mrrb_write.
    destruct (Z.eqb_spec n 0); [contradiction|]. rewrite Hisr, Hl.
    rewrite andb_false_r. reflexivity.
  - intros h. unfold mrrb_read_complete. destruct (h =? NULL); [reflexivity|].
    destruct (_mrrb_get_reader_by_handle mrrb h); [|reflexivity].
    rewrite Hl. reflexivity.
  - intros h. unfold mrrb_abort_complete. destruct (h =? NULL); [reflexivity|].
    destruct (_mrrb_get_reader_by_handle mrrb h); [|reflexivity].
    rewrite Hl. reflexivity.
  - intros i. unfold mrrb_reader_enable. rewrite Hl. reflexivity.
  - intros i. unfold mrrb_reader_disable. rewrite Hl. reflexivity.
Qed.

(** C2 fails on the code at the second lock of [mrrb_write]: the function
    returns -1 (mrrb.c:514-517) after the reservation phase has moved the
    reservation pointer and counted the write as ongoing, and nothing undoes
    either. On a fresh MRRB of 8 bytes a write of 2 bytes whose second lock
    fails returns -1 and leaves the reservation pointer at 2 and
    [ongoing_writes] at 1; from then on the counter never returns to zero,
    so a later successful write is accepted but published to no reader. *)
Theorem mrrb_write_second_lock_failure :
  (mrrb_write (port_fail_lock 1) example_blocking (Some ["a"; "b"]%byte) 2).1.1 = -1 ∧
  reservation_ptr example_blocking = 0 ∧ ongoing_writes example_blocking = 0 ∧
  reservation_ptr
    (mrrb_write (port_fail_lock 1) example_blocking (Some ["a"; "b"]%byte) 2).1.2 = 2 ∧
  ongoing_writes
    (mrrb_write (port_fail_lock 1) example_blocking (Some ["a"; "b"]%byte) 2).1.2 = 1 ∧
  (mrrb_write port_ok
     (mrrb_write (port_fail_lock 1) example_blocking (Some ["a"; "b"]%byte) 2).1.2
     (Some ["c"]%byte) 1).1.1 = 1 ∧
  (mrrb_write port_ok
     (mrrb_write (port_fail_lock 1) example_blocking (Some ["a"; "b"]%byte) 2).1.2
     (Some ["c"]%byte) 1).2 = [].
Proof. vm_compute. repeat split. Qed.

(** ** The phases of [mrrb_write] *)

Lemma write_fit_fields (mrrb : multi_reader_ring_buffer_t) (n : Z) (fl : list Z) :
  let mrrb' := (write_fit mrrb n fl).1.1.1 in
  buffer mrrb' = buffer mrrb ∧ write_ptr mrrb' = write_ptr mrrb ∧
  reservation_ptr mrrb' = reservation_ptr mrrb ∧ ongoing_writes mrrb' = ongoing_writes mrrb.
Proof.
  unfold write_fit. destruct (_ <=? _); [simpl; auto|].
  destruct (_ >? _); [|simpl; auto].
  pose proof (clear_overrun_space_fields mrrb
                (if n <=? buffer_length mrrb then n else buffer_length mrrb) fl) as H.
  destruct (_mrrb_clear_overrun_space _ _ _) as [[m' fl'] s']. exact H.
Qed.

Lemma write_fit_lookup (mrrb : multi_reader_ring_buffer_t) (n : Z) (fl : list Z) (k : nat) :
  readers (write_fit mrrb n fl).1.1.1 !! k = fitted_reader mrrb n <$> readers mrrb !! k.
Proof.
  unfold write_fit, fitted_reader.
  destruct (_ <=? _); [simpl; destruct (_ !! _); reflexivity|].
  destruct (_ >? _); [|simpl; destruct (_ !! _); reflexivity].
  pose proof (clear_overrun_space_lookup mrrb
                (if n <=? buffer_length mrrb then n else buffer_length mrrb) fl k) as H.
  destruct (_mrrb_clear_overrun_space _ _ _) as [[m' fl'] s']. exact H.
Qed.

Lemma write_fit_flags (mrrb : multi_reader_ring_buffer_t) (n : Z) (fl : list Z) :
  (write_fit mrrb n fl).1.2 = false -> (write_fit mrrb n fl).1.1.2 = fl.
Proof.
  unfold write_fit. destruct (_ <=? _); [reflexivity|].
  destruct (_ >? _); [|reflexivity].
  destruct (_mrrb_clear_overrun_space _ _ _) as [[m' fl'] s']. discriminate.
Qed.

(** The reservation pointer after a reservation of [write_length] bytes. *)
Lemma write_reserve_unfold (mrrb : multi_reader_ring_buffer_t) (n : Z) (fl : list Z) :
  let fit := write_fit mrrb n fl in
  let mrrb1 := fit.1.1.1 in
  let wl := fit.2 in
  let crs := u32 (buffer_length mrrb1 - reservation_ptr mrrb1) in
  let res' := if wl >=? crs then u32 (wl - crs) else reservation_ptr mrrb1 + wl in
  write_reserve mrrb n fl =
    mk_reservation
      (set_ongoing_writes
         (set_readers (set_reservation_ptr mrrb1 res') (flagged_reader res' <$> readers mrrb1))
         (u32 (ongoing_writes mrrb1 + 1)))
      fit.1.1.2 fit.1.2 (reservation_ptr mrrb1)
      (if wl >=? crs then crs else wl)
      (if wl >=? crs then u32 (wl - crs) else 0)
      wl.
Proof.
  unfold write_reserve. destruct (write_fit mrrb n fl) as [[[m1 fl1] ab] wl]. simpl.
  destruct (_ >=? _); reflexivity.
Qed.

Lemma publish_lookup (mrrb : multi_reader_ring_buffer_t) (rs : list ring_buffer_reader_t)
    (fl : list Z) (k : nat) :
  (for_readers (publish_body mrrb) 0 rs fl).1 !! k = published_reader mrrb <$> rs !! k.
Proof.
  apply (for_readers_lookup (publish_body mrrb) (fun _ => published_reader mrrb)).
  intros j r a. unfold published_reader, publish_body. destruct (status r); reflexivity.
Qed.

Lemma publish_flags (mrrb : multi_reader_ring_buffer_t) (rs : list ring_buffer_reader_t)
    (k : nat) (r : ring_buffer_reader_t) :
  rs !! k = Some r ->
  flag_get (for_readers (publish_body mrrb) 0 rs (flags_zero (Z.of_nat (length rs)))).2 k
  = needs_notify r.
Proof.
  intros Hr.
  pose proof (for_readers_acc (publish_body mrrb)
    (fun j fl => length fl = length (flags_zero (Z.of_nat (length rs))) ∧
                 flag_get fl k = (k <? j)%nat && needs_notify r)
    rs 0 (flags_zero (Z.of_nat (length rs)))) as H.
  cbn [Nat.add] in H. destruct H as [_ H].
  - split; [reflexivity|]. rewrite flag_get_zero. reflexivity.
  - intros j r0 fl Hr0 [Hlen Hget]. unfold publish_body, needs_notify in *.
    assert (Hj : (j / 8 < length fl)%nat).
    { rewrite Hlen. apply length_flags_zero. eapply lookup_lt_Some. exact Hr0. }
    destruct (decide (k = j)) as [->|Hne].
    + assert (r0 = r) as -> by congruence.
      replace (j <? S j)%nat with true by (symmetry; apply Nat.ltb_lt; lia).
      rewrite Nat.ltb_irrefl in Hget.
      destruct (status r); cbn [snd]; rewrite ?length_flag_set;
        (split; [assumption|]); rewrite ?flag_get_set_eq by assumption; auto.
    + replace (k <? S j)%nat with (k <? j)%nat
        by (destruct (Nat.ltb_spec k j), (Nat.ltb_spec k (S j)); lia).
      destruct (status r0); cbn [snd]; rewrite ?length_flag_set;
        (split; [assumption|]); rewrite ?flag_get_set_ne by auto; assumption.
  - rewrite H. replace (k <? length rs)%nat with true; [reflexivity|].
    symmetry. apply Nat.ltb_lt. eapply lookup_lt_Some. exact Hr.
Qed.

Lemma notify_lookup (mrrb : multi_reader_ring_buffer_t) (fl : list Z)
    (rs : list ring_buffer_reader_t) (k : nat) :
  (for_readers (notify_body mrrb fl) 0 rs []).1 !! k
  = (fun r => if flag_get fl k then notified_reader mrrb r else r) <$> rs !! k.
Proof.
  apply (for_readers_lookup (notify_body mrrb fl)
           (fun j r => if flag_get fl j then notified_reader mrrb r else r)).
  intros j r a. unfold notify_body. destruct (flag_get fl j); reflexivity.
Qed.

(** Every callback of the notify loop is the notify of a flagged reader, with
    the continuous readable span of that reader as length. *)
Lemma notify_events (mrrb : multi_reader_ring_buffer_t) (fl : list Z)
    (rs : list ring_buffer_reader_t) :
  Forall (fun e => exists k r, rs !! k = Some r ∧ flag_get fl k = true ∧
            e = notify_call k (handle r) (read_complete_ptr r)
                  (_mrrb_reader_get_continuous_readable_space mrrb r)
                  (slice (buffer mrrb) (read_complete_ptr r)
                         (_mrrb_reader_get_continuous_readable_space mrrb r)))
         (for_readers (notify_body mrrb fl) 0 rs []).2.
Proof.
  apply (for_readers_acc (notify_body mrrb fl) (fun _ evs => Forall _ evs)).
  - constructor.
  - intros k r evs Hr IH. cbn [Nat.add]. unfold notify_body.
    destruct (flag_get fl k) eqn:Hf; cbn [snd]; [|assumption].
    apply Forall_app. split; [assumption|]. constructor; [|constructor].
    exists k, r. auto.
Qed.

Lemma delivered_app (i : nat) (a b : list event) :
  delivered i (a ++ b) = delivered i a ++ delivered i b.
Proof. unfold delivered. rewrite fmap_app, concat_app. reflexivity. Qed.

Lemma notify_delivered (mrrb : multi_reader_ring_buffer_t) (fl : list Z)
    (rs : list ring_buffer_reader_t) (i : nat) (r : ring_buffer_reader_t) :
  rs !! i = Some r ->
  delivered i (for_readers (notify_body mrrb fl) 0 rs []).2
  = if flag_get fl i
    then slice (buffer mrrb) (read_complete_ptr r)
               (_mrrb_reader_get_continuous_readable_space mrrb r)
    else [].
Proof.
  intros Hr.
  pose proof (for_readers_acc (notify_body mrrb fl)
    (fun j evs => delivered i evs =
       if (i <? j)%nat && flag_get fl i
       then slice (buffer mrrb) (read_complete_ptr r)
                  (_mrrb_reader_get_continuous_readable_space mrrb r)
       else [])
    rs 0 []) as H.
  cbn [Nat.add] in H. rewrite H.
  - replace (i <? length rs)%nat with true; [reflexivity|].
    symmetry. apply Nat.ltb_lt. eapply lookup_lt_Some. exact Hr.
  - reflexivity.
  - intros k r0 evs Hr0 IH. unfold notify_body.
    destruct (decide (i = k)) as [->|Hne].
    + assert (r0 = r) as -> by congruence.
      replace (k <? S k)%nat with true by (symmetry; apply Nat.ltb_lt; lia).
      rewrite Nat.ltb_irrefl in IH. cbn [andb] in *.
      destruct (flag_get fl k); cbn [snd]; [|assumption].
      rewrite delivered_app, IH. unfold delivered. simpl.
      rewrite Nat.eqb_refl. rewrite app_nil_r. reflexivity.
    + replace (i <? S k)%nat with (i <? k)%nat
        by (destruct (Nat.ltb_spec i k), (Nat.ltb_spec i (S k)); lia).
      destruct (flag_get fl k); cbn [snd]; [|assumption].
      rewrite delivered_app, IH. unfold delivered. simpl.
      replace (k =? i)%nat with false by (symmetry; apply Nat.eqb_neq; auto).
      rewrite app_nil_r. reflexivity.
Qed.

Lemma abort_events (fl : list Z) (rs : list ring_buffer_reader_t) :
  Forall is_abort (for_readers (abort_body fl) 0 rs []).2.
Proof.
  apply (for_readers_acc (abort_body fl) (fun _ evs => Forall is_abort evs)).
  - constructor.
  - intros k r evs Hr IH. unfold abort_body.
    destruct (flag_get fl (0 + k)); cbn [snd]; [|assumption].
    apply Forall_app. split; [assumption|]. constructor; [exact I|constructor].
Qed.

Lemma delivered_aborts (i : nat) (evs : list event) :
  Forall is_abort evs -> delivered i evs = [].
Proof.
  induction 1 as [|e evs He _ IH]; [reflexivity|].
  unfold delivered in *. rewrite fmap_cons. cbn [concat]. rewrite IH.
  destruct e; [contradiction|reflexivity].
Qed.

Lemma continuous_readable_space_ext (m m' : multi_reader_ring_buffer_t)
    (r : ring_buffer_reader_t) :
  length (buffer m) = length (buffer m') -> write_ptr m = write_ptr m' ->
  _mrrb_reader_get_continuous_readable_space m r
  = _mrrb_reader_get_continuous_readable_space m' r.
Proof.
  intros Hb Hw. unfold _mrrb_reader_get_continuous_readable_space, buffer_length.
  rewrite Hb, Hw. reflexivity.
Qed.

Lemma notified_reader_ext (m m' : multi_reader_ring_buffer_t) (r : ring_buffer_reader_t) :
  length (buffer m) = length (buffer m') -> write_ptr m = write_ptr m' ->
  notified_reader m r = notified_reader m' r.
Proof.
  intros Hb Hw. unfold notified_reader.
  rewrite (continuous_readable_space_ext m m') by assumption.
  unfold _mrrb_advance_pointer, buffer_length. rewrite Hb. reflexivity.
Qed.

Lemma for_readers_pair {A : Type}
    (body : nat -> ring_buffer_reader_t -> A -> ring_buffer_reader_t * A)
    (i : nat) (rs : list ring_buffer_reader_t) (a : A) :
  for_readers body i rs a = ((for_readers body i rs a).1, (for_readers body i rs a).2).
Proof. destruct (for_readers body i rs a). reflexivity. Qed.

(** [mrrb_write] on the port on which nothing fails, when no other write is
    ongoing: the value returned, the MRRB at the end and the callbacks. *)
Lemma mrrb_write_unfold (m : multi_reader_ring_buffer_t) (data : list byte) (n : Z) :
  n ≠ 0 -> ongoing_writes m = 0 ->
  let fit := write_fit m n (flags_zero (num_readers m)) in
  let wl := fit.2 in
  let crs := u32 (buffer_length m - reservation_ptr m) in
  let res' := if wl >=? crs then u32 (wl - crs) else reservation_ptr m + wl in
  let cwl := if wl >=? crs then crs else wl in
  let swl := if wl >=? crs then u32 (wl - crs) else 0 in
  let buf' := buffer (write_copy m (reservation_ptr m) data cwl swl) in
  let rs2 := flagged_reader res' <$> readers fit.1.1.1 in
  let m1 := mk_mrrb buf' rs2 (write_ptr m) res' 0 in
  let pub := for_readers (publish_body m1) 0 rs2
               (if fit.1.2 then flags_zero (num_readers m) else fit.1.1.2) in
  let m3 := mk_mrrb buf' pub.1 res' res' 0 in
  let ntf := for_readers (notify_body m3 pub.2) 0 pub.1 [] in
  mrrb_write port_ok m (Some data) n =
    (to_int wl, set_readers m3 ntf.1,
     (if fit.1.2 then (for_readers (abort_body fit.1.1.2) 0 rs2 []).2 else []) ++ ntf.2).
Proof.
  intros Hn Hong. cbv zeta.
  unfold mrrb_write, port_ok.
  cbn [allow_write_from_isr port_interrupt_active port_lock port_unlock].
  destruct (Z.eqb_spec n 0) as [|_]; [contradiction|].
  change (0 <? 0) with false. cbn [negb andb Z.eqb].
  rewrite write_reserve_unfold. cbv zeta.
  cbn [rsv_mrrb rsv_flags rsv_abort_readers rsv_write_pointer rsv_continuous_write_length
       rsv_spill_write_length rsv_write_length].
  destruct (write_fit_fields m n (flags_zero (num_readers m))) as (Hb & Hw & Hr & Ho).
  unfold buffer_length in *. rewrite Hb, Hr, Ho, Hong.
  unfold write_publish, write_copy, set_ongoing_writes, set_readers, set_reservation_ptr,
    set_buffer, set_write_ptr.
  cbn [buffer readers write_ptr reservation_ptr ongoing_writes].
  rewrite Hb, Hw. change (u32 (u32 (0 + 1) - 1)) with 0. cbn [Z.eqb].
  rewrite (for_readers_pair (publish_body _)).
  rewrite (for_readers_pair (notify_body _ _)).
  reflexivity.
Qed.

(** ** Bounds *)

Lemma u32_nonneg (z : Z) : 0 <= u32 z.
Proof. unfold u32. apply Z.mod_pos_bound. lia. Qed.

Lemma remaining_space_nonneg (m : multi_reader_ring_buffer_t) (r : ring_buffer_reader_t) :
  0 <= _mrrb_reader_get_remaining_space m r.
Proof.
  unfold _mrrb_reader_get_remaining_space, buffer_length.
  destruct (is_disabled r); [lia|]. destruct (is_full r); [lia|].
  destruct (_ >? _); apply u32_nonneg.
Qed.

Lemma get_remaining_space_bounds (m : multi_reader_ring_buffer_t) :
  0 <= mrrb_get_remaining_space (Some m) <= buffer_length m.
Proof.
  unfold mrrb_get_remaining_space.
  destruct (foldl_min (_mrrb_reader_get_remaining_space m) (readers m) (buffer_length m))
    as (Hle & _ & [Heq|(r & _ & Heq)]); cbv zeta in *; rewrite Heq in *.
  - unfold buffer_length. lia.
  - split; [apply remaining_space_nonneg|exact Hle].
Qed.

Lemma get_remaining_space_le (m : multi_reader_ring_buffer_t) (k : nat)
    (r : ring_buffer_reader_t) :
  readers m !! k = Some r ->
  mrrb_get_remaining_space (Some m) <= _mrrb_reader_get_remaining_space m r.
Proof.
  intros Hr. unfold mrrb_get_remaining_space.
  destruct (foldl_min (_mrrb_reader_get_remaining_space m) (readers m) (buffer_length m))
    as (_ & Hall & _).
  apply Hall. eapply list_elem_of_lookup_2. exact Hr.
Qed.

Lemma continuous_readable_space_linear (m : multi_reader_ring_buffer_t)
    (r : ring_buffer_reader_t) :
  buffer_length m < 4294967296 ->
  in_ring m (write_ptr m) -> in_ring m (read_complete_ptr r) ->
  _mrrb_reader_get_continuous_readable_space m r =
    if (read_complete_ptr r >? write_ptr m) || is_full r
    then buffer_length m - read_complete_ptr r
    else write_ptr m - read_complete_ptr r.
Proof.
  unfold in_ring, _mrrb_reader_get_continuous_readable_space. intros HN Hw Hr.
  destruct (Z.gtb_spec (read_complete_ptr r) (write_ptr m)); simpl.
  - apply u32_small. lia.
  - destruct (is_full r); apply u32_small; lia.
Qed.

Lemma clear_overrun_reader_space (m : multi_reader_ring_buffer_t) (requested : Z)
    (r r' : ring_buffer_reader_t) (f : bool) (s : Z) :
  0 <= requested ->
  clear_overrun_reader m requested r = Some (r', f, s) -> 0 <= s.
Proof.
  intros Hreq. unfold clear_overrun_reader.
  pose proof (remaining_space_nonneg m r).
  assert (0 <= buffer_length m) by (unfold buffer_length; lia).
  destruct (status r); try discriminate;
    (destruct (_ <? requested); [|intros [= <- <- <-]; assumption]);
    destruct (overrun_policy r); try (intros [= <- <- <-]; assumption);
    try (destruct (negb _); intros [= <- <- <-]; assumption);
    cbv zeta;
    match goal with
    | |- context [_mrrb_reader_get_remaining_space m ?r1 <? requested] =>
        pose proof (remaining_space_nonneg m r1);
        destruct (_mrrb_reader_get_remaining_space m r1 <? requested)
    end; intros [= <- <- <-]; assumption.
Qed.

Lemma clear_overrun_space_bounds (m : multi_reader_ring_buffer_t) (requested : Z)
    (fl : list Z) :
  0 <= requested ->
  0 <= (_mrrb_clear_overrun_space m requested fl).2 <= buffer_length m.
Proof.
  intros Hreq. unfold _mrrb_clear_overrun_space.
  pose proof (for_readers_acc (clear_overrun_body m requested)
    (fun _ acc => 0 <= acc.2 <= buffer_length m)
    (readers m) 0 (fl, buffer_length m)) as H.
  destruct (for_readers _ _ _ _) as [rs [fl' cs]]. cbn [fst snd] in *.
  apply H.
  - unfold buffer_length. lia.
  - intros k r [fl0 cs0] _ IH. cbn [fst snd] in *. unfold clear_overrun_body.
    destruct (clear_overrun_reader m requested r) as [[[r' f] s]|] eqn:E; cbn [fst snd];
      [|assumption].
    pose proof (clear_overrun_reader_space _ _ _ _ _ _ Hreq E).
    destruct (Z.ltb_spec s cs0); lia.
Qed.

(** The space that clearing reports is at most what any reader that took part
    in the loop reported. *)
Lemma clear_overrun_space_le (m : multi_reader_ring_buffer_t) (requested : Z)
    (fl : list Z) (k : nat) (r r' : ring_buffer_reader_t) (f : bool) (s : Z) :
  readers m !! k = Some r ->
  clear_overrun_reader m requested r = Some (r', f, s) ->
  (_mrrb_clear_overrun_space m requested fl).2 <= s.
Proof.
  intros Hr Hc. unfold _mrrb_clear_overrun_space.
  pose proof (for_readers_acc (clear_overrun_body m requested)
    (fun j acc => (k < j)%nat -> acc.2 <= s)
    (readers m) 0 (fl, buffer_length m)) as H.
  destruct (for_readers _ _ _ _) as [rs [fl' cs]]. cbn [fst snd Nat.add] in *.
  apply H.
  - lia.
  - intros j r0 [fl0 cs0] Hr0 IH Hlt. cbn [fst snd] in *. unfold clear_overrun_body.
    destruct (decide (k = j)) as [->|Hne].
    + assert (r0 = r) as -> by congruence. rewrite Hc. cbn [fst snd].
      destruct (Z.ltb_spec s cs0); lia.
    + specialize (IH ltac:(lia)).
      destruct (clear_overrun_reader m requested r0) as [[[r0' f0] s0]|]; cbn [fst snd];
        [|assumption].
      destruct (Z.ltb_spec s0 cs0); lia.
  - eapply lookup_lt_Some. exact Hr.
Qed.

Lemma write_fit_length (m : multi_reader_ring_buffer_t) (n : Z) (fl : list Z) :
  0 < n ->
  0 <= (write_fit m n fl).2 <= n ∧ (write_fit m n fl).2 <= buffer_length m.
Proof.
  intros Hn. unfold write_fit.
  pose proof (get_remaining_space_bounds m) as Hrem.
  destruct (Z.leb_spec n (mrrb_get_remaining_space (Some m))); [cbn [fst snd]; lia|].
  destruct (_ >? _); [|cbn [fst snd]; lia].
  set (req := if n <=? buffer_length m then n else buffer_length m).
  assert (Hreq : 0 <= req) by (subst req; destruct (_ <=? _); lia).
  pose proof (clear_overrun_space_bounds m req fl Hreq) as Hcs.
  destruct (_mrrb_clear_overrun_space m req fl) as [[m' fl'] cs]. cbn [fst snd] in *.
  destruct (Z.leb_spec n cs); lia.
Qed.

(** ** The ring after a write *)

Lemma length_memcpy (dst src : list byte) (off n : Z) :
  0 <= off -> 0 <= n -> off + n <= Z.of_nat (length dst) -> n <= Z.of_nat (length src) ->
  length (memcpy dst off src n) = length dst.
Proof.
  intros Ho Hn Hd Hs. unfold memcpy.
  rewrite !length_app, !length_take, length_drop. lia.
Qed.

Lemma length_write_copy (m : multi_reader_ring_buffer_t) (wp : Z) (data : list byte)
    (cwl swl : Z) :
  0 <= wp -> 0 <= cwl -> 0 <= swl ->
  wp + cwl <= buffer_length m -> swl <= buffer_length m ->
  cwl + swl <= Z.of_nat (length data) ->
  length (buffer (write_copy m wp data cwl swl)) = length (buffer m).
Proof.
  unfold buffer_length, write_copy. intros. cbn [buffer set_buffer].
  destruct (swl >? 0).
  - rewrite length_memcpy.
    + destruct (cwl >? 0); [apply length_memcpy; lia|reflexivity].
    + lia.
    + lia.
    + destruct (cwl >? 0); [rewrite length_memcpy by lia|]; lia.
    + rewrite length_drop. lia.
  - destruct (cwl >? 0); [apply length_memcpy; lia|reflexivity].
Qed.

(** ** Quiescent states are kept by every call *)

Lemma cleared_reader_ring (m : multi_reader_ring_buffer_t) (requested : Z)
    (r : ring_buffer_reader_t) :
  buffer_length m < 4294967296 ->
  0 < requested <= buffer_length m ->
  in_ring m (read_ptr r) -> in_ring m (read_complete_ptr r) ->
  in_ring m (read_ptr (cleared_reader m requested r)) ∧
  in_ring m (read_complete_ptr (cleared_reader m requested r)) ∧
  (status (cleared_reader m requested r) = MRRB_READER_STATUS_IDLE ->
   cleared_reader m requested r = r).
Proof.
  intros HN Hreq Hrp Hrcp. unfold cleared_reader, clear_overrun_reader.
  assert (Hadv : forall r1, in_ring m (read_complete_ptr r1) ->
            _mrrb_reader_get_remaining_space m r1 < requested ->
            in_ring m (_mrrb_advance_pointer m (read_complete_ptr r1)
                         (u32 (requested - _mrrb_reader_get_remaining_space m r1)))).
  { intros r1 Hr1 Hlt. pose proof (remaining_space_nonneg m r1).
    rewrite u32_small by lia. apply advance_pointer_in_ring; [assumption..|lia]. }
  destruct (status r) eqn:Hst; cbn match; try (split; [|split]; auto; fail);
    (destruct (Z.ltb_spec (_mrrb_reader_get_remaining_space m r) requested);
     [|split; [|split]; auto; fail]);
    (destruct (overrun_policy r); [split; [|split]; auto; fail| |]).
  all: try (destruct (negb _); cbn; rewrite ?Hst;
            (split; [|split]; [assumption|assumption|discriminate])).
  - cbv zeta.
    destruct (Z.ltb_spec
                (_mrrb_reader_get_remaining_space m
                   (set_is_full
                      (set_read_complete_ptr (set_status r MRRB_READER_STATUS_ABORTING)
                                             (read_ptr r)) false))
                requested) as [Hlt|Hge];
      [pose proof (Hadv (set_is_full
                           (set_read_complete_ptr
                              (set_status r MRRB_READER_STATUS_ABORTING) (read_ptr r))
                           false) Hrp Hlt) as Ha|]; cbn in *;
      (split; [|split]; [assumption|auto|discriminate]).
  - cbv zeta.
    destruct (Z.ltb_spec (_mrrb_reader_get_remaining_space m r) requested) as [Hlt|Hge];
      [pose proof (Hadv _ Hrcp Hlt) as Ha|]; cbn in *; rewrite ?Hst;
      (split; [|split]; [assumption|auto|discriminate]).
  - cbv zeta.
    destruct (Z.ltb_spec (_mrrb_reader_get_remaining_space m r) requested) as [Hlt|Hge];
      [pose proof (Hadv _ Hrcp Hlt) as Ha|]; cbn in *; rewrite ?Hst;
      (split; [|split]; [assumption|auto|discriminate]).
Qed.

Lemma fitted_reader_ring (m : multi_reader_ring_buffer_t) (n : Z) (r : ring_buffer_reader_t) :
  buffer_length m < 4294967296 -> 0 < n -> 0 < buffer_length m ->
  in_ring m (read_ptr r) -> in_ring m (read_complete_ptr r) ->
  in_ring m (read_ptr (fitted_reader m n r)) ∧
  in_ring m (read_complete_ptr (fitted_reader m n r)) ∧
  (status (fitted_reader m n r) = MRRB_READER_STATUS_IDLE -> fitted_reader m n r = r).
Proof.
  intros HN Hn Hpos Hrp Hrcp. unfold fitted_reader.
  destruct (_ <=? _); [auto|]. destruct (_ >? _); [|auto].
  apply cleared_reader_ring; try assumption.
  destruct (Z.leb_spec n (buffer_length m)); lia.
Qed.

(** A successful [mrrb_init] was given a buffer of at least one byte, and
    leaves the cursors of the MRRB and of every reader at the buffer start. *)
Lemma mrrb_init_success (lock_init : Z) (m0 m : multi_reader_ring_buffer_t)
    (buf : option (list byte)) (rs : option (list ring_buffer_reader_t)) :
  mrrb_init lock_init m0 buf rs = (0, m) ->
  0 < buffer_length m ∧
  write_ptr m = 0 ∧ reservation_ptr m = 0 ∧ ongoing_writes m = 0 ∧
  forall k r, readers m !! k = Some r ->
    status r = MRRB_READER_STATUS_IDLE ∧ read_ptr r = 0 ∧ read_complete_ptr r = 0 ∧
    is_full r = false.
Proof.
  unfold mrrb_init. destruct buf as [b|], rs as [rs0|]; try discriminate.
  destruct (Z.eqb_spec (Z.of_nat (length b)) 0) as [|Hb]; [discriminate|].
  destruct (_ =? 0); [discriminate|]. cbn [orb].
  destruct (lock_init <? 0); [discriminate|].
  intros [= <-]. unfold buffer_length. cbn. repeat split; try lia.
  all: rewrite list_lookup_fmap in H; destruct (rs0 !! k); [|discriminate];
    injection H as <-; reflexivity.
Qed.

Lemma quiescent_init (lock_init : Z) (m0 m : multi_reader_ring_buffer_t)
    (buf : option (list byte)) (rs : option (list ring_buffer_reader_t)) :
  mrrb_init lock_init m0 buf rs = (0, m) ->
  buffer_length m < 4294967296 ->
  quiescent m.
Proof.
  intros Hinit HN.
  destruct (mrrb_init_success _ _ _ _ _ Hinit) as (Hpos & Hw & Hr & Ho & Hrs).
  unfold quiescent, in_ring. rewrite Hw, Hr, Ho. repeat split; try lia.
  all: intros; destruct (Hrs _ _ H) as (_ & Hrp & Hrcp & _); lia.
Qed.

Lemma published_reader_ext (m m' : multi_reader_ring_buffer_t) (r : ring_buffer_reader_t) :
  write_ptr m = write_ptr m' -> published_reader m r = published_reader m' r.
Proof.
  intros Hw. unfold published_reader, publish_body. rewrite Hw. reflexivity.
Qed.

Lemma length_fitted (m : multi_reader_ring_buffer_t) (n : Z) (fl : list Z) :
  length (readers (write_fit m n fl).1.1.1) = length (readers m).
Proof.
  unfold write_fit. destruct (_ <=? _); [reflexivity|]. destruct (_ >? _); [|reflexivity].
  unfold _mrrb_clear_overrun_space.
  pose proof (for_readers_length
                (clear_overrun_body m (if n <=? buffer_length m then n else buffer_length m))
                (readers m) 0 (fl, buffer_length m)) as H.
  destruct (for_readers _ _ _ _) as [rs [fl' cs]]. exact H.
Qed.

(** The effect of a write that is the only ongoing one, on the port on which
    nothing fails: what it returns, the MRRB it leaves, reader by reader, and
    the callbacks it invokes. *)
Lemma mrrb_write_effect (m : multi_reader_ring_buffer_t) (data : list byte) (n : Z) :
  n ≠ 0 -> ongoing_writes m = 0 ->
  let wl := (write_fit m n (flags_zero (num_readers m))).2 in
  let crs := u32 (buffer_length m - reservation_ptr m) in
  let res' := if wl >=? crs then u32 (wl - crs) else reservation_ptr m + wl in
  let cwl := if wl >=? crs then crs else wl in
  let swl := if wl >=? crs then u32 (wl - crs) else 0 in
  let w := mrrb_write port_ok m (Some data) n in
  w.1.1 = to_int wl ∧
  buffer w.1.2 = buffer (write_copy m (reservation_ptr m) data cwl swl) ∧
  write_ptr w.1.2 = res' ∧ reservation_ptr w.1.2 = res' ∧ ongoing_writes w.1.2 = 0 ∧
  (forall k, readers w.1.2 !! k = written_reader m n res' w.1.2 <$> readers m !! k) ∧
  exists aborts notifies, w.2 = aborts ++ notifies ∧ Forall is_abort aborts ∧
    Forall (fun e => exists k r0, readers m !! k = Some r0 ∧
              needs_notify (flagged_reader res' (fitted_reader m n r0)) = true ∧
              let r3 := published_reader m (flagged_reader res' (fitted_reader m n r0)) in
              e = notify_call k (handle r3) (read_complete_ptr r3)
                    (_mrrb_reader_get_continuous_readable_space w.1.2 r3)
                    (slice (buffer w.1.2) (read_complete_ptr r3)
                           (_mrrb_reader_get_continuous_readable_space w.1.2 r3)))
           notifies ∧
    (forall i r0, readers m !! i = Some r0 ->
       let r2 := flagged_reader res' (fitted_reader m n r0) in
       let r3 := published_reader m r2 in
       delivered i notifies =
         if needs_notify r2
         then slice (buffer w.1.2) (read_complete_ptr r3)
                    (_mrrb_reader_get_continuous_readable_space w.1.2 r3)
         else []).
Proof.
  intros Hn Hong. cbv zeta. rewrite mrrb_write_unfold by assumption. cbv zeta.
  cbn [fst snd].
  set (fit := write_fit m n (flags_zero (num_readers m))).
  set (wl := fit.2).
  set (crs := u32 (buffer_length m - reservation_ptr m)).
  set (res' := if wl >=? crs then u32 (wl - crs) else reservation_ptr m + wl).
  set (buf' := buffer (write_copy m (reservation_ptr m) data
                         (if wl >=? crs then crs else wl)
                         (if wl >=? crs then u32 (wl - crs) else 0))).
  set (rs2 := flagged_reader res' <$> readers fit.1.1.1).
  assert (Hfl : (if fit.1.2 then flags_zero (num_readers m) else fit.1.1.2)
                = flags_zero (Z.of_nat (length rs2))).
  { subst rs2. rewrite length_fmap. subst fit. rewrite length_fitted.
    destruct (write_fit m n (flags_zero (num_readers m))).1.2 eqn:E; [reflexivity|].
    apply write_fit_flags. exact E. }
  rewrite Hfl.
  set (m1 := mk_mrrb buf' rs2 (write_ptr m) res' 0).
  set (pub := for_readers (publish_body m1) 0 rs2 (flags_zero (Z.of_nat (length rs2)))).
  set (m3 := mk_mrrb buf' pub.1 res' res' 0).
  set (ntf := for_readers (notify_body m3 pub.2) 0 pub.1 []).
  assert (Hrs2 : forall k, rs2 !! k = (fun r0 => flagged_reader res' (fitted_reader m n r0))
                                       <$> readers m !! k).
  { intros k. subst rs2. rewrite list_lookup_fmap. subst fit.
    rewrite write_fit_lookup. destruct (readers m !! k); reflexivity. }
  assert (Hpub : forall k, pub.1 !! k =
            (fun r0 => published_reader m (flagged_reader res' (fitted_reader m n r0)))
              <$> readers m !! k).
  { intros k. subst pub. rewrite publish_lookup, Hrs2.
    destruct (readers m !! k); [|reflexivity]. cbn.
    rewrite (published_reader_ext m1 m) by reflexivity. reflexivity. }
  assert (Hflag : forall k r0, readers m !! k = Some r0 ->
            flag_get pub.2 k = needs_notify (flagged_reader res' (fitted_reader m n r0))).
  { intros k r0 Hr0. subst pub. apply publish_flags. rewrite Hrs2, Hr0. reflexivity. }
  repeat split.
  - intros k. unfold set_readers. cbn [readers]. subst ntf. rewrite notify_lookup, Hpub.
    destruct (readers m !! k) as [r0|] eqn:Hr0; [|reflexivity]. cbn.
    rewrite (Hflag _ _ Hr0). unfold written_reader.
    destruct (needs_notify _); reflexivity.
  - eexists _, _. split; [reflexivity|]. split.
    { destruct fit.1.2; [apply abort_events|constructor]. }
    split.
    + subst ntf. eapply Forall_impl; [apply notify_events|].
      intros e (k & r3 & Hr3 & Hf & ->). cbn beta in *.
      rewrite Hpub in Hr3. destruct (readers m !! k) as [r0|] eqn:Hr0; [|discriminate].
      cbn [fmap option_fmap option_map] in Hr3. injection Hr3 as <-. exists k, r0. split; [exact Hr0|].
      split; [rewrite <- (Hflag _ _ Hr0); exact Hf|]. reflexivity.
    + intros i r0 Hr0. subst ntf.
      rewrite (notify_delivered m3 pub.2 pub.1 i
                 (published_reader m (flagged_reader res' (fitted_reader m n r0))))
        by (rewrite Hpub, Hr0; reflexivity).
      rewrite (Hflag _ _ Hr0). reflexivity.
Qed.

Lemma in_ring_ext (m m' : multi_reader_ring_buffer_t) (z : Z) :
  buffer_length m' = buffer_length m -> in_ring m z -> in_ring m' z.
Proof. unfold in_ring. intros ->. auto. Qed.

(** One reader across a write, from a quiescent state. *)
Lemma written_reader_quiescent (m fin : multi_reader_ring_buffer_t) (n res' : Z)
    (r0 : ring_buffer_reader_t) :
  buffer_length m < 4294967296 -> 0 < n ->
  in_ring m (write_ptr m) -> in_ring m res' ->
  buffer_length fin = buffer_length m -> write_ptr fin = res' ->
  in_ring m (read_ptr r0) -> in_ring m (read_complete_ptr r0) ->
  (status r0 = MRRB_READER_STATUS_IDLE -> read_complete_ptr r0 = write_ptr m) ->
  let r2 := flagged_reader res' (fitted_reader m n r0) in
  let r := written_reader m n res' fin r0 in
  in_ring fin (read_ptr r) ∧ in_ring fin (read_complete_ptr r) ∧
  status r ≠ MRRB_READER_STATUS_IDLE ∧
  (needs_notify r2 = true ->
   1 <= _mrrb_reader_get_continuous_readable_space fin (published_reader m r2)).
Proof.
  intros HN Hn Hwp Hres Hlen Hfw Hrp Hrcp Hidle. cbv zeta. unfold written_reader.
  assert (Hpos : 0 < buffer_length m) by (unfold in_ring in Hwp; lia).
  destruct (fitted_reader_ring m n r0 HN Hn Hpos Hrp Hrcp) as (Hrp1 & Hrcp1 & Hid1).
  set (r1 := fitted_reader m n r0) in *.
  assert (Hrcp1' : status r1 = MRRB_READER_STATUS_IDLE -> read_complete_ptr r1 = write_ptr m).
  { intros Hst. pose proof (Hid1 Hst) as E. rewrite E in Hst |- *. exact (Hidle Hst). }
  clearbody r1. clear Hid1 Hidle Hrp Hrcp.
  assert (Hcont : forall r3, in_ring m (read_complete_ptr r3) ->
            is_full r3 = (res' =? read_complete_ptr r3) ->
            1 <= _mrrb_reader_get_continuous_readable_space fin r3 <= buffer_length m).
  { intros r3 Hr3 Hf3.
    rewrite continuous_readable_space_linear;
      [|lia|rewrite Hfw; eapply in_ring_ext; eauto|eapply in_ring_ext; eauto].
    rewrite Hfw, Hlen, Hf3. unfold in_ring in *.
    destruct (Z.gtb_spec (read_complete_ptr r3) res'),
             (Z.eqb_spec res' (read_complete_ptr r3)); cbn [orb]; lia. }
  assert (Hnot : forall r3, in_ring m (read_ptr r3) -> in_ring m (read_complete_ptr r3) ->
            is_full r3 = (res' =? read_complete_ptr r3) ->
            in_ring fin (read_ptr (notified_reader fin r3)) ∧
            in_ring fin (read_complete_ptr (notified_reader fin r3))).
  { intros r3 Hp3 Hr3 Hf3. unfold notified_reader. cbn [read_ptr read_complete_ptr set_read_ptr].
    split; [|eapply in_ring_ext; eauto].
    apply advance_pointer_in_ring; [lia|eapply in_ring_ext; eauto|].
    rewrite Hlen. pose proof (Hcont r3 Hr3 Hf3). lia. }
  unfold flagged_reader, needs_notify, published_reader, publish_body,
    is_disabled.
  destruct (status r1) eqn:Hst;
    repeat (progress (cbn [fst status set_is_full set_status]; rewrite ?Hst)).
  all: try (split; [eapply in_ring_ext; eauto|split; [eapply in_ring_ext; eauto|
            split; [discriminate|discriminate]]]).
  - (* IDLE *)
    specialize (Hrcp1' eq_refl).
    match goal with |- context [notified_reader fin ?r3] =>
      destruct (Hnot r3) as [H1 H2]; [assumption|assumption|cbn; rewrite Hrcp1'; reflexivity|];
      split; [exact H1|split; [exact H2|split; [discriminate|]]];
      intros _; apply (Hcont r3); [assumption|cbn; rewrite Hrcp1'; reflexivity]
    end.
  - (* ABORTED *)
    match goal with |- context [notified_reader fin ?r3] =>
      destruct (Hnot r3) as [H1 H2]; [assumption|assumption|reflexivity|];
      split; [exact H1|split; [exact H2|split; [discriminate|]]];
      intros _; apply (Hcont r3); [assumption|reflexivity]
    end.
Qed.

(** The reservation pointer after a reservation of [wl] bytes and the lengths
    of the two copies. *)
Lemma write_window (m : multi_reader_ring_buffer_t) (wl : Z) :
  buffer_length m < 4294967296 -> in_ring m (reservation_ptr m) ->
  0 <= wl <= buffer_length m ->
  let crs := u32 (buffer_length m - reservation_ptr m) in
  let res' := if wl >=? crs then u32 (wl - crs) else reservation_ptr m + wl in
  let cwl := if wl >=? crs then crs else wl in
  let swl := if wl >=? crs then u32 (wl - crs) else 0 in
  crs = buffer_length m - reservation_ptr m ∧
  res' = (if reservation_ptr m + wl <? buffer_length m
          then reservation_ptr m + wl else reservation_ptr m + wl - buffer_length m) ∧
  in_ring m res' ∧ 0 <= cwl ∧ 0 <= swl ∧ cwl + swl = wl ∧
  cwl = (if reservation_ptr m + wl <? buffer_length m
         then wl else buffer_length m - reservation_ptr m).
Proof.
  unfold in_ring. intros HN Hres Hwl. cbv zeta.
  rewrite (u32_small (buffer_length m - reservation_ptr m)) by lia.
  destruct (Z.geb_spec wl (buffer_length m - reservation_ptr m)),
           (Z.ltb_spec (reservation_ptr m + wl) (buffer_length m));
    rewrite ?u32_small by lia; lia.
Qed.

Lemma quiescent_write (m : multi_reader_ring_buffer_t) (data : list byte) :
  quiescent m -> Z.of_nat (length data) < 4294967296 ->
  quiescent (mrrb_write port_ok m (Some data) (Z.of_nat (length data))).1.2 ∧
  Forall notify_length_positive (mrrb_write port_ok m (Some data) (Z.of_nat (length data))).2.
Proof.
  intros Hq Hdata. pose proof Hq as (HN & Hong & Hwr & Hres & Hrs).
  destruct (Z.eq_dec (Z.of_nat (length data)) 0) as [Hz|Hn].
  { unfold mrrb_write. rewrite Hz. cbn. split; [assumption|constructor]. }
  assert (Hpos : 0 < Z.of_nat (length data)) by lia.
  destruct (write_fit_length m _ (flags_zero (num_readers m)) Hpos) as [Hwl HwlN].
  destruct (mrrb_write_effect m data _ Hn Hong)
    as (_ & Hbuf & Hwp & Hrp & Ho & Hlook & aborts & notifies & Hev & Hab & Hnt & _).
  set (w := mrrb_write port_ok m (Some data) (Z.of_nat (length data))) in *.
  set (wl := (write_fit m (Z.of_nat (length data)) (flags_zero (num_readers m))).2) in *.
  destruct (write_window m wl HN Hres ltac:(lia)) as (Hcrs & _ & Hres' & Hc & Hs & Hcs & Hcl).
  set (crs := u32 (buffer_length m - reservation_ptr m)) in *.
  set (res' := if wl >=? crs then u32 (wl - crs) else reservation_ptr m + wl) in *.
  assert (Hlen : buffer_length w.1.2 = buffer_length m).
  { unfold buffer_length. rewrite Hbuf. f_equal.
    unfold in_ring in *. apply length_write_copy; try lia.
    destruct (Z.ltb_spec (reservation_ptr m + wl) (buffer_length m)); lia. }
  assert (Hreaders : forall k r0, readers m !! k = Some r0 ->
            let r2 := flagged_reader res' (fitted_reader m (Z.of_nat (length data)) r0) in
            let r := written_reader m (Z.of_nat (length data)) res' w.1.2 r0 in
            in_ring w.1.2 (read_ptr r) ∧ in_ring w.1.2 (read_complete_ptr r) ∧
            status r ≠ MRRB_READER_STATUS_IDLE ∧
            (needs_notify r2 = true ->
             1 <= _mrrb_reader_get_continuous_readable_space w.1.2 (published_reader m r2))).
  { intros k r0 Hr0. destruct (Hrs _ _ Hr0) as (H1 & H2 & H3).
    apply written_reader_quiescent; try assumption. rewrite Hwr. assumption. }
  split.
  - unfold quiescent. rewrite Hlen, Ho, Hwp, Hrp.
    split; [assumption|]. split; [reflexivity|]. split; [reflexivity|].
    split; [eapply in_ring_ext; eauto|].
    intros k r Hr. rewrite Hlook in Hr.
    destruct (readers m !! k) as [r0|] eqn:Hr0; [|discriminate].
    cbn [fmap option_fmap option_map] in Hr. injection Hr as <-.
    destruct (Hreaders _ _ Hr0) as (H1 & H2 & H3 & _).
    split; [assumption|]. split; [assumption|]. intros Hidle. contradiction.
  - rewrite Hev. apply Forall_app. split.
    + eapply Forall_impl; [exact Hab|]. intros [] He; [contradiction|exact I].
    + eapply Forall_impl; [exact Hnt|].
      intros e (k & r0 & Hr0 & Hneed & ->). cbn.
      destruct (Hreaders _ _ Hr0) as (_ & _ & _ & H4). auto.
Qed.

Lemma continuous_readable_space_bounds (m : multi_reader_ring_buffer_t)
    (r : ring_buffer_reader_t) :
  buffer_length m < 4294967296 ->
  in_ring m (write_ptr m) -> in_ring m (read_complete_ptr r) ->
  0 <= _mrrb_reader_get_continuous_readable_space m r <= buffer_length m ∧
  (_mrrb_reader_get_continuous_readable_space m r = 0 ->
   read_complete_ptr r = write_ptr m ∧ is_full r = false).
Proof.
  intros HN Hw Hr. rewrite continuous_readable_space_linear by assumption.
  unfold in_ring in *.
  destruct (Z.gtb_spec (read_complete_ptr r) (write_ptr m)); cbn [orb]; [lia|].
  destruct (is_full r); lia.
Qed.

(** Replacing one reader of a quiescent MRRB by a reader that satisfies the
    conditions on a reader. *)
Lemma quiescent_insert (m : multi_reader_ring_buffer_t) (i : nat) (r' : ring_buffer_reader_t) :
  quiescent m ->
  in_ring m (read_ptr r') -> in_ring m (read_complete_ptr r') ->
  (status r' = MRRB_READER_STATUS_IDLE -> read_complete_ptr r' = write_ptr m) ->
  quiescent (set_readers m (<[i := r']> (readers m))).
Proof.
  intros (HN & Hong & Hwr & Hres & Hrs) H1 H2 H3.
  unfold quiescent, in_ring, buffer_length in *. cbn.
  repeat (split; [assumption|]).
  intros k r Hr. apply list_lookup_insert_Some in Hr as [(-> & <- & _)|[_ Hr]]; eauto.
Qed.

Lemma quiescent_read_complete (m : multi_reader_ring_buffer_t) (h : Z) :
  quiescent m ->
  quiescent (mrrb_read_complete port_ok m h).1 ∧
  Forall notify_length_positive (mrrb_read_complete port_ok m h).2.
Proof.
  intros Hq. pose proof Hq as (HN & Hong & Hwr & Hres & Hrs).
  unfold mrrb_read_complete.
  destruct (h =? NULL); [split; [assumption|constructor]|].
  destruct (_mrrb_get_reader_by_handle m h) as [i|]; [|split; [assumption|constructor]].
  cbn [port_ok port_lock]. change (0 <? 0) with false. cbv iota.
  destruct (readers m !! i) as [r|] eqn:Hr; [|split; [assumption|constructor]].
  destruct (Hrs _ _ Hr) as (H1 & H2 & H3).
  destruct (status r) eqn:Hst; try (split; [assumption|constructor]).
  set (r1 := set_read_complete_ptr (set_is_full r false) (read_ptr r)).
  destruct (continuous_readable_space_bounds m r1 HN) as [Hb Hzero];
    [rewrite Hwr; assumption|assumption|].
  destruct (Z.gtb_spec (_mrrb_reader_get_continuous_readable_space m r1) 0) as [Hgt|Hle].
  - split.
    + apply quiescent_insert; cbn; try assumption.
      * apply advance_pointer_in_ring; [assumption..|lia].
      * rewrite Hst. discriminate.
    + constructor; [cbn; lia|constructor].
  - split; [|constructor].
    apply quiescent_insert; cbn; try assumption.
    intros _. apply Hzero. lia.
Qed.

Lemma quiescent_abort_complete (m : multi_reader_ring_buffer_t) (h : Z) :
  quiescent m ->
  quiescent (mrrb_abort_complete port_ok m h).1 ∧
  Forall notify_length_positive (mrrb_abort_complete port_ok m h).2.
Proof.
  intros Hq. pose proof Hq as (HN & Hong & Hwr & Hres & Hrs).
  unfold mrrb_abort_complete.
  destruct (h =? NULL); [split; [assumption|constructor]|].
  destruct (_mrrb_get_reader_by_handle m h) as [i|]; [|split; [assumption|constructor]].
  cbn [port_ok port_lock]. change (0 <? 0) with false. cbv iota.
  destruct (readers m !! i) as [r|] eqn:Hr; [|split; [assumption|constructor]].
  destruct (Hrs _ _ Hr) as (H1 & H2 & H3).
  destruct (status r) eqn:Hst; try (split; [assumption|constructor]).
  - destruct (continuous_readable_space_bounds m r HN) as [Hb Hzero];
      [rewrite Hwr; assumption|assumption|].
    destruct (Z.gtb_spec (_mrrb_reader_get_continuous_readable_space m r) 0) as [Hgt|Hle];
      cbn [andb].
    + destruct (ongoing_writes m =? 0).
      * split.
        -- apply quiescent_insert; cbn; try assumption; [|discriminate].
           apply advance_pointer_in_ring; [assumption..|lia].
        -- constructor; [cbn; lia|constructor].
      * split; [|constructor]. apply quiescent_insert; cbn; try assumption; discriminate.
    + split; [|constructor]. apply quiescent_insert; cbn; try assumption; discriminate.
  - split; [|constructor]. apply quiescent_insert; cbn; try assumption; discriminate.
Qed.

Lemma quiescent_reader_enable (m : multi_reader_ring_buffer_t) (i : nat) :
  quiescent m -> quiescent (mrrb_reader_enable port_ok m (Some i)).2.
Proof.
  intros Hq. pose proof Hq as (HN & Hong & Hwr & Hres & Hrs).
  unfold mrrb_reader_enable. cbn [port_ok port_lock]. change (0 <? 0) with false. cbv iota.
  destruct (readers m !! i) as [r|] eqn:Hr; [|assumption].
  destruct (is_disabled r); [|assumption]. cbn [snd].
  apply quiescent_insert; cbn; auto.
Qed.

Lemma quiescent_reader_disable (m : multi_reader_ring_buffer_t) (i : nat) :
  quiescent m ->
  quiescent (mrrb_reader_disable port_ok m (Some i)).1.2 ∧
  Forall notify_length_positive (mrrb_reader_disable port_ok m (Some i)).2.
Proof.
  intros Hq. pose proof Hq as (HN & Hong & Hwr & Hres & Hrs).
  unfold mrrb_reader_disable. cbn [port_ok port_lock]. change (0 <? 0) with false. cbv iota.
  destruct (readers m !! i) as [r|] eqn:Hr; [|split; [assumption|constructor]].
  destruct (Hrs _ _ Hr) as (H1 & H2 & H3).
  destruct (is_disabled r); [split; [assumption|constructor]|].
  destruct (negb _); cbn [fst snd].
  - split; [|constructor; [exact I|constructor]].
    apply quiescent_insert; cbn; try assumption; discriminate.
  - split; [|constructor].
    apply quiescent_insert; cbn; try assumption; discriminate.
Qed.

Lemma quiescent_step (m : multi_reader_ring_buffer_t) (o : op) :
  quiescent m -> op_fits o ->
  quiescent (step m o).1.2 ∧ Forall notify_length_positive (step m o).2.
Proof.
  intros Hq Hfit. destruct o as [data|h|h|i|i]; cbn [step].
  - apply quiescent_write; assumption.
  - pose proof (quiescent_read_complete m h Hq) as H.
    destruct (mrrb_read_complete port_ok m h). exact H.
  - pose proof (quiescent_abort_complete m h Hq) as H.
    destruct (mrrb_abort_complete port_ok m h). exact H.
  - pose proof (quiescent_reader_enable m i Hq) as H.
    destruct (mrrb_reader_enable port_ok m (Some i)). split; [exact H|constructor].
  - apply quiescent_reader_disable. assumption.
Qed.

Lemma quiescent_run (ops : list op) (m : multi_reader_ring_buffer_t) :
  quiescent m -> Forall op_fits ops ->
  quiescent (run m ops).1 ∧ Forall notify_length_positive (trace_events (run m ops).2).
Proof.
  revert m. induction ops as [|o ops IH]; intros m Hq Hfit; cbn [run].
  - split; [assumption|constructor].
  - inversion Hfit as [|? ? Ho Hops]; subst.
    destruct (quiescent_step m o Hq Ho) as [Hq' Hev].
    destruct (step m o) as [[ret m'] evs]. cbn [fst snd] in *.
    destruct (IH m' Hq' Hops) as [Hq'' Hev'].
    destruct (run m' ops) as [m'' tr]. cbn [fst snd] in *.
    split; [assumption|]. unfold trace_events in *. rewrite fmap_cons. cbn [concat snd].
    apply Forall_app. split; assumption.
Qed.

(** ** The contents of the ring *)

Lemma memcpy_lookup (dst src : list byte) (off n : Z) (p : nat) :
  0 <= off -> 0 <= n -> off + n <= Z.of_nat (length dst) -> n <= Z.of_nat (length src) ->
  memcpy dst off src n !! p =
    if decide (off <= Z.of_nat p < off + n)
    then src !! Z.to_nat (Z.of_nat p - off) else dst !! p.
Proof.
  intros Ho Hn Hd Hs. unfold memcpy.
  destruct (decide (Z.of_nat p < off)) as [Hlt|Hge].
  - rewrite lookup_app_l by (rewrite length_take; lia).
    rewrite lookup_take_lt by lia. destruct (decide _); [lia|reflexivity].
  - rewrite lookup_app_r by (rewrite length_take; lia).
    rewrite length_take.
    replace (p - Z.to_nat off `min` length dst)%nat with (Z.to_nat (Z.of_nat p - off)) by lia.
    destruct (decide (off <= Z.of_nat p < off + n)) as [Hin|Hout].
    + rewrite lookup_app_l by (rewrite length_take; lia).
      apply lookup_take_lt. lia.
    + rewrite lookup_app_r by (rewrite length_take; lia).
      rewrite length_take, lookup_drop. f_equal. lia.
Qed.

(** The ring after the copy phase: the continuous part of the data from the
    reservation pointer on, the spill from the buffer start on, the rest
    unchanged. *)
Lemma write_copy_lookup (m : multi_reader_ring_buffer_t) (wp : Z) (data : list byte)
    (cwl swl : Z) (p : nat) :
  0 <= wp -> 0 <= cwl -> 0 <= swl -> wp + cwl <= buffer_length m -> swl <= wp ->
  cwl + swl <= Z.of_nat (length data) ->
  buffer (write_copy m wp data cwl swl) !! p =
    if decide (wp <= Z.of_nat p < wp + cwl) then data !! Z.to_nat (Z.of_nat p - wp)
    else if decide (Z.of_nat p < swl) then data !! Z.to_nat (cwl + Z.of_nat p)
    else buffer m !! p.
Proof.
  unfold buffer_length, write_copy. intros Hwp Hc Hs Hfit Hsp Hdata.
  cbn [buffer set_buffer].
  set (b1 := if cwl >? 0 then memcpy (buffer m) wp data cwl else buffer m).
  assert (Hb1 : b1 !! p = if decide (wp <= Z.of_nat p < wp + cwl)
                          then data !! Z.to_nat (Z.of_nat p - wp) else buffer m !! p).
  { subst b1. destruct (Z.gtb_spec cwl 0).
    - apply memcpy_lookup; lia.
    - destruct (decide _); [lia|reflexivity]. }
  assert (Hl1 : length b1 = length (buffer m)).
  { subst b1. destruct (cwl >? 0); [apply length_memcpy; lia|reflexivity]. }
  destruct (Z.gtb_spec swl 0).
  - rewrite memcpy_lookup by (rewrite ?length_drop; lia).
    destruct (decide (0 <= Z.of_nat p < 0 + swl)).
    + destruct (decide (wp <= Z.of_nat p < wp + cwl)); [lia|].
      destruct (decide (Z.of_nat p < swl)); [|lia].
      rewrite lookup_drop. f_equal. lia.
    + rewrite Hb1. destruct (decide (wp <= Z.of_nat p < wp + cwl)); [reflexivity|].
      destruct (decide (Z.of_nat p < swl)); [lia|reflexivity].
  - rewrite Hb1. destruct (decide (wp <= Z.of_nat p < wp + cwl)); [reflexivity|].
    destruct (decide (Z.of_nat p < swl)); [lia|reflexivity].
Qed.

Lemma slice_lookup (b : list byte) (off len : Z) (j : nat) :
  0 <= off ->
  slice b off len !! j = if decide (Z.of_nat j < len) then b !! Z.to_nat (off + Z.of_nat j)
                         else None.
Proof.
  intros Ho. unfold slice. rewrite lookup_take.
  destruct (decide (j < Z.to_nat len)%nat), (decide (Z.of_nat j < len)); try lia;
    [|reflexivity].
  rewrite lookup_drop. f_equal. lia.
Qed.

(** A continuous span at the read cursor is the head of the pending bytes. *)
Lemma slice_pending (b pending : list byte) (n rp span : Z) :
  0 <= rp -> 0 <= span -> rp + span <= n -> span <= Z.of_nat (length pending) ->
  ring_holds b n rp pending ->
  slice b rp span = take (Z.to_nat span) pending.
Proof.
  intros Hrp Hspan Hfit Hlen Hcontent. apply list_eq. intros j.
  rewrite slice_lookup by assumption. rewrite lookup_take.
  destruct (decide (Z.of_nat j < span)), (decide (j < Z.to_nat span)%nat); try lia;
    [|reflexivity].
  rewrite Hcontent by lia. unfold wrap.
  destruct (Z.ltb_spec (rp + Z.of_nat j) n); [reflexivity|lia].
Qed.

(** Handing out a continuous span moves the cursor past it. *)
Lemma ring_holds_drop (b pending : list byte) (n rp span : Z) :
  0 <= rp < n -> 0 <= span -> rp + span <= n ->
  span <= Z.of_nat (length pending) <= n ->
  ring_holds b n rp pending ->
  ring_holds b n (wrap n (rp + span)) (drop (Z.to_nat span) pending).
Proof.
  intros Hrp Hspan Hfit Hlen Hcontent j Hj. rewrite length_drop in Hj.
  rewrite lookup_drop. rewrite Hcontent by lia. f_equal. f_equal. unfold wrap.
  repeat match goal with |- context [Z.ltb ?a ?b] => destruct (Z.ltb_spec a b) end; lia.
Qed.

(** The copy phase appends the accepted bytes to what the ring holds, as long
    as they fit in front of what is held. *)
Lemma ring_holds_write (m : multi_reader_ring_buffer_t) (data pending : list byte)
    (rp wl : Z) :
  let n := buffer_length m in
  let res := reservation_ptr m in
  let cwl := if res + wl <? n then wl else n - res in
  0 <= rp < n -> 0 <= res < n ->
  res = wrap n (rp + Z.of_nat (length pending)) ->
  0 <= wl -> Z.of_nat (length pending) + wl <= n -> wl <= Z.of_nat (length data) ->
  ring_holds (buffer m) n rp pending ->
  ring_holds (buffer (write_copy m res data cwl (wl - cwl))) n rp
             (pending ++ take (Z.to_nat wl) data).
Proof.
  cbv zeta. intros Hrp Hres Hpos Hwl Hfit Hdata Hcontent j Hj.
  rewrite length_app, length_take in Hj.
  set (cwl := if reservation_ptr m + wl <? buffer_length m
              then wl else buffer_length m - reservation_ptr m).
  assert (Hcwl : 0 <= cwl <= wl ∧ reservation_ptr m + cwl <= buffer_length m ∧
                 (cwl < wl -> reservation_ptr m + cwl = buffer_length m)).
  { subst cwl. destruct (Z.ltb_spec (reservation_ptr m + wl) (buffer_length m)); lia. }
  rewrite write_copy_lookup; try lia.
  unfold wrap in *.
  destruct (decide (j < length pending)%nat) as [Hold|Hnew].
  - rewrite lookup_app_l by assumption. rewrite Hcontent by assumption. unfold wrap.
    destruct (Z.ltb_spec (rp + Z.of_nat (length pending)) (buffer_length m)),
             (Z.ltb_spec (rp + Z.of_nat j) (buffer_length m));
      repeat destruct (decide _); try lia; reflexivity.
  - rewrite lookup_app_r by lia. rewrite lookup_take_lt by lia.
    destruct (Z.ltb_spec (rp + Z.of_nat (length pending)) (buffer_length m)),
             (Z.ltb_spec (rp + Z.of_nat j) (buffer_length m));
      repeat destruct (decide _); try lia; f_equal; lia.
Qed.

(** ** A BLOCKING reader loses nothing *)

Lemma cleared_reader_blocking (m : multi_reader_ring_buffer_t) (requested : Z)
    (r : ring_buffer_reader_t) :
  overrun_policy r = MRRB_READER_OVERRUN_BLOCKING ->
  cleared_reader m requested r = r ∧
  (is_disabled r = false -> status r ≠ MRRB_READER_STATUS_IDLE ->
   exists f, clear_overrun_reader m requested r
             = Some (r, f, _mrrb_reader_get_remaining_space m r)).
Proof.
  intros Hpol. unfold cleared_reader, clear_overrun_reader, is_disabled. rewrite Hpol.
  destruct (status r); (split; [try reflexivity|intros Hd Hi; try discriminate; try congruence]);
    destruct (_ <? _); try reflexivity; eexists; reflexivity.
Qed.

Lemma fitted_reader_blocking (m : multi_reader_ring_buffer_t) (n : Z)
    (r : ring_buffer_reader_t) :
  overrun_policy r = MRRB_READER_OVERRUN_BLOCKING -> fitted_reader m n r = r.
Proof.
  intros Hpol. unfold fitted_reader. destruct (_ <=? _); [reflexivity|].
  destruct (_ >? _); [|reflexivity]. apply cleared_reader_blocking. assumption.
Qed.

(** A write never takes more than an enabled BLOCKING reader that is not IDLE
    leaves. *)
Lemma write_fit_le_blocking (m : multi_reader_ring_buffer_t) (n : Z) (fl : list Z)
    (i : nat) (r : ring_buffer_reader_t) :
  readers m !! i = Some r ->
  overrun_policy r = MRRB_READER_OVERRUN_BLOCKING ->
  is_disabled r = false -> status r ≠ MRRB_READER_STATUS_IDLE ->
  (write_fit m n fl).2 <= _mrrb_reader_get_remaining_space m r.
Proof.
  intros Hr Hpol Hd Hi. unfold write_fit.
  pose proof (get_remaining_space_le m i r Hr) as Hle.
  destruct (Z.leb_spec n (mrrb_get_remaining_space (Some m))); [cbn [fst snd]; lia|].
  destruct (_ >? _); [|cbn [fst snd]; lia].
  set (req := if n <=? buffer_length m then n else buffer_length m).
  destruct (proj2 (cleared_reader_blocking m req r Hpol) Hd Hi) as [f Hc].
  pose proof (clear_overrun_space_le m req fl i r r f _ Hr Hc) as Hcs.
  destruct (_mrrb_clear_overrun_space m req fl) as [[m' fl'] cs]. cbn [fst snd] in *.
  destruct (Z.leb_spec n cs); lia.
Qed.

Lemma blocking_inv_write (i : nat) (m : multi_reader_ring_buffer_t)
    (stream dl data : list byte) :
  blocking_reader_inv i m stream dl ->
  Z.of_nat (length data) < 4294967296 ->
  (data ≠ [] ->
   (exists r, readers m !! i = Some r ∧ status r = MRRB_READER_STATUS_IDLE) ->
   (mrrb_write port_ok m (Some data) (Z.of_nat (length data))).1.1 ≠ 0) ->
  let w := mrrb_write port_ok m (Some data) (Z.of_nat (length data)) in
  Z.of_nat (length (take (Z.to_nat w.1.1) data)) = w.1.1 ∧
  blocking_reader_inv i w.1.2 (stream ++ take (Z.to_nat w.1.1) data)
                      (dl ++ delivered i w.2).
Proof.
  intros Hinv Hdata Hstall. cbv zeta. pose proof Hinv as
    (HN & Hong & Hwr & Hres & r & pending & S & Hr & Hpol & Hstream & HS & HSU & Hrcp & Hrp
       & Hrpos & Hwpos & Hfull & Hst & Hcont).
  destruct (Z.eq_dec (Z.of_nat (length data)) 0) as [Hz|Hn].
  { unfold mrrb_write. rewrite Hz. cbn. rewrite !app_nil_r.
    destruct data; [|discriminate]. split; [reflexivity|assumption]. }
  assert (Hpos : 0 < Z.of_nat (length data)) by lia.
  destruct (write_fit_length m _ (flags_zero (num_readers m)) Hpos) as [Hwl HwlN].
  destruct (mrrb_write_effect m data _ Hn Hong)
    as (Hret & Hbuf & Hwp & Hrpn & Ho & Hlook & aborts & notifies & Hev & Hab & _ & Hdel).
  specialize (Hdel i r Hr). specialize (Hlook i). rewrite Hr in Hlook.
  cbn [fmap option_fmap option_map] in Hlook. cbv zeta in Hdel.
  pose proof (write_fit_le_blocking m (Z.of_nat (length data)) (flags_zero (num_readers m))
                i r Hr Hpol) as Hle.
  rewrite (fitted_reader_blocking m _ r Hpol) in Hdel.
  unfold written_reader in Hlook. rewrite (fitted_reader_blocking m _ r Hpol) in Hlook.
  set (w := mrrb_write port_ok m (Some data) (Z.of_nat (length data))) in *.
  set (wl := (write_fit m (Z.of_nat (length data)) (flags_zero (num_readers m))).2) in *.
  assert (HN32 : buffer_length m < 4294967296) by lia.
  destruct (write_window m wl HN32 Hres ltac:(lia))
    as (Hcrs & Hres'eq & Hres' & Hc & Hs & Hcs & Hcl).
  set (crs := u32 (buffer_length m - reservation_ptr m)) in *.
  set (res' := if wl >=? crs then u32 (wl - crs) else reservation_ptr m + wl) in *.
  set (cwl := if wl >=? crs then crs else wl) in *.
  set (swl := if wl >=? crs then u32 (wl - crs) else 0) in *.
  clearbody res' cwl swl.
  assert (Hswl : swl = wl - cwl) by lia.
  assert (Hlen : buffer_length w.1.2 = buffer_length m).
  { unfold buffer_length. rewrite Hbuf. f_equal. unfold in_ring in *.
    apply length_write_copy; try lia.
    destruct (Z.ltb_spec (reservation_ptr m + wl) (buffer_length m)); lia. }
  assert (Hrw : w.1.1 = wl) by (rewrite Hret; apply to_int_small; lia).
  assert (Htake : Z.of_nat (length (take (Z.to_nat wl) data)) = wl)
    by (rewrite length_take; lia).
  rewrite Hrw. split; [exact Htake|].
  rewrite Hev, delivered_app, (delivered_aborts i aborts Hab), app_nil_l, Hdel.
  unfold blocking_reader_inv. rewrite Hlen, Ho, Hwp, Hrpn.
  split; [assumption|]. split; [reflexivity|]. split; [reflexivity|].
  split; [eapply in_ring_ext; eauto|].
  assert (Hremaining : is_disabled r = false -> status r ≠ MRRB_READER_STATUS_IDLE ->
            wl <= buffer_length m - S - Z.of_nat (length pending)).
  { intros Hd Hi. specialize (Hle Hd Hi).
    unfold _mrrb_reader_get_remaining_space in Hle. rewrite Hd, Hfull in Hle.
    unfold in_ring, wrap in *. rewrite Hwr in *.
    destruct (Z.eqb_spec (S + Z.of_nat (length pending)) (buffer_length m)); [lia|].
    destruct (Z.gtb_spec (read_complete_ptr r) (reservation_ptr m));
      rewrite u32_small in Hle by lia;
      destruct (Z.ltb_spec (read_complete_ptr r + S) (buffer_length m)),
               (Z.ltb_spec (read_ptr r + Z.of_nat (length pending)) (buffer_length m));
      lia. }
  assert (Hholds : Z.of_nat (length pending) + wl <= buffer_length m ->
            ring_holds (buffer w.1.2) (buffer_length m) (read_ptr r)
                       (pending ++ take (Z.to_nat wl) data)).
  { intros Hfit. rewrite Hbuf, Hcl, Hswl, Hcl. unfold in_ring in *.
    apply ring_holds_write; try assumption; try lia. }
  unfold flagged_reader, needs_notify, published_reader, publish_body, is_disabled in *.
  destruct Hst as [(Hst & -> & ->)|(Hst & HS1)];
    repeat (progress (cbn [fst status set_is_full set_status] in *; rewrite ?Hst in * )).
  - (* the reader was IDLE: the write activates and notifies it *)
    assert (Hwl0 : wl ≠ 0).
    { rewrite <- Hrw. apply Hstall; [intros ->; discriminate|eauto]. }
    cbn [length Nat2Z.inj] in *. change (Z.of_nat 0) with 0 in *.
    unfold wrap, in_ring in *.
    assert (Erp : read_ptr r = read_complete_ptr r)
      by (destruct (Z.ltb_spec (read_complete_ptr r + 0) (buffer_length m)); lia).
    assert (Ewp : write_ptr m = read_complete_ptr r)
      by (destruct (Z.ltb_spec (read_ptr r + 0) (buffer_length m)); lia).
    set (r3 := set_read_complete_ptr
                 (set_status (set_is_full r (res' =? read_complete_ptr r))
                             MRRB_READER_STATUS_ACTIVE) (write_ptr m)) in *.
    assert (Hspan : _mrrb_reader_get_continuous_readable_space w.1.2 r3 = cwl).
    { rewrite continuous_readable_space_linear;
        [|lia|rewrite Hwp; unfold in_ring; lia
         |unfold in_ring; change (read_complete_ptr r3) with (write_ptr m); lia].
      rewrite Hwp, Hlen. cbn [read_complete_ptr is_full r3 set_read_complete_ptr set_status
                                set_is_full].
      rewrite Ewp in *. rewrite Hwr in *.
      destruct (Z.ltb_spec (reservation_ptr m + wl) (buffer_length m)),
               (Z.gtb_spec (reservation_ptr m) res'),
               (Z.eqb_spec res' (reservation_ptr m)); cbn [orb]; lia. }
    rewrite Hspan in *.
    exists (notified_reader w.1.2 r3), (drop (Z.to_nat cwl) (take (Z.to_nat wl) data)), cwl.
    assert (Hadv : read_ptr (notified_reader w.1.2 r3)
                   = wrap (buffer_length m) (write_ptr m + cwl)).
    { unfold notified_reader. cbn [read_ptr set_read_ptr]. rewrite Hspan.
      rewrite advance_pointer_mod;
        [|lia|unfold in_ring; change (read_complete_ptr r3) with (write_ptr m); lia|lia].
      rewrite Hlen. cbn. rewrite add_mod_linear by lia. reflexivity. }
    specialize (Hholds ltac:(lia)). rewrite app_nil_l in Hholds. rewrite Erp in Hholds.
    rewrite <- Ewp in Hholds.
    assert (Hcwl1 : 1 <= cwl <= wl ∧ write_ptr m + cwl <= buffer_length m).
    { rewrite Hwr. destruct (Z.ltb_spec (reservation_ptr m + wl) (buffer_length m)); lia. }
    split; [assumption|]. split; [assumption|]. split.
    { rewrite Hstream, app_nil_r. rewrite <- app_assoc. f_equal.
      rewrite (slice_pending _ (take (Z.to_nat wl) data) (buffer_length m));
        [apply eq_sym, take_drop|cbn; lia|lia|cbn; lia|lia|exact Hholds]. }
    assert (HU' : Z.of_nat (length (drop (Z.to_nat cwl) (take (Z.to_nat wl) data)))
                  = wl - cwl) by (rewrite length_drop; lia).
    rewrite HU'. unfold in_ring. rewrite Hlen, Hadv.
    change (read_complete_ptr (notified_reader w.1.2 r3)) with (write_ptr m).
    change (is_full (notified_reader w.1.2 r3)) with (res' =? read_complete_ptr r).
    change (status (notified_reader w.1.2 r3)) with MRRB_READER_STATUS_ACTIVE.
    assert (Hw : 0 <= wrap (buffer_length m) (write_ptr m + cwl) < buffer_length m)
      by (unfold wrap; destruct (Z.ltb_spec (write_ptr m + cwl) (buffer_length m)); lia).
    split; [lia|]. split; [lia|]. split; [lia|]. split; [exact Hw|].
    split; [reflexivity|]. split.
    { unfold wrap. rewrite Hwr in *.
      repeat match goal with |- context [Z.ltb ?a ?b] => destruct (Z.ltb_spec a b) end;
        destruct (Z.ltb_spec (reservation_ptr m + wl) (buffer_length m)); lia. }
    split.
    { rewrite Hwr in *.
      destruct (Z.eqb_spec res' (read_complete_ptr r)),
               (Z.eqb_spec (cwl + (wl - cwl)) (buffer_length m)),
               (Z.ltb_spec (reservation_ptr m + wl) (buffer_length m)); lia. }
    split; [right; split; [reflexivity|lia]|].
    apply ring_holds_drop; try lia. exact Hholds.
  - (* the reader was ACTIVE: the accepted bytes wait behind what it was shown *)
    specialize (Hremaining eq_refl ltac:(discriminate)).
    specialize (Hholds ltac:(lia)).
    rewrite app_nil_r.
    exists (set_is_full r (res' =? read_complete_ptr r)),
           (pending ++ take (Z.to_nat wl) data), S.
    split; [assumption|]. split; [assumption|].
    split; [rewrite Hstream, app_assoc; reflexivity|].
    rewrite length_app, Nat2Z.inj_add, Htake.
    cbn [read_complete_ptr read_ptr is_full status set_is_full].
    unfold in_ring in *. rewrite Hlen.
    split; [lia|]. split; [lia|]. split; [lia|]. split; [lia|].
    split; [assumption|]. split.
    { unfold wrap in *. rewrite Hwr in *.
      destruct (Z.ltb_spec (read_ptr r + Z.of_nat (length pending)) (buffer_length m)),
               (Z.ltb_spec (read_ptr r + (Z.of_nat (length pending) + wl)) (buffer_length m)),
               (Z.ltb_spec (reservation_ptr m + wl) (buffer_length m)); lia. }
    split.
    { unfold wrap in *. rewrite Hwr in *.
      destruct (Z.eqb_spec res' (read_complete_ptr r)),
               (Z.eqb_spec (S + (Z.of_nat (length pending) + wl)) (buffer_length m)),
               (Z.ltb_spec (reservation_ptr m + wl) (buffer_length m)),
               (Z.ltb_spec (read_complete_ptr r + S) (buffer_length m)),
               (Z.ltb_spec (read_ptr r + Z.of_nat (length pending)) (buffer_length m));
        lia. }
    split; [right; split; [assumption|lia]|].
    exact Hholds.
Qed.

Lemma blocking_inv_other (i k : nat) (m : multi_reader_ring_buffer_t)
    (stream dl : list byte) (r' : ring_buffer_reader_t) :
  k ≠ i -> blocking_reader_inv i m stream dl ->
  blocking_reader_inv i (set_readers m (<[k := r']> (readers m))) stream dl.
Proof.
  intros Hk (HN & Hong & Hwr & Hres & r & pending & S & Hr & Hrest).
  unfold blocking_reader_inv, in_ring, buffer_length in *. cbn.
  repeat (split; [assumption|]).
  exists r, pending, S. split; [|exact Hrest].
  rewrite list_lookup_insert_ne by assumption. exact Hr.
Qed.

Lemma delivered_other (i k : nat) (h d len : Z) (bs : list byte) :
  k ≠ i -> delivered i [notify_call k h d len bs] = [].
Proof.
  intros Hk. unfold delivered. cbn.
  destruct (Nat.eqb_spec k i); [contradiction|reflexivity].
Qed.

Lemma delivered_self (i : nat) (h d len : Z) (bs : list byte) :
  delivered i [notify_call i h d len bs] = bs.
Proof. unfold delivered. cbn. rewrite Nat.eqb_refl. apply app_nil_r. Qed.

Lemma blocking_inv_read_complete (i : nat) (m : multi_reader_ring_buffer_t)
    (stream dl : list byte) (h : Z) :
  blocking_reader_inv i m stream dl ->
  blocking_reader_inv i (mrrb_read_complete port_ok m h).1 stream
                      (dl ++ delivered i (mrrb_read_complete port_ok m h).2).
Proof.
  intros Hinv.
  assert (Hsame : blocking_reader_inv i m stream (dl ++ delivered i []))
    by (rewrite app_nil_r; exact Hinv).
  unfold mrrb_read_complete.
  destruct (h =? NULL); [exact Hsame|].
  destruct (_mrrb_get_reader_by_handle m h) as [k|]; [|exact Hsame].
  cbn [port_ok port_lock]. change (0 <? 0) with false. cbv iota.
  destruct (readers m !! k) as [rk|] eqn:Hrk; [|exact Hsame].
  destruct (status rk) eqn:Hstk; try exact Hsame.
  set (r1 := set_read_complete_ptr (set_is_full rk false) (read_ptr rk)).
  set (span := _mrrb_reader_get_continuous_readable_space m r1).
  destruct (decide (k = i)) as [->|Hne].
  2:{ destruct (span >? 0); cbn [fst snd].
      - rewrite delivered_other, app_nil_r by assumption.
        apply blocking_inv_other; assumption.
      - apply blocking_inv_other; assumption. }
  clear Hsame. destruct Hinv as
    (HN & Hong & Hwr & Hres & r & pending & S & Hr & Hpol & Hstream & HS & HSU & Hrcp & Hrp
       & Hrpos & Hwpos & Hfull & Hst & Hcont).
  assert (rk = r) as -> by congruence.
  destruct Hst as [(Hst & _)|(_ & HS1)]; [congruence|].
  assert (Hspan : span = if read_ptr r >? write_ptr m
                         then buffer_length m - read_ptr r else write_ptr m - read_ptr r).
  { subst span. rewrite continuous_readable_space_linear;
      [|lia|rewrite Hwr; assumption|exact Hrp].
    cbn. rewrite orb_false_r. reflexivity. }
  unfold in_ring, wrap in *.
  assert (HUspan : 0 <= span <= Z.of_nat (length pending) ∧
                   read_ptr r + span <= buffer_length m ∧
                   (span = 0 -> pending = [])).
  { rewrite Hspan.
    destruct (Z.gtb_spec (read_ptr r) (write_ptr m)),
             (Z.ltb_spec (read_ptr r + Z.of_nat (length pending)) (buffer_length m));
      repeat split; try lia; intros; destruct pending; cbn in *; try reflexivity; lia. }
  destruct HUspan as (Hsp & Hfit & Hzero).
  clearbody span. subst r1.
  cbn [read_complete_ptr read_ptr handle set_read_ptr set_read_complete_ptr set_is_full].
  unfold blocking_reader_inv, in_ring, buffer_length in *.
  destruct (Z.gtb_spec span 0) as [Hgt|Hle]; cbn [fst snd buffer readers write_ptr
    reservation_ptr ongoing_writes set_readers].
  - rewrite delivered_self.
    repeat (split; [assumption|]).
    eexists _, (drop (Z.to_nat span) pending), span.
    split; [apply list_lookup_insert_eq; eapply lookup_lt_Some; eauto|].
    split; [assumption|].
    split.
    { rewrite (slice_pending _ pending (Z.of_nat (length (buffer m)))); try lia;
        [|exact Hcont].
      rewrite <- app_assoc, take_drop. exact Hstream. }
    rewrite length_drop.
    cbn [read_complete_ptr read_ptr is_full status set_read_ptr set_read_complete_ptr
         set_is_full].
    rewrite advance_pointer_mod; [|unfold buffer_length; lia|exact Hrp
                                  |unfold buffer_length; lia].
    rewrite add_mod_linear by (unfold buffer_length; lia).
    fold (wrap (buffer_length m) (read_ptr r + span)). unfold buffer_length.
    assert (Hw : 0 <= wrap (Z.of_nat (length (buffer m))) (read_ptr r + span)
                 < Z.of_nat (length (buffer m)))
      by (unfold wrap; destruct (Z.ltb_spec (read_ptr r + span)
                                   (Z.of_nat (length (buffer m)))); lia).
    split; [lia|]. split; [lia|]. split; [lia|]. split; [exact Hw|].
    split; [reflexivity|]. split.
    { unfold wrap. rewrite Hspan in *.
      destruct (Z.gtb_spec (read_ptr r) (write_ptr m)),
               (Z.ltb_spec (read_ptr r + Z.of_nat (length pending))
                           (Z.of_nat (length (buffer m))));
        repeat match goal with |- context [Z.ltb ?a ?b] => destruct (Z.ltb_spec a b) end;
        lia. }
    split.
    { symmetry. apply Z.eqb_neq. lia. }
    split; [right; split; [assumption|lia]|].
    apply ring_holds_drop; try lia. exact Hcont.
  - rewrite app_nil_r. rewrite (Hzero ltac:(lia)) in *. cbn [length] in *.
    repeat (split; [assumption|]).
    eexists _, [], 0.
    split; [apply list_lookup_insert_eq; eapply lookup_lt_Some; eauto|].
    split; [assumption|]. split; [assumption|].
    cbn [read_complete_ptr read_ptr is_full status set_read_ptr set_read_complete_ptr
         set_is_full set_status length].
    split; [lia|]. split; [lia|]. split; [lia|]. split; [lia|]. unfold wrap.
    split; [destruct (Z.ltb_spec (read_ptr r + 0) (Z.of_nat (length (buffer m)))); lia|].
    split; [assumption|].
    split; [symmetry; apply Z.eqb_neq; lia|].
    split; [left; auto|].
    intros j Hj. cbn in Hj. lia.
Qed.

Lemma blocking_inv_abort_complete (i : nat) (m : multi_reader_ring_buffer_t)
    (stream dl : list byte) (h : Z) :
  blocking_reader_inv i m stream dl ->
  blocking_reader_inv i (mrrb_abort_complete port_ok m h).1 stream
                      (dl ++ delivered i (mrrb_abort_complete port_ok m h).2).
Proof.
  intros Hinv.
  assert (Hsame : blocking_reader_inv i m stream (dl ++ delivered i []))
    by (rewrite app_nil_r; exact Hinv).
  unfold mrrb_abort_complete.
  destruct (h =? NULL); [exact Hsame|].
  destruct (_mrrb_get_reader_by_handle m h) as [k|]; [|exact Hsame].
  cbn [port_ok port_lock]. change (0 <? 0) with false. cbv iota.
  destruct (readers m !! k) as [rk|] eqn:Hrk; [|exact Hsame].
  assert (Hki : status rk = MRRB_READER_STATUS_DISABLING ∨
                status rk = MRRB_READER_STATUS_ABORTING -> k ≠ i).
  { intros Hs ->. destruct Hinv as (_ & _ & _ & _ & r & pending & S & Hr & _ & _ & _ & _ & _
                                      & _ & _ & _ & _ & Hst & _).
    assert (rk = r) as -> by congruence.
    destruct Hs, Hst as [(Hst & _)|(Hst & _)]; congruence. }
  destruct (status rk) eqn:Hstk; try exact Hsame.
  - specialize (Hki ltac:(auto)).
    destruct (_ && _); cbn [fst snd].
    + rewrite delivered_other, app_nil_r by assumption.
      apply blocking_inv_other; assumption.
    + rewrite app_nil_r. apply blocking_inv_other; assumption.
  - specialize (Hki ltac:(auto)). cbn [fst snd]. rewrite app_nil_r.
    apply blocking_inv_other; assumption.
Qed.

Lemma blocking_inv_init (lock_init : Z) (m0 m : multi_reader_ring_buffer_t)
    (buf : option (list byte)) (rs : option (list ring_buffer_reader_t))
    (i : nat) (r : ring_buffer_reader_t) :
  mrrb_init lock_init m0 buf rs = (0, m) ->
  buffer_length m < 2147483648 ->
  readers m !! i = Some r ->
  overrun_policy r = MRRB_READER_OVERRUN_BLOCKING ->
  blocking_reader_inv i m [] [].
Proof.
  intros Hinit HN Hr Hpol.
  destruct (mrrb_init_success _ _ _ _ _ Hinit) as (Hpos & Hw & Hrv & Hong & Hrs).
  destruct (Hrs _ _ Hr) as (Hst & Hp & Hc & Hf).
  unfold blocking_reader_inv, in_ring. rewrite Hw, Hrv, Hong.
  repeat (split; [lia|]).
  exists r, [], 0. unfold wrap. rewrite Hp, Hc, Hf. cbn [length app].
  change (Z.of_nat 0) with 0.
  destruct (Z.ltb_spec (0 + 0) (buffer_length m)); [|lia].
  split; [exact Hr|]. split; [exact Hpol|]. split; [reflexivity|].
  split; [lia|]. split; [lia|]. split; [lia|]. split; [lia|].
  split; [reflexivity|]. split; [reflexivity|].
  split; [symmetry; apply Z.eqb_neq; lia|].
  split; [left; auto|].
  intros j Hj. cbn in Hj. lia.
Qed.

Lemma blocking_inv_run (i : nat) (ops : list op) (m : multi_reader_ring_buffer_t)
    (stream dl : list byte) :
  blocking_reader_inv i m stream dl ->
  Forall data_op ops -> Forall op_fits ops -> no_stalled_idle_write i m ops ->
  Z.of_nat (length (accepted (run m ops).2)) = total_written (run m ops).2 ∧
  blocking_reader_inv i (run m ops).1 (stream ++ accepted (run m ops).2)
                      (dl ++ delivered i (trace_events (run m ops).2)).
Proof.
  revert m stream dl. induction ops as [|o ops IH]; intros m stream dl Hinv Hdo Hfit Hns.
  - cbn. rewrite !app_nil_r. split; [reflexivity|assumption].
  - inversion Hdo as [|? ? Ho Hdo']; subst. inversion Hfit as [|? ? Hf Hfit']; subst.
    destruct Hns as [Hno Hns']. cbn [run].
    assert (Hstep : Z.of_nat (length (accepted_bytes (o, (step m o).1.1, (step m o).2)))
                    = written_count (o, (step m o).1.1, (step m o).2) ∧
                    blocking_reader_inv i (step m o).1.2
                      (stream ++ accepted_bytes (o, (step m o).1.1, (step m o).2))
                      (dl ++ delivered i (step m o).2)).
    { destruct o as [data|h|h|k|k]; try contradiction;
        unfold accepted_bytes, written_count; cbn [fst snd step].
      - apply blocking_inv_write; assumption.
      - pose proof (blocking_inv_read_complete i m stream dl h Hinv) as H.
        destruct (mrrb_read_complete port_ok m h). cbn [fst snd] in *.
        rewrite app_nil_r. split; [reflexivity|exact H].
      - pose proof (blocking_inv_abort_complete i m stream dl h Hinv) as H.
        destruct (mrrb_abort_complete port_ok m h). cbn [fst snd] in *.
        rewrite app_nil_r. split; [reflexivity|exact H]. }
    destruct (step m o) as [[ret m'] evs]. cbn [fst snd] in *.
    destruct Hstep as [Hlen Hinv'].
    specialize (IH m' _ _ Hinv' Hdo' Hfit' Hns').
    destruct (run m' ops) as [m'' tr]. cbn [fst snd] in *.
    destruct IH as [IHlen IHinv].
    unfold accepted, total_written, trace_events in *.
    rewrite !fmap_cons. cbn [concat foldr snd].
    rewrite length_app, Nat2Z.inj_add, delivered_app, !app_assoc.
    split; [lia|]. rewrite <- !app_assoc in *. exact IHinv.
Qed.

(** ** The byte stream of a BLOCKING reader *)

(** C1 fails on the code: a write that is refused because another BLOCKING
    reader is full still runs the loops that update the full flags and
    publish (mrrb.c:478-485 and 522-557), and these hand an IDLE reader the
    whole ring once more. Two BLOCKING readers (handles 1 and 2) share a ring
    of 4 bytes: the write of [abcd] returns 4 and both readers are shown
    [abcd]; reader 1 completes and is IDLE, reader 2 does not; the write of
    [e] returns 0, yet it sets the full flag of reader 1 (its complete cursor
    equals the unmoved reservation pointer), makes it ACTIVE and passes
    [abcd] to its notify callback a second time. The values returned by
    [mrrb_write] sum to 4, reader 1 has been handed 8 bytes. *)
Theorem blocking_reader_duplicate_delivery :
  let ops := [op_write ["a"; "b"; "c"; "d"]%byte; op_read_complete 1; op_write ["e"]%byte] in
  let tr := (run example_two_blocking ops).2 in
  ((fun x => x.1.2) <$> tr) = [4; 0; 0] ∧
  total_written tr = 4 ∧
  take (Z.to_nat (total_written tr)) (writer_input tr) = ["a"; "b"; "c"; "d"]%byte ∧
  delivered 0 (trace_events tr) = ["a"; "b"; "c"; "d"; "a"; "b"; "c"; "d"]%byte ∧
  delivered 1 (trace_events tr) = ["a"; "b"; "c"; "d"]%byte.
Proof.
  vm_compute. repeat split.
Qed.

(** X1: no loss and no duplication for a BLOCKING reader: over a sequential
    execution of [mrrb_write], [mrrb_read_complete] and [mrrb_abort_complete]
    that starts from a successful [mrrb_init], and in which no write of at
    least one byte returns 0 while the reader is IDLE, the bytes accepted by
    the writes (the first [ret] bytes of each argument) number the sum of
    the returned values, the bytes passed to the notify callback of the
    reader are a prefix of them, and nothing is outstanding whenever the
    reader is IDLE. *)
Theorem blocking_reader_no_loss (lock_init : Z) (m0 m : multi_reader_ring_buffer_t)
    (buf : option (list byte)) (rs : option (list ring_buffer_reader_t))
    (i : nat) (r : ring_buffer_reader_t) (ops : list op) :
  mrrb_init lock_init m0 buf rs = (0, m) ->
  buffer_length m < 2147483648 ->
  readers m !! i = Some r ->
  overrun_policy r = MRRB_READER_OVERRUN_BLOCKING ->
  Forall data_op ops -> Forall op_fits ops -> no_stalled_idle_write i m ops ->
  Z.of_nat (length (accepted (run m ops).2)) = total_written (run m ops).2 ∧
  exists pending : list byte,
    accepted (run m ops).2 = delivered i (trace_events (run m ops).2) ++ pending ∧
    forall r', readers (run m ops).1 !! i = Some r' ->
      status r' = MRRB_READER_STATUS_IDLE -> pending = [].
Proof.
  intros Hinit HN Hr Hpol Hdo Hfit Hns.
  pose proof (blocking_inv_init _ _ _ _ _ _ _ Hinit HN Hr Hpol) as Hinv.
  destruct (blocking_inv_run i ops m [] [] Hinv Hdo Hfit Hns) as [Hlen Hinv'].
  split; [exact Hlen|].
  destruct Hinv' as (_ & _ & _ & _ & r1 & pending & shown & Hr1 & _ & Hs & _ & _ & _ & _
                       & _ & _ & _ & Hst & _).
  exists pending. split; [exact Hs|].
  intros r' Hr' Hidle. assert (r' = r1) as -> by congruence.
  destruct Hst as [(_ & _ & Hp)|[Hact _]]; [exact Hp|congruence].
Qed.

Lemma blocking_reader_no_loss_witness :
  mrrb_init 0 uninit_mrrb (Some (replicate 8 "000"%byte))
    (Some [example_reader 1 MRRB_READER_OVERRUN_BLOCKING NULL]) = (0, example_blocking) ∧
  buffer_length example_blocking < 2147483648 ∧
  Z.of_nat (length (accepted (run example_blocking
                       [op_write ["a"; "b"; "c"]%byte; op_read_complete 1;
                        op_write ["d"; "e"]%byte]).2))
  = total_written (run example_blocking
                     [op_write ["a"; "b"; "c"]%byte; op_read_complete 1;
                      op_write ["d"; "e"]%byte]).2.
Proof.
  assert (H1 : mrrb_init 0 uninit_mrrb (Some (replicate 8 "000"%byte))
                 (Some [example_reader 1 MRRB_READER_OVERRUN_BLOCKING NULL])
               = (0, example_blocking)) by reflexivity.
  assert (H2 : buffer_length example_blocking < 2147483648) by reflexivity.
  split; [exact H1|]. split; [exact H2|].
  refine (proj1 (blocking_reader_no_loss _ _ _ _ _ 0%nat
                   (default uninit_reader (readers example_blocking !! 0%nat))
                   [op_write ["a"; "b"; "c"]%byte; op_read_complete 1;
                    op_write ["d"; "e"]%byte] H1 H2 _ _ _ _ _)).
  - reflexivity.
  - reflexivity.
  - repeat constructor.
  - repeat constructor.
  - vm_compute. repeat split; intros; discriminate.
Defined.

(** * Further properties of the library *)

(** ** The scan for a handle *)

Lemma get_reader_by_handle_from_first (rs : list ring_buffer_reader_t) (h : Z) (i k : nat) :
  get_reader_by_handle_from i rs h = Some k ->
  forall j r, (j < k - i)%nat -> rs !! j = Some r -> handle r ≠ h.
Proof.
  revert i. induction rs as [|r0 rs IH]; intros i Hget j r Hj Hr; [discriminate|].
  cbn [get_reader_by_handle_from] in Hget.
  destruct (Z.eqb_spec (handle r0) h) as [|Hne].
  - injection Hget as <-. lia.
  - destruct j as [|j]; cbn in Hr.
    + injection Hr as <-. exact Hne.
    + apply (IH (S i) Hget j r); [lia|exact Hr].
Qed.

(** X3: [_mrrb_get_reader_by_handle] returns the first reader of the array whose
    handle is the one asked for, and no reader exactly when no reader of the
    array has that handle: of two readers initialised with the same handle,
    the second is never found. *)
Theorem get_reader_by_handle_first_match (mrrb : multi_reader_ring_buffer_t) (h : Z) :
  match _mrrb_get_reader_by_handle mrrb h with
  | Some k =>
      (exists r, readers mrrb !! k = Some r ∧ handle r = h) ∧
      (forall j r, (j < k)%nat -> readers mrrb !! j = Some r -> handle r ≠ h)
  | None => forall j r, readers mrrb !! j = Some r -> handle r ≠ h
  end.
Proof.
  destruct (_mrrb_get_reader_by_handle mrrb h) as [k|] eqn:Hget.
  - split; [exact (get_reader_by_handle_Some _ _ _ Hget)|].
    intros j r Hj Hr. unfold _mrrb_get_reader_by_handle in Hget.
    apply (get_reader_by_handle_from_first _ _ _ _ Hget j r); [lia|exact Hr].
  - intros j r Hr. unfold _mrrb_get_reader_by_handle in Hget.
    apply (proj1 (get_reader_by_handle_from_None _ _ _) Hget).
    eapply list_elem_of_lookup_2. exact Hr.
Qed.

(** ** Full and empty *)

Lemma is_full_loop_found (rs : list ring_buffer_reader_t) :
  is_full_loop rs = 1 ->
  exists r, r ∈ rs ∧ status r = MRRB_READER_STATUS_ACTIVE ∧ is_full r = true.
Proof.
  induction rs as [|r rs IH]; cbn [is_full_loop]; [discriminate|].
  destruct (bool_decide (status r = MRRB_READER_STATUS_ACTIVE)) eqn:Hst.
  - destruct (is_full r) eqn:Hf; cbn [andb].
    + intros _. exists r. apply bool_decide_eq_true_1 in Hst.
      split; [constructor|]. split; assumption.
    + intros H. destruct (IH H) as (r' & Hin & H'). exists r'. split; [now constructor|exact H'].
  - cbn [andb]. intros H. destruct (IH H) as (r' & Hin & H').
    exists r'. split; [now constructor|exact H'].
Qed.

(** X4: [mrrb_is_full] and [mrrb_is_empty] never both answer 1: when
    [mrrb_is_full] returns 1 no byte can be written without an overrun
    ([mrrb_get_remaining_space] is 0) and [mrrb_is_empty] returns 0. *)
Theorem mrrb_is_full_not_empty (mrrb : multi_reader_ring_buffer_t) :
  0 < buffer_length mrrb ->
  mrrb_is_full (Some mrrb) = 1 ->
  mrrb_get_remaining_space (Some mrrb) = 0 ∧ mrrb_is_empty (Some mrrb) = 0.
Proof.
  intros HN Hfull. cbn [mrrb_is_full] in Hfull.
  destruct (is_full_loop_found _ Hfull) as (r & Hin & Hst & Hf).
  apply list_elem_of_lookup_1 in Hin as [k Hk].
  pose proof (get_remaining_space_le mrrb k r Hk) as Hle.
  pose proof (get_remaining_space_bounds mrrb) as [H0 _].
  assert (Hr : _mrrb_reader_get_remaining_space mrrb r = 0).
  { unfold _mrrb_reader_get_remaining_space, is_disabled. rewrite Hst, Hf. reflexivity. }
  assert (Hz : mrrb_get_remaining_space (Some mrrb) = 0) by lia.
  split; [exact Hz|]. unfold mrrb_is_empty. rewrite Hz.
  destruct (Z.eqb_spec 0 (buffer_length mrrb)); [lia|reflexivity].
Qed.

Lemma mrrb_is_full_not_empty_witness :
  0 < buffer_length
        (run example_blocking [op_write ["a"; "b"; "c"; "d"; "e"; "f"; "g"; "h"]%byte]).1 ∧
  mrrb_is_full
    (Some (run example_blocking [op_write ["a"; "b"; "c"; "d"; "e"; "f"; "g"; "h"]%byte]).1)
  = 1 ∧
  mrrb_is_empty
    (Some (run example_blocking [op_write ["a"; "b"; "c"; "d"; "e"; "f"; "g"; "h"]%byte]).1)
  = 0.
Proof.
  assert (H1 : 0 < buffer_length
                     (run example_blocking
                        [op_write ["a"; "b"; "c"; "d"; "e"; "f"; "g"; "h"]%byte]).1)
    by reflexivity.
  assert (H2 : mrrb_is_full
                 (Some (run example_blocking
                          [op_write ["a"; "b"; "c"; "d"; "e"; "f"; "g"; "h"]%byte]).1) = 1)
    by reflexivity.
  split; [exact H1|]. split; [exact H2|].
  exact (proj2 (mrrb_is_full_not_empty _ H1 H2)).
Defined.

(** ** Remaining and overwritable space *)

Lemma foldl_min_ext (f g : ring_buffer_reader_t -> Z) (rs : list ring_buffer_reader_t) (n : Z) :
  (forall r, r ∈ rs -> f r = g r) ->
  foldl (fun a r => if f r <? a then f r else a) n rs
  = foldl (fun a r => if g r <? a then g r else a) n rs.
Proof.
  revert n. induction rs as [|r rs IH]; intros n H; [reflexivity|].
  cbn [foldl]. rewrite (H r) by constructor. apply IH.
  intros r' Hr'. apply H. now constructor.
Qed.

Lemma overwritable_space_reader (m : multi_reader_ring_buffer_t) (r : ring_buffer_reader_t) :
  _mrrb_reader_get_overwritable_space m r = _mrrb_reader_get_remaining_space m r ∨
  _mrrb_reader_get_overwritable_space m r = buffer_length m.
Proof.
  unfold _mrrb_reader_get_overwritable_space. destruct (overrun_policy r); auto.
Qed.

(** X5: the space that a write can use after overrun clearing is never below
    the space it can use without: [mrrb_get_remaining_space] is at most
    [mrrb_get_overwritable_space], which is at most the buffer length; the
    two are equal when every enabled reader is BLOCKING, so that a write
    then never clears. *)
Theorem overwritable_space_bounds (mrrb : multi_reader_ring_buffer_t) :
  mrrb_get_remaining_space (Some mrrb) <= mrrb_get_overwritable_space (Some mrrb)
    <= buffer_length mrrb ∧
  ((forall r, r ∈ readers mrrb -> is_disabled r = false ->
      overrun_policy r = MRRB_READER_OVERRUN_BLOCKING) ->
   mrrb_get_overwritable_space (Some mrrb) = mrrb_get_remaining_space (Some mrrb)).
Proof.
  unfold mrrb_get_overwritable_space, mrrb_get_remaining_space.
  destruct (foldl_min (_mrrb_reader_get_overwritable_space mrrb) (readers mrrb)
              (buffer_length mrrb)) as (Hle & _ & Hat).
  destruct (foldl_min (_mrrb_reader_get_remaining_space mrrb) (readers mrrb)
              (buffer_length mrrb)) as (Hle' & Hall' & _).
  cbv zeta in *. split; [split; [|exact Hle]|].
  - destruct Hat as [->|(r & Hin & ->)]; [exact Hle'|].
    destruct (overwritable_space_reader mrrb r) as [->| ->]; [apply Hall'; exact Hin|exact Hle'].
  - intros Hpol. apply foldl_min_ext. intros r Hin.
    unfold _mrrb_reader_get_overwritable_space.
    destruct (is_disabled r) eqn:Hd.
    + unfold _mrrb_reader_get_remaining_space. rewrite Hd. destruct (overrun_policy r); reflexivity.
    + rewrite (Hpol r Hin Hd). reflexivity.
Qed.

(** ** Moving a cursor *)

(** X6: [_mrrb_advance_pointer] keeps a cursor inside the ring, two advances by
    [a] and [b] are one advance by [a + b] as long as [a + b] is at most the
    buffer length, and going forward from a cursor to the cursor advanced by
    [a >= 1] bytes meets [a] bytes. *)
Theorem advance_pointer_compose (mrrb : multi_reader_ring_buffer_t) (ptr a b : Z) :
  buffer_length mrrb < 4294967296 ->
  in_ring mrrb ptr -> 0 <= a -> 0 <= b -> a + b <= buffer_length mrrb ->
  in_ring mrrb (_mrrb_advance_pointer mrrb ptr a) ∧
  _mrrb_advance_pointer mrrb (_mrrb_advance_pointer mrrb ptr a) b
    = _mrrb_advance_pointer mrrb ptr (a + b) ∧
  (0 < a ->
   forward_distance (buffer_length mrrb) ptr (_mrrb_advance_pointer mrrb ptr a) = a).
Proof.
  intros HN Hp Ha Hb Hab.
  assert (Hin : in_ring mrrb (_mrrb_advance_pointer mrrb ptr a))
    by (apply advance_pointer_in_ring; [assumption..|lia]).
  split; [exact Hin|]. split.
  - rewrite (advance_pointer_mod mrrb _ b), (advance_pointer_mod mrrb ptr a),
      (advance_pointer_mod mrrb ptr (a + b)); try assumption; try lia.
    + rewrite Z.add_mod_idemp_l by (unfold in_ring in Hp; lia). f_equal. lia.
  - intros Hpos. rewrite (advance_pointer_mod mrrb ptr a) by (assumption || lia).
    unfold in_ring in Hp. rewrite add_mod_linear by lia.
    unfold forward_distance.
    destruct (Z.ltb_spec (ptr + a) (buffer_length mrrb)).
    + destruct (Z.eqb_spec (ptr + a) ptr); [lia|].
      replace (ptr + a - ptr) with a by lia. apply Z.mod_small. lia.
    + destruct (Z.eqb_spec (ptr + a - buffer_length mrrb) ptr); [lia|].
      replace (ptr + a - buffer_length mrrb - ptr) with (a + (-1) * buffer_length mrrb) by lia.
      rewrite Z.mod_add by lia. apply Z.mod_small. lia.
Qed.

Lemma advance_pointer_compose_witness :
  buffer_length example_blocking < 4294967296 ∧ in_ring example_blocking 6 ∧
  _mrrb_advance_pointer example_blocking (_mrrb_advance_pointer example_blocking 6 3) 4
    = _mrrb_advance_pointer example_blocking 6 (3 + 4).
Proof.
  assert (H1 : buffer_length example_blocking < 4294967296) by reflexivity.
  assert (H2 : in_ring example_blocking 6) by (split; [discriminate|reflexivity]).
  split; [exact H1|]. split; [exact H2|].
  refine (proj1 (proj2 (advance_pointer_compose example_blocking 6 3 4 H1 H2 _ _ _)));
    vm_compute; discriminate.
Defined.

(** ** Writes that are refused before the lock *)

(** X7: [mrrb_write] returns before it takes the lock, with the MRRB untouched
    and no callback invoked, when [data] is NULL (-1), when [data_length] is
    0 (0), and when it is called from an interrupt while
    [MRRB_ALLOW_WRITE_FROM_ISR] is 0: the latter returns 0, as a write into
    a full ring does, whatever space the ring has. *)
Theorem mrrb_write_refused (p : port_t) (mrrb : multi_reader_ring_buffer_t)
    (data : option (list byte)) (data_length : Z) :
  data = None ∨ data_length = 0 ∨
    (allow_write_from_isr p = false ∧ port_interrupt_active p ≠ 0) ->
  mrrb_write p mrrb data data_length = (match data with Some _ => 0 | None => -1 end, mrrb, []).
Proof.
  intros H. unfold mrrb_write. destruct data as [d|]; [|reflexivity].
  destruct H as [H|[->|[Hisr Hact]]]; [discriminate|reflexivity|].
  destruct (data_length =? 0); [reflexivity|].
  rewrite Hisr. destruct (Z.eqb_spec (port_interrupt_active p) 0); [contradiction|].
  reflexivity.
Qed.

Lemma mrrb_write_refused_witness :
  mrrb_write (mk_port false 1 (fun _ => 0) (fun _ => 0)) example_blocking
    (Some ["a"; "b"]%byte) 2 = (0, example_blocking, []).
Proof.
  apply (mrrb_write_refused (mk_port false 1 (fun _ => 0) (fun _ => 0)) example_blocking
           (Some ["a"; "b"]%byte) 2).
  right. right. split; [reflexivity|discriminate].
Defined.

Lemma first_lock_failure_no_change_witness :
  port_lock (port_fail_lock 0) 0 < 0 ∧
  mrrb_reader_disable (port_fail_lock 0) example_blocking (Some 0%nat)
  = (-1, example_blocking, []).
Proof.
  assert (H : port_lock (port_fail_lock 0) 0 < 0) by reflexivity.
  split; [exact H|].
  apply (first_lock_failure_no_change (port_fail_lock 0) example_blocking H).
Defined.

Lemma mrrb_write_port_ok (m : multi_reader_ring_buffer_t) (data : list byte) (n : Z) :
  n ≠ 0 ->
  let rsv := write_reserve m n (flags_zero (num_readers m)) in
  let aborts :=
    if rsv_abort_readers rsv
    then (for_readers (abort_body (rsv_flags rsv)) 0 (readers (rsv_mrrb rsv)) []).2
    else [] in
  let pub :=
    write_publish
      (write_copy (rsv_mrrb rsv) (rsv_write_pointer rsv) data
                  (rsv_continuous_write_length rsv) (rsv_spill_write_length rsv))
      (if rsv_abort_readers rsv then flags_zero (num_readers m) else rsv_flags rsv) in
  mrrb_write port_ok m (Some data) n = (to_int (rsv_write_length rsv), pub.1, aborts ++ pub.2).
Proof.
  intros Hn. cbv zeta. unfold mrrb_write.
  destruct (Z.eqb_spec n 0) as [|_]; [contradiction|].
  cbn [port_ok allow_write_from_isr port_interrupt_active port_lock port_unlock].
  destruct (write_publish _ _) as [m3 evs]. reflexivity.
Qed.

Lemma write_reserve_fields (m : multi_reader_ring_buffer_t) (n : Z) (fl : list Z) :
  let rsv := write_reserve m n fl in
  ongoing_writes (rsv_mrrb rsv) = u32 (ongoing_writes m + 1) ∧
  write_ptr (rsv_mrrb rsv) = write_ptr m ∧
  rsv_write_length rsv = (write_fit m n fl).2 ∧
  rsv_abort_readers rsv = (write_fit m n fl).1.2 ∧
  rsv_flags rsv = (write_fit m n fl).1.1.2 ∧
  forall k, readers (rsv_mrrb rsv) !! k
            = (fun r => flagged_reader (reservation_ptr (rsv_mrrb rsv)) (fitted_reader m n r))
                <$> readers m !! k.
Proof.
  cbv zeta. rewrite write_reserve_unfold. cbv zeta.
  cbn [rsv_mrrb rsv_flags rsv_abort_readers rsv_write_length
       ongoing_writes write_ptr readers reservation_ptr
       set_ongoing_writes set_readers set_reservation_ptr].
  destruct (write_fit_fields m n fl) as (_ & Hw & _ & Ho).
  rewrite Ho, Hw. repeat (split; [reflexivity|]).
  intros k. rewrite list_lookup_fmap, write_fit_lookup.
  destruct (readers m !! k); reflexivity.
Qed.

(** ** Port failures after the reservation *)

(** X8: when the first lock of [mrrb_write] is taken and then the first unlock
    or the second lock fails, the call returns -1 with the write counted as
    ongoing and never uncounted; the write pointer has not moved and no
    reader is notified (abort callbacks of the reservation phase may have
    run). *)
Theorem mrrb_write_late_failure (p : port_t) (mrrb : multi_reader_ring_buffer_t)
    (data : list byte) (data_length : Z) :
  data_length ≠ 0 ->
  allow_write_from_isr p = true ∨ port_interrupt_active p = 0 ->
  0 <= port_lock p 0 ->
  port_unlock p 0 < 0 ∨ port_lock p 1 < 0 ->
  (mrrb_write p mrrb (Some data) data_length).1.1 = -1 ∧
  ongoing_writes (mrrb_write p mrrb (Some data) data_length).1.2
    = u32 (ongoing_writes mrrb + 1) ∧
  write_ptr (mrrb_write p mrrb (Some data) data_length).1.2 = write_ptr mrrb ∧
  Forall is_abort (mrrb_write p mrrb (Some data) data_length).2.
Proof.
  intros Hn Hisr Hl Hfail.
  destruct (write_reserve_fields mrrb data_length (flags_zero (num_readers mrrb)))
    as (Ho & Hw & _).
  unfold mrrb_write.
  destruct (Z.eqb_spec data_length 0) as [|_]; [contradiction|].
  assert (Hi : negb (allow_write_from_isr p) && negb (port_interrupt_active p =? 0) = false).
  { destruct Hisr as [-> | ->]; [reflexivity|apply andb_false_r]. }
  rewrite Hi. destruct (Z.ltb_spec (port_lock p 0) 0) as [|_]; [lia|].
  set (rsv := write_reserve mrrb data_length (flags_zero (num_readers mrrb))) in *.
  destruct (Z.ltb_spec (port_unlock p 0) 0) as [|Hu].
  - cbn [fst snd]. repeat split; [exact Ho|exact Hw|constructor].
  - destruct Hfail as [|Hl1]; [lia|].
    destruct (Z.ltb_spec (port_lock p 1) 0) as [_|]; [|lia].
    cbn [fst snd write_copy set_buffer ongoing_writes write_ptr].
    repeat split; [exact Ho|exact Hw|].
    destruct (rsv_abort_readers rsv); [apply abort_events|constructor].
Qed.

Lemma mrrb_write_late_failure_witness :
  0 <= port_lock (port_fail_lock 1) 0 ∧ port_lock (port_fail_lock 1) 1 < 0 ∧
  ongoing_writes (mrrb_write (port_fail_lock 1) example_skip (Some ["a"; "b"]%byte) 2).1.2
  = u32 (ongoing_writes example_skip + 1).
Proof.
  assert (H0 : 0 <= port_lock (port_fail_lock 1) 0) by discriminate.
  assert (H1 : port_lock (port_fail_lock 1) 1 < 0) by reflexivity.
  split; [exact H0|]. split; [exact H1|].
  refine (proj1 (proj2 (mrrb_write_late_failure (port_fail_lock 1) example_skip
                          ["a"; "b"]%byte 2 _ _ H0 _))).
  - discriminate.
  - right. reflexivity.
  - right. exact H1.
Defined.

(** ** A write while another write is ongoing *)

Lemma cleared_reader_idle (m : multi_reader_ring_buffer_t) (requested : Z)
    (r : ring_buffer_reader_t) :
  status r = MRRB_READER_STATUS_IDLE -> cleared_reader m requested r = r.
Proof.
  intros Hst. unfold cleared_reader, clear_overrun_reader. rewrite Hst. reflexivity.
Qed.

Lemma fitted_reader_idle (m : multi_reader_ring_buffer_t) (n : Z) (r : ring_buffer_reader_t) :
  status r = MRRB_READER_STATUS_IDLE -> fitted_reader m n r = r.
Proof.
  intros Hst. unfold fitted_reader. rewrite cleared_reader_idle by assumption.
  destruct (_ <=? _); [reflexivity|]. destruct (_ >? _); reflexivity.
Qed.



(** ** Disabling and enabling a reader *)

(** X10: disabling a reader and enabling it again re-seats it whatever state it
    was in: both calls return 0 and the reader is IDLE, not full, with both
    cursors on the reservation pointer. The disable invokes the abort
    callback exactly when the reader was enabled and has one. *)
Theorem reader_disable_enable_reseats (mrrb : multi_reader_ring_buffer_t) (i : nat)
    (r : ring_buffer_reader_t) :
  readers mrrb !! i = Some r ->
  (mrrb_reader_disable port_ok mrrb (Some i)).1.1 = 0 ∧
  (mrrb_reader_disable port_ok mrrb (Some i)).2
    = (if is_disabled r || (abort_data r =? NULL) then [] else [abort_call i (handle r)]) ∧
  (mrrb_reader_enable port_ok (mrrb_reader_disable port_ok mrrb (Some i)).1.2 (Some i)).1 = 0 ∧
  reseated
    (mrrb_reader_enable port_ok (mrrb_reader_disable port_ok mrrb (Some i)).1.2 (Some i)).2 i.
Proof.
  intros Hr. pose proof (lookup_lt_Some _ _ _ Hr) as Hlt.
  unfold mrrb_reader_disable, port_ok. cbn [port_lock]. change (0 <? 0) with false.
  cbv iota. rewrite Hr.
  destruct (is_disabled r) eqn:Hd; cbn [orb fst snd].
  - split; [reflexivity|]. split; [reflexivity|].
    unfold mrrb_reader_enable. cbn [port_lock]. change (0 <? 0) with false. cbv iota.
    rewrite Hr, Hd. cbn [fst snd]. split; [reflexivity|].
    eexists. cbn [readers set_readers]. rewrite list_lookup_insert_eq by assumption.
    split; [reflexivity|]. cbn. auto.
  - destruct (abort_data r =? NULL); cbn [negb fst snd].
    all: split; [reflexivity|]; split; [reflexivity|].
    all: unfold mrrb_reader_enable; cbn [port_lock]; change (0 <? 0) with false; cbv iota.
    all: cbn [readers set_readers]; rewrite list_lookup_insert_eq by assumption.
    all: cbn [is_disabled status set_status fst snd]; split; [reflexivity|].
    all: eexists; cbn [readers set_readers];
      rewrite list_lookup_insert_eq by (rewrite length_insert; assumption).
    all: split; [reflexivity|]; cbn; auto.
Qed.

Lemma reader_disable_enable_reseats_witness :
  reseated
    (mrrb_reader_enable port_ok
       (mrrb_reader_disable port_ok
          (run example_skip [op_write ["a"; "b"; "c"]%byte]).1 (Some 0%nat)).1.2
       (Some 0%nat)).2 0.
Proof.
  refine (proj2 (proj2 (proj2 (reader_disable_enable_reseats
                                 (run example_skip [op_write ["a"; "b"; "c"]%byte]).1 0
                                 (default uninit_reader
                                    ((readers (run example_skip
                                                 [op_write ["a"; "b"; "c"]%byte]).1)
                                       !! 0%nat)) _)))).
  vm_compute. reflexivity.
Defined.

Lemma remaining_space_insert (m : multi_reader_ring_buffer_t) (i : nat)
    (x : ring_buffer_reader_t) :
  _mrrb_reader_get_remaining_space m x = buffer_length m ->
  mrrb_get_remaining_space (Some m)
  <= mrrb_get_remaining_space (Some (set_readers m (<[i := x]> (readers m)))).
Proof.
  intros Hx. unfold mrrb_get_remaining_space.
  destruct (foldl_min (_mrrb_reader_get_remaining_space m) (readers m) (buffer_length m))
    as (Hle & Hall & _).
  destruct (foldl_min (_mrrb_reader_get_remaining_space (set_readers m (<[i := x]> (readers m))))
              (readers (set_readers m (<[i := x]> (readers m))))
              (buffer_length (set_readers m (<[i := x]> (readers m)))))
    as (_ & _ & Hat).
  cbv zeta in *. destruct Hat as [->|(r & Hin & ->)]; [exact Hle|].
  change (_mrrb_reader_get_remaining_space (set_readers m (<[i := x]> (readers m))) r)
    with (_mrrb_reader_get_remaining_space m r).
  cbn [readers set_readers] in Hin.
  apply list_elem_of_lookup_1 in Hin as [j Hj].
  destruct (decide (i = j)) as [->|Hne].
  - apply list_lookup_insert_Some in Hj as [(_ & <- & _)|[? _]]; [|congruence].
    rewrite Hx. exact Hle.
  - rewrite list_lookup_insert_ne in Hj by assumption.
    apply Hall. eapply list_elem_of_lookup_2. exact Hj.
Qed.

(** X11: disabling a reader frees the writer from it: after
    [mrrb_reader_disable] the reader leaves the whole buffer to the writer,
    and the remaining space of the MRRB is not below what it was. *)
Theorem reader_disable_frees_space (mrrb : multi_reader_ring_buffer_t) (i : nat)
    (r : ring_buffer_reader_t) :
  readers mrrb !! i = Some r ->
  (exists r', readers (mrrb_reader_disable port_ok mrrb (Some i)).1.2 !! i = Some r' ∧
     is_disabled r' = true ∧
     _mrrb_reader_get_remaining_space (mrrb_reader_disable port_ok mrrb (Some i)).1.2 r'
     = buffer_length mrrb) ∧
  mrrb_get_remaining_space (Some mrrb)
  <= mrrb_get_remaining_space (Some (mrrb_reader_disable port_ok mrrb (Some i)).1.2).
Proof.
  intros Hr. pose proof (lookup_lt_Some _ _ _ Hr) as Hlt.
  unfold mrrb_reader_disable, port_ok. cbn [port_lock]. change (0 <? 0) with false.
  cbv iota. rewrite Hr.
  destruct (is_disabled r) eqn:Hd; cbn [fst snd].
  - split; [|lia]. exists r. split; [exact Hr|]. split; [exact Hd|].
    unfold _mrrb_reader_get_remaining_space. rewrite Hd. reflexivity.
  - destruct (abort_data r =? NULL); cbn [negb fst snd].
    all: split; [eexists; cbn [readers set_readers];
                 rewrite list_lookup_insert_eq by assumption;
                 split; [reflexivity|]; split; reflexivity|].
    all: apply remaining_space_insert; reflexivity.
Qed.

Lemma reader_disable_frees_space_witness :
  mrrb_get_remaining_space
    (Some (run example_blocking [op_write ["a"; "b"; "c"]%byte]).1)
  <= mrrb_get_remaining_space
       (Some (mrrb_reader_disable port_ok
                (run example_blocking [op_write ["a"; "b"; "c"]%byte]).1 (Some 0%nat)).1.2).
Proof.
  refine (proj2 (reader_disable_frees_space
                   (run example_blocking [op_write ["a"; "b"; "c"]%byte]).1 0
                   (default uninit_reader
                      ((readers (run example_blocking [op_write ["a"; "b"; "c"]%byte]).1)
                         !! 0%nat)) _)).
  vm_compute. reflexivity.
Defined.

(** ** Which abort callbacks a write invokes *)

Lemma abort_events_flagged (fl : list Z) (rs : list ring_buffer_reader_t) (e : event) :
  e ∈ (for_readers (abort_body fl) 0 rs []).2 ->
  exists k r, rs !! k = Some r ∧ flag_get fl k = true ∧ e = abort_call k (handle r).
Proof.
  pose proof (for_readers_acc (abort_body fl)
    (fun _ evs => forall e, e ∈ evs ->
       exists k r, rs !! k = Some r ∧ flag_get fl k = true ∧ e = abort_call k (handle r))
    rs 0 []) as H.
  intros He. apply H; [| |exact He]; clear H He.
  - intros e' He'. inversion He'.
  - intros k r evs Hr IH e' He'. cbn [Nat.add] in *. unfold abort_body in He'.
    destruct (flag_get fl k) eqn:Hf; cbn [snd] in He'; [|auto].
    apply elem_of_app in He' as [He'|He']; [auto|].
    apply list_elem_of_singleton in He' as ->. eauto.
Qed.

(** The abort flags after the clearing loop are those set before it and
    those of the readers whose iteration sets one. *)
Lemma clear_overrun_space_flag_exact (m : multi_reader_ring_buffer_t) (requested : Z)
    (flags : list Z) (k : nat) :
  (k / 8 < length flags)%nat ->
  flag_get (_mrrb_clear_overrun_space m requested flags).1.2 k
  = flag_get flags k ||
    match readers m !! k with
    | Some r => raises_abort_flag m requested r
    | None => false
    end.
Proof.
  intros Hk. unfold _mrrb_clear_overrun_space.
  pose proof (for_readers_acc (clear_overrun_body m requested)
    (fun j acc => length acc.1 = length flags ∧
       flag_get acc.1 k
       = flag_get flags k ||
         (if decide (k < j)%nat
          then match readers m !! k with
               | Some r => raises_abort_flag m requested r
               | None => false
               end
          else false))
    (readers m) 0 (flags, buffer_length m)) as H.
  destruct (for_readers _ _ _ _) as [rs [fl cs]]. cbn [fst snd Nat.add] in *.
  destruct H as [_ H].
  - split; [reflexivity|]. destruct (decide (k < 0)%nat); [lia|]. rewrite orb_false_r.
    reflexivity.
  - intros j r0 [fl0 cs0] Hr0 [Hlen Hget]. cbn [fst snd] in *.
    unfold clear_overrun_body.
    destruct (clear_overrun_reader m requested r0) as [[[r0' fg] s0]|] eqn:E0; cbn [fst snd].
    + destruct fg.
      * rewrite length_flag_set. split; [assumption|].
        destruct (decide (k = j)) as [->|Hne].
        -- rewrite flag_get_set_eq by (rewrite Hlen; exact Hk).
           destruct (decide (j < S j)%nat); [|lia].
           rewrite Hr0. unfold raises_abort_flag. rewrite E0. rewrite orb_true_r. reflexivity.
        -- rewrite flag_get_set_ne by auto. rewrite Hget.
           destruct (decide (k < j)%nat), (decide (k < S j)%nat); try lia; reflexivity.
      * split; [assumption|]. rewrite Hget.
        destruct (decide (k = j)) as [->|Hne].
        -- destruct (decide (j < j)%nat); [lia|]. destruct (decide (j < S j)%nat); [|lia].
           rewrite Hr0. unfold raises_abort_flag. rewrite E0. reflexivity.
        -- destruct (decide (k < j)%nat), (decide (k < S j)%nat); try lia; reflexivity.
    + split; [assumption|]. rewrite Hget.
      destruct (decide (k = j)) as [->|Hne].
      * destruct (decide (j < j)%nat); [lia|]. destruct (decide (j < S j)%nat); [|lia].
        rewrite Hr0. unfold raises_abort_flag. rewrite E0. reflexivity.
      * destruct (decide (k < j)%nat), (decide (k < S j)%nat); try lia; reflexivity.
  - rewrite H. destruct (decide (k < length (readers m))%nat) as [|Hge]; [reflexivity|].
    rewrite (lookup_ge_None_2 (readers m) k) by lia. reflexivity.
Qed.

Lemma clear_overrun_space_flags_length (m : multi_reader_ring_buffer_t) (requested : Z)
    (flags : list Z) :
  length (_mrrb_clear_overrun_space m requested flags).1.2 = length flags.
Proof.
  unfold _mrrb_clear_overrun_space.
  pose proof (for_readers_acc (clear_overrun_body m requested)
    (fun _ acc => length acc.1 = length flags)
    (readers m) 0 (flags, buffer_length m)) as H.
  destruct (for_readers _ _ _ _) as [rs [fl cs]]. cbn [fst snd] in *.
  apply H; [reflexivity|].
  intros j r0 [fl0 cs0] _ Hlen. cbn [fst snd] in *. unfold clear_overrun_body.
  destruct (clear_overrun_reader m requested r0) as [[[r0' [|]] s0]|]; cbn [fst snd];
    rewrite ?length_flag_set; assumption.
Qed.

(** An iteration of the clearing loop sets the abort flag of a reader only
    when the reader is enabled, not IDLE and leaves less than the requested
    space, and then for a DISABLE reader with an abort callback and for an
    ACTIVE SKIP reader. *)
Lemma raises_abort_flag_overrun (m : multi_reader_ring_buffer_t) (requested : Z)
    (r : ring_buffer_reader_t) :
  raises_abort_flag m requested r = true ->
  is_disabled r = false ∧ status r ≠ MRRB_READER_STATUS_IDLE ∧
  _mrrb_reader_get_remaining_space m r < requested ∧
  (overrun_policy r = MRRB_READER_OVERRUN_DISABLE ∧ abort_data r ≠ NULL ∨
   overrun_policy r = MRRB_READER_OVERRUN_SKIP ∧ status r = MRRB_READER_STATUS_ACTIVE).
Proof.
  unfold raises_abort_flag, clear_overrun_reader, is_disabled.
  destruct (status r) eqn:Hst; try discriminate.
  all: destruct (Z.ltb_spec (_mrrb_reader_get_remaining_space m r) requested) as [Hlt|];
    [|discriminate].
  all: destruct (overrun_policy r) eqn:Hpol; try discriminate.
  all: try (destruct (Z.eqb_spec (abort_data r) NULL); cbn [negb]; [discriminate|];
            intros _; repeat split; auto; discriminate).
  all: try (match goal with
            | |- context [if ?c then _ else _] => destruct c
            end; cbn; try discriminate; intros _; repeat split; auto; discriminate).
Qed.

Lemma write_fit_flag_inv (m : multi_reader_ring_buffer_t) (n : Z) (k : nat) :
  flag_get (write_fit m n (flags_zero (num_readers m))).1.1.2 k = true ->
  (write_fit m n (flags_zero (num_readers m))).1.2 = true ∧
  exists r, readers m !! k = Some r ∧
    raises_abort_flag m (if n <=? buffer_length m then n else buffer_length m) r = true.
Proof.
  unfold write_fit. destruct (_ <=? _); [cbn; rewrite flag_get_zero; discriminate|].
  destruct (_ >? _); [|cbn; rewrite flag_get_zero; discriminate].
  pose proof (clear_overrun_space_flag_exact m
                (if n <=? buffer_length m then n else buffer_length m)
                (flags_zero (num_readers m)) k) as Hex.
  pose proof (clear_overrun_space_flags_length m
                (if n <=? buffer_length m then n else buffer_length m)
                (flags_zero (num_readers m))) as Hlen.
  destruct (_mrrb_clear_overrun_space _ _ _) as [[m' fl'] s']. cbn [fst snd] in *.
  intros Hf. split; [reflexivity|].
  assert (Hk : (k / 8 < length (flags_zero (num_readers m)))%nat).
  { unfold flag_get in Hf. destruct (fl' !! (k / 8)%nat) eqn:E; [|discriminate].
    rewrite <- Hlen. eapply lookup_lt_Some. exact E. }
  rewrite Hex, flag_get_zero in Hf by exact Hk. cbn [orb] in Hf.
  destruct (readers m !! k) as [r|]; [|discriminate]. eauto.
Qed.

Lemma cleared_reader_identity (m : multi_reader_ring_buffer_t) (requested : Z)
    (r : ring_buffer_reader_t) :
  same_identity r (cleared_reader m requested r).
Proof.
  unfold same_identity, cleared_reader, clear_overrun_reader.
  destruct (status r) eqn:Hst; try (repeat split; reflexivity).
  all: destruct (_ <? _); [|repeat split; reflexivity].
  all: destruct (overrun_policy r) eqn:Hpol;
    [repeat split; cbn; congruence|destruct (negb _); repeat split; cbn; congruence|].
  all: cbv beta iota zeta.
  all: repeat match goal with
              | |- context [if ?c then _ else _] => destruct c
              end.
  all: repeat split; cbn; congruence.
Qed.

Lemma fitted_reader_identity (m : multi_reader_ring_buffer_t) (n : Z)
    (r : ring_buffer_reader_t) :
  same_identity r (fitted_reader m n r).
Proof.
  unfold fitted_reader. destruct (_ <=? _); [repeat split|].
  destruct (_ >? _); [apply cleared_reader_identity|repeat split].
Qed.

Lemma flagged_reader_identity (res : Z) (r : ring_buffer_reader_t) :
  same_identity r (flagged_reader res r).
Proof. unfold flagged_reader. destruct (is_disabled r); repeat split. Qed.

Lemma published_reader_identity (m : multi_reader_ring_buffer_t) (r : ring_buffer_reader_t) :
  same_identity r (published_reader m r).
Proof.
  unfold published_reader, publish_body. destruct (status r); repeat split.
Qed.

Lemma same_identity_trans (r1 r2 r3 : ring_buffer_reader_t) :
  same_identity r1 r2 -> same_identity r2 r3 -> same_identity r1 r3.
Proof. unfold same_identity. intuition congruence. Qed.

Lemma same_identity_refl (r : ring_buffer_reader_t) : same_identity r r.
Proof. repeat split. Qed.

Lemma notify_events_not_abort (m : multi_reader_ring_buffer_t) (fl : list Z)
    (rs : list ring_buffer_reader_t) (k : nat) (h : Z) :
  abort_call k h ∉ (for_readers (notify_body m fl) 0 rs []).2.
Proof.
  intros Hin. pose proof (notify_events m fl rs) as H.
  rewrite Forall_forall in H. destruct (H _ Hin) as (? & ? & _ & _ & Heq). discriminate.
Qed.

Lemma write_publish_no_abort (m : multi_reader_ring_buffer_t) (fl : list Z) (k : nat) (h : Z) :
  abort_call k h ∉ (write_publish m fl).2.
Proof.
  unfold write_publish. destruct (_ =? 0); [|cbn; apply not_elem_of_nil].
  rewrite (for_readers_pair (publish_body _)). cbv beta iota zeta.
  rewrite (for_readers_pair (notify_body _ _)). cbn [snd].
  apply notify_events_not_abort.
Qed.

Lemma abort_call_overrun (p : port_t) (mrrb : multi_reader_ring_buffer_t)
    (data : option (list byte)) (data_length : Z) (k : nat) (h : Z) :
  abort_call k h ∈ (mrrb_write p mrrb data data_length).2 ->
  exists r, readers mrrb !! k = Some r ∧ handle r = h ∧
    is_disabled r = false ∧ status r ≠ MRRB_READER_STATUS_IDLE ∧
    _mrrb_reader_get_remaining_space mrrb r
      < (if data_length <=? buffer_length mrrb then data_length else buffer_length mrrb) ∧
    (overrun_policy r = MRRB_READER_OVERRUN_DISABLE ∧ abort_data r ≠ NULL ∨
     overrun_policy r = MRRB_READER_OVERRUN_SKIP ∧ status r = MRRB_READER_STATUS_ACTIVE).
Proof.
  intros Hin.
  assert (Hab : (write_fit mrrb data_length (flags_zero (num_readers mrrb))).1.2 = true ∧
                abort_call k h ∈
                  (for_readers
                     (abort_body (write_fit mrrb data_length
                                    (flags_zero (num_readers mrrb))).1.1.2) 0
                     (readers (rsv_mrrb (write_reserve mrrb data_length
                                           (flags_zero (num_readers mrrb))))) []).2).
  { unfold mrrb_write in Hin. destruct data as [d|]; [|inversion Hin].
    destruct (data_length =? 0); [inversion Hin|].
    destruct (_ && _); [inversion Hin|].
    destruct (port_lock p 0 <? 0); [inversion Hin|].
    destruct (port_unlock p 0 <? 0); [inversion Hin|].
    rewrite write_reserve_unfold in Hin |- *. cbv zeta in Hin |- *.
    cbn [rsv_mrrb rsv_flags rsv_abort_readers rsv_write_pointer rsv_continuous_write_length
         rsv_spill_write_length rsv_write_length] in Hin |- *.
    destruct ((write_fit mrrb data_length (flags_zero (num_readers mrrb))).1.2) eqn:Hfl.
    - split; [reflexivity|].
      destruct (port_lock p 1 <? 0); [exact Hin|].
      match type of Hin with
      | context [write_publish ?a ?b] =>
          pose proof (write_publish_no_abort a b k h) as Hno;
          destruct (write_publish a b) as [m3 nt]
      end.
      cbn [snd] in *. apply elem_of_app in Hin as [Hin|Hin]; [exact Hin|contradiction].
    - exfalso. destruct (port_lock p 1 <? 0); [inversion Hin|].
      match type of Hin with
      | context [write_publish ?a ?b] =>
          pose proof (write_publish_no_abort a b k h) as Hno;
          destruct (write_publish a b) as [m3 nt]
      end.
      cbn [snd app] in *. contradiction. }
  destruct Hab as [_ Hab].
  apply abort_events_flagged in Hab as (k' & r2 & Hr2 & Hflag & [= <- ->]).
  apply write_fit_flag_inv in Hflag as (_ & r & Hr & Hraise).
  exists r. split; [exact Hr|].
  rewrite write_reserve_unfold in Hr2. cbv zeta in Hr2. cbn [rsv_mrrb] in Hr2.
  cbn [readers set_ongoing_writes set_readers] in Hr2.
  rewrite list_lookup_fmap, write_fit_lookup, Hr in Hr2.
  cbn [fmap option_fmap option_map] in Hr2. injection Hr2 as <-.
  split.
  { destruct (flagged_reader_identity
                (if (write_fit mrrb data_length (flags_zero (num_readers mrrb))).2 >=?
                    u32 (buffer_length (write_fit mrrb data_length
                                          (flags_zero (num_readers mrrb))).1.1.1 -
                         reservation_ptr (write_fit mrrb data_length
                                            (flags_zero (num_readers mrrb))).1.1.1)
                 then u32 ((write_fit mrrb data_length (flags_zero (num_readers mrrb))).2 -
                           u32 (buffer_length (write_fit mrrb data_length
                                                 (flags_zero (num_readers mrrb))).1.1.1 -
                                reservation_ptr (write_fit mrrb data_length
                                                   (flags_zero (num_readers mrrb))).1.1.1))
                 else reservation_ptr (write_fit mrrb data_length
                                         (flags_zero (num_readers mrrb))).1.1.1 +
                      (write_fit mrrb data_length (flags_zero (num_readers mrrb))).2)
                (fitted_reader mrrb data_length r)) as [Hh _].
    destruct (fitted_reader_identity mrrb data_length r) as [Hh' _]. congruence. }
  apply raises_abort_flag_overrun. exact Hraise.
Qed.

(** X12: whatever the port does and whatever state the MRRB is in, [mrrb_write]
    invokes the abort callback only of a reader that is enabled, not IDLE
    and leaves less space than the request min(data_length, buffer_length),
    passing the reader's handle; such a reader has the DISABLE policy and an
    abort callback, or the SKIP policy and is ACTIVE. The abort callback of
    a BLOCKING reader is never invoked by a write. *)
Theorem mrrb_write_abort_callbacks (p : port_t) (mrrb : multi_reader_ring_buffer_t)
    (data : option (list byte)) (data_length : Z) (k : nat) (h : Z) :
  abort_call k h ∈ (mrrb_write p mrrb data data_length).2 ->
  exists r, readers mrrb !! k = Some r ∧ handle r = h ∧
    is_disabled r = false ∧ status r ≠ MRRB_READER_STATUS_IDLE ∧
    _mrrb_reader_get_remaining_space mrrb r
      < (if data_length <=? buffer_length mrrb then data_length else buffer_length mrrb) ∧
    (overrun_policy r = MRRB_READER_OVERRUN_DISABLE ∧ abort_data r ≠ NULL ∨
     overrun_policy r = MRRB_READER_OVERRUN_SKIP ∧ status r = MRRB_READER_STATUS_ACTIVE).
Proof. apply abort_call_overrun. Qed.

Lemma mrrb_write_abort_callbacks_witness :
  abort_call 0 1 ∈
    (mrrb_write port_ok (run example_skip [op_write ["a"; "b"; "c"; "d"]%byte]).1
                (Some ["e"; "f"; "g"; "h"]%byte) 4).2 ∧
  exists r,
    readers (run example_skip [op_write ["a"; "b"; "c"; "d"]%byte]).1 !! 0%nat = Some r ∧
    handle r = 1 ∧ status r = MRRB_READER_STATUS_ACTIVE.
Proof.
  assert (H : abort_call 0 1 ∈
                (mrrb_write port_ok (run example_skip [op_write ["a"; "b"; "c"; "d"]%byte]).1
                            (Some ["e"; "f"; "g"; "h"]%byte) 4).2)
    by (vm_compute; constructor).
  split; [exact H|].
  destruct (mrrb_write_abort_callbacks _ _ _ _ _ _ H)
    as (r & Hr & Hh & _ & _ & _ & [[Hpol _]|[_ Hst]]).
  - exfalso. vm_compute in Hr. injection Hr as <-. discriminate Hpol.
  - exists r. auto.
Defined.

(** ** Overrun clearing of a DISABLE reader *)

(** X13: during overrun clearing, a reader with the DISABLE policy that is
    enabled, not IDLE and leaves less than the requested space is switched
    off without its cursors being moved: to DISABLING with its abort flag
    set when it has an abort callback, to DISABLED without a flag when it
    has none. *)
Theorem clear_overrun_space_disable (mrrb : multi_reader_ring_buffer_t) (requested : Z)
    (flags : list Z) (i : nat) (r : ring_buffer_reader_t) :
  (i / 8 < length flags)%nat ->
  readers mrrb !! i = Some r ->
  overrun_policy r = MRRB_READER_OVERRUN_DISABLE ->
  is_disabled r = false -> status r ≠ MRRB_READER_STATUS_IDLE ->
  _mrrb_reader_get_remaining_space mrrb r < requested ->
  readers (_mrrb_clear_overrun_space mrrb requested flags).1.1 !! i
  = Some (set_status r (if abort_data r =? NULL then MRRB_READER_STATUS_DISABLED
                        else MRRB_READER_STATUS_DISABLING)) ∧
  flag_get (_mrrb_clear_overrun_space mrrb requested flags).1.2 i
  = flag_get flags i || negb (abort_data r =? NULL).
Proof.
  intros Hi Hr Hpol Hen Hidle Hsp.
  assert (Hc : clear_overrun_reader mrrb requested r
               = Some (set_status r (if abort_data r =? NULL then MRRB_READER_STATUS_DISABLED
                                     else MRRB_READER_STATUS_DISABLING),
                       negb (abort_data r =? NULL), buffer_length mrrb)).
  { unfold clear_overrun_reader. unfold is_disabled in Hen.
    destruct (status r); try discriminate; try contradiction.
    all: destruct (Z.ltb_spec (_mrrb_reader_get_remaining_space mrrb r) requested); [|lia].
    all: rewrite Hpol; destruct (abort_data r =? NULL); reflexivity. }
  split.
  - rewrite clear_overrun_space_lookup, Hr. cbn [fmap option_fmap option_map].
    unfold cleared_reader. rewrite Hc. reflexivity.
  - rewrite clear_overrun_space_flag_exact by exact Hi.
    rewrite Hr. unfold raises_abort_flag. rewrite Hc. reflexivity.
Qed.

Lemma clear_overrun_space_disable_witness :
  readers (_mrrb_clear_overrun_space
             (run example_null_handle_abort
                [op_write ["a"; "b"; "c"; "d"; "e"; "f"]%byte]).1 4 [0]).1.1 !! 0%nat
  = Some (set_status
            (default uninit_reader
               (readers (run example_null_handle_abort
                           [op_write ["a"; "b"; "c"; "d"; "e"; "f"]%byte]).1 !! 0%nat))
            (if abort_data
                  (default uninit_reader
                     (readers (run example_null_handle_abort
                                 [op_write ["a"; "b"; "c"; "d"; "e"; "f"]%byte]).1 !! 0%nat))
                =? NULL
             then MRRB_READER_STATUS_DISABLED else MRRB_READER_STATUS_DISABLING)).
Proof.
  refine (proj1 (clear_overrun_space_disable
                   (run example_null_handle_abort
                      [op_write ["a"; "b"; "c"; "d"; "e"; "f"]%byte]).1 4 [0] 0
                   (default uninit_reader
                      (readers (run example_null_handle_abort
                                  [op_write ["a"; "b"; "c"; "d"; "e"; "f"]%byte]).1 !! 0%nat))
                   _ _ _ _ _ _)).
  - vm_compute. lia.
  - vm_compute. reflexivity.
  - vm_compute. reflexivity.
  - vm_compute. reflexivity.
  - vm_compute. discriminate.
  - vm_compute. reflexivity.
Defined.

(** ** What a sequential execution keeps *)

Lemma length_slice (b : list byte) (off len : Z) :
  0 <= off -> 0 <= len -> off + len <= Z.of_nat (length b) ->
  Z.of_nat (length (slice b off len)) = len.
Proof.
  intros Ho Hl Hb. unfold slice. rewrite length_take, length_drop. lia.
Qed.

Lemma same_identity_insert (rs : list ring_buffer_reader_t) (i : nat)
    (r r' : ring_buffer_reader_t) :
  rs !! i = Some r -> same_identity r r' ->
  Forall2 same_identity rs (<[i := r']> rs).
Proof.
  intros Hr Hid. apply Forall2_lookup. intros k.
  destruct (decide (i = k)) as [->|Hne].
  - rewrite list_lookup_insert_eq by (eapply lookup_lt_Some; exact Hr).
    rewrite Hr. constructor. exact Hid.
  - rewrite list_lookup_insert_ne by assumption.
    destruct (rs !! k); constructor. apply same_identity_refl.
Qed.

Lemma same_identity_diag (rs : list ring_buffer_reader_t) : Forall2 same_identity rs rs.
Proof. apply Forall_Forall2_diag, Forall_forall. intros. apply same_identity_refl. Qed.

Lemma same_identity_fmap (f : ring_buffer_reader_t -> ring_buffer_reader_t)
    (rs rs' : list ring_buffer_reader_t) :
  (forall r, same_identity r (f r)) ->
  (forall k, rs' !! k = f <$> rs !! k) ->
  Forall2 same_identity rs rs'.
Proof.
  intros Hf Hlook. apply Forall2_lookup. intros k. rewrite Hlook.
  destruct (rs !! k); constructor. apply Hf.
Qed.

Lemma written_reader_identity (m fin : multi_reader_ring_buffer_t) (n res : Z)
    (r : ring_buffer_reader_t) :
  same_identity r (written_reader m n res fin r).
Proof.
  assert (H : same_identity r (published_reader m (flagged_reader res (fitted_reader m n r)))).
  { eapply same_identity_trans; [apply fitted_reader_identity|].
    eapply same_identity_trans; [apply flagged_reader_identity|].
    apply published_reader_identity. }
  unfold written_reader. cbv zeta. destruct (needs_notify _); [|exact H].
  destruct H as (H1 & H2 & H3 & H4). repeat split; assumption.
Qed.

Lemma event_sound_ext (m m' : multi_reader_ring_buffer_t) (e : event) :
  buffer_length m' = buffer_length m ->
  Forall2 same_identity (readers m') (readers m) ->
  event_sound m e -> event_sound m' e.
Proof.
  intros Hlen Hid. unfold event_sound.
  destruct e as [k h off len bs|k h].
  - intros [(r & Hr & Hh) Hb]. rewrite Hlen. split; [|exact Hb].
    destruct (Forall2_lookup_r _ _ _ _ _ Hid Hr) as (r' & Hr' & Hh' & _).
    exists r'. split; [exact Hr'|congruence].
  - intros (r & Hr & Hh & Hab).
    destruct (Forall2_lookup_r _ _ _ _ _ Hid Hr) as (r' & Hr' & Hh' & Hp & _ & Ha).
    exists r'. split; [exact Hr'|]. split; [congruence|]. rewrite <- Ha, <- Hp. exact Hab.
Qed.

(** A write on a quiescent MRRB. *)
Lemma write_sound (m : multi_reader_ring_buffer_t) (data : list byte) :
  quiescent m -> Z.of_nat (length data) < 4294967296 ->
  let w := mrrb_write port_ok m (Some data) (Z.of_nat (length data)) in
  buffer_length w.1.2 = buffer_length m ∧
  Forall2 same_identity (readers m) (readers w.1.2) ∧
  Forall (event_sound m) w.2.
Proof.
  intros Hq Hdata. cbv zeta. pose proof Hq as (HN & Hong & Hwr & Hres & Hrs).
  destruct (Z.eq_dec (Z.of_nat (length data)) 0) as [Hz|Hn].
  { unfold mrrb_write. rewrite Hz. cbn [Z.eqb fst snd].
    split; [reflexivity|]. split; [apply same_identity_diag|constructor]. }
  assert (Hpos : 0 < Z.of_nat (length data)) by lia.
  destruct (write_fit_length m _ (flags_zero (num_readers m)) Hpos) as [Hwl HwlN].
  destruct (mrrb_write_effect m data _ Hn Hong)
    as (_ & Hbuf & Hwp & Hrp & Ho & Hlook & aborts & notifies & Hev & Hab & Hnt & _).
  pose proof (abort_call_overrun port_ok m (Some data) (Z.of_nat (length data))) as Habort.
  set (w := mrrb_write port_ok m (Some data) (Z.of_nat (length data))) in *.
  set (wl := (write_fit m (Z.of_nat (length data)) (flags_zero (num_readers m))).2) in *.
  destruct (write_window m wl HN Hres ltac:(lia)) as (Hcrs & _ & Hres' & Hc & Hs & Hcs & Hcl).
  set (crs := u32 (buffer_length m - reservation_ptr m)) in *.
  set (res' := if wl >=? crs then u32 (wl - crs) else reservation_ptr m + wl) in *.
  assert (Hlen : buffer_length w.1.2 = buffer_length m).
  { unfold buffer_length. rewrite Hbuf. f_equal.
    unfold in_ring in *. apply length_write_copy; try lia.
    destruct (Z.ltb_spec (reservation_ptr m + wl) (buffer_length m)); lia. }
  split; [exact Hlen|]. split.
  { eapply same_identity_fmap; [|exact Hlook]. intros r. apply written_reader_identity. }
  rewrite Hev. apply Forall_app. split.
  - apply Forall_forall. intros e He.
    assert (Hin : e ∈ w.2) by (rewrite Hev; apply elem_of_app; left; exact He).
    rewrite Forall_forall in Hab. specialize (Hab e He).
    destruct e as [|k h]; [contradiction|].
    destruct (Habort k h Hin) as (r & Hr & Hh & _ & _ & _ & Hpol).
    exists r. split; [exact Hr|]. split; [exact Hh|].
    destruct Hpol as [[_ Ha]|[Hp _]]; auto.
  - eapply Forall_impl; [exact Hnt|].
    intros e (k & r0 & Hr0 & Hneed & ->). cbv zeta.
    destruct (Hrs _ _ Hr0) as (H1 & H2 & H3).
    destruct (written_reader_quiescent m w.1.2 (Z.of_nat (length data)) res' r0 HN Hpos)
      as (_ & Hrcp & _ & Hspan); try assumption.
    { rewrite Hwr. assumption. }
    specialize (Hspan Hneed). cbv zeta in Hrcp. unfold written_reader in Hrcp.
    cbv zeta in Hrcp. rewrite Hneed in Hrcp.
    change (read_complete_ptr (notified_reader w.1.2 ?r)) with (read_complete_ptr r) in Hrcp.
    set (r3 := published_reader m
                 (flagged_reader res' (fitted_reader m (Z.of_nat (length data)) r0))) in *.
    assert (Hup : read_complete_ptr r3
                  + _mrrb_reader_get_continuous_readable_space w.1.2 r3 <= buffer_length m).
    { rewrite continuous_readable_space_linear;
        [|rewrite Hlen; assumption|unfold in_ring; rewrite Hlen, Hwp; exact Hres'|exact Hrcp].
      rewrite Hlen, Hwp. unfold in_ring in *. rewrite Hlen in Hrcp.
      destruct (Z.gtb_spec (read_complete_ptr r3) res'); cbn [orb]; [lia|].
      destruct (is_full r3); lia. }
    unfold in_ring in Hrcp. rewrite Hlen in Hrcp.
    split.
    + exists r0. split; [exact Hr0|].
      destruct (written_reader_identity m w.1.2 (Z.of_nat (length data)) res' r0) as [Hh _].
      unfold written_reader in Hh. cbv zeta in Hh. rewrite Hneed in Hh.
      symmetry. exact Hh.
    + cbn [notify_in_buffer]. split; [lia|]. split; [exact Hspan|]. split; [exact Hup|].
      apply length_slice; [lia|lia|].
      fold (buffer_length w.1.2). rewrite Hlen. exact Hup.
Qed.

Lemma span_in_buffer (m : multi_reader_ring_buffer_t) (r : ring_buffer_reader_t) :
  buffer_length m < 4294967296 ->
  in_ring m (write_ptr m) -> in_ring m (read_complete_ptr r) ->
  read_complete_ptr r + _mrrb_reader_get_continuous_readable_space m r <= buffer_length m.
Proof.
  intros HN Hw Hr. rewrite continuous_readable_space_linear by assumption.
  unfold in_ring in *.
  destruct (Z.gtb_spec (read_complete_ptr r) (write_ptr m)); cbn [orb]; [lia|].
  destruct (is_full r); lia.
Qed.

Lemma notify_sound (m : multi_reader_ring_buffer_t) (i : nat) (r r' : ring_buffer_reader_t) :
  buffer_length m < 4294967296 ->
  in_ring m (write_ptr m) -> in_ring m (read_complete_ptr r') ->
  readers m !! i = Some r -> handle r' = handle r ->
  1 <= _mrrb_reader_get_continuous_readable_space m r' ->
  event_sound m
    (notify_call i (handle r') (read_complete_ptr r')
       (_mrrb_reader_get_continuous_readable_space m r')
       (slice (buffer m) (read_complete_ptr r')
              (_mrrb_reader_get_continuous_readable_space m r'))).
Proof.
  intros HN Hw Hrcp Hr Hh Hspan.
  pose proof (span_in_buffer m r' HN Hw Hrcp) as Hup. unfold in_ring in Hrcp.
  split; [exists r; split; [exact Hr|congruence]|].
  cbn [notify_in_buffer]. split; [lia|]. split; [exact Hspan|]. split; [exact Hup|].
  apply length_slice; [lia|lia|exact Hup].
Qed.

Lemma read_complete_sound (m : multi_reader_ring_buffer_t) (h : Z) :
  quiescent m ->
  buffer_length (mrrb_read_complete port_ok m h).1 = buffer_length m ∧
  Forall2 same_identity (readers m) (readers (mrrb_read_complete port_ok m h).1) ∧
  Forall (event_sound m) (mrrb_read_complete port_ok m h).2.
Proof.
  intros Hq. pose proof Hq as (HN & Hong & Hwr & Hres & Hrs).
  assert (Hsame : buffer_length m = buffer_length m ∧
                  Forall2 same_identity (readers m) (readers m) ∧
                  Forall (event_sound m) [])
    by (split; [reflexivity|split; [apply same_identity_diag|constructor]]).
  unfold mrrb_read_complete.
  destruct (h =? NULL); [exact Hsame|].
  destruct (_mrrb_get_reader_by_handle m h) as [i|]; [|exact Hsame].
  cbn [port_ok port_lock]. change (0 <? 0) with false. cbv iota.
  destruct (readers m !! i) as [r|] eqn:Hr; [|exact Hsame].
  destruct (Hrs _ _ Hr) as (H1 & H2 & H3).
  destruct (status r) eqn:Hst; try exact Hsame.
  set (r1 := set_read_complete_ptr (set_is_full r false) (read_ptr r)).
  destruct (Z.gtb_spec (_mrrb_reader_get_continuous_readable_space m r1) 0) as [Hgt|Hle];
    cbn [fst snd].
  - split; [reflexivity|]. split.
    + cbn [readers set_readers]. eapply same_identity_insert; [exact Hr|repeat split].
    + constructor; [|constructor].
      apply (notify_sound m i r
               (set_read_ptr r1
                  (_mrrb_advance_pointer m (read_complete_ptr r1)
                     (_mrrb_reader_get_continuous_readable_space m r1))));
        try assumption; try reflexivity; [rewrite Hwr; assumption|].
      change (_mrrb_reader_get_continuous_readable_space m (set_read_ptr r1 ?p))
        with (_mrrb_reader_get_continuous_readable_space m r1). lia.
  - split; [reflexivity|]. split; [|constructor].
    cbn [readers set_readers]. eapply same_identity_insert; [exact Hr|repeat split].
Qed.

Lemma abort_complete_sound (m : multi_reader_ring_buffer_t) (h : Z) :
  quiescent m ->
  buffer_length (mrrb_abort_complete port_ok m h).1 = buffer_length m ∧
  Forall2 same_identity (readers m) (readers (mrrb_abort_complete port_ok m h).1) ∧
  Forall (event_sound m) (mrrb_abort_complete port_ok m h).2.
Proof.
  intros Hq. pose proof Hq as (HN & Hong & Hwr & Hres & Hrs).
  assert (Hsame : buffer_length m = buffer_length m ∧
                  Forall2 same_identity (readers m) (readers m) ∧
                  Forall (event_sound m) [])
    by (split; [reflexivity|split; [apply same_identity_diag|constructor]]).
  unfold mrrb_abort_complete.
  destruct (h =? NULL); [exact Hsame|].
  destruct (_mrrb_get_reader_by_handle m h) as [i|]; [|exact Hsame].
  cbn [port_ok port_lock]. change (0 <? 0) with false. cbv iota.
  destruct (readers m !! i) as [r|] eqn:Hr; [|exact Hsame].
  destruct (Hrs _ _ Hr) as (H1 & H2 & H3).
  assert (Hins : forall r', same_identity r r' ->
            buffer_length (set_readers m (<[i := r']> (readers m))) = buffer_length m ∧
            Forall2 same_identity (readers m)
              (readers (set_readers m (<[i := r']> (readers m)))) ∧
            Forall (event_sound m) []).
  { intros r' Hid. split; [reflexivity|]. split; [|constructor].
    cbn [readers set_readers]. eapply same_identity_insert; eassumption. }
  destruct (status r) eqn:Hst; try exact Hsame.
  - destruct (Z.gtb_spec (_mrrb_reader_get_continuous_readable_space m r) 0) as [Hgt|Hle];
      cbn [andb]; [|apply Hins; repeat split].
    destruct (ongoing_writes m =? 0); [|apply Hins; repeat split].
    cbn [fst snd]. split; [reflexivity|]. split.
    + cbn [readers set_readers]. eapply same_identity_insert; [exact Hr|repeat split].
    + constructor; [|constructor].
      apply (notify_sound m i r
               (set_status
                  (set_read_ptr r
                     (_mrrb_advance_pointer m (read_complete_ptr r)
                        (_mrrb_reader_get_continuous_readable_space m r)))
                  MRRB_READER_STATUS_ACTIVE));
        try assumption; try reflexivity; [rewrite Hwr; assumption|].
      change (_mrrb_reader_get_continuous_readable_space m (set_status (set_read_ptr r ?p) ?s))
        with (_mrrb_reader_get_continuous_readable_space m r). lia.
  - apply Hins. repeat split.
Qed.

Lemma reader_enable_sound (m : multi_reader_ring_buffer_t) (i : nat) :
  buffer_length (mrrb_reader_enable port_ok m (Some i)).2 = buffer_length m ∧
  Forall2 same_identity (readers m) (readers (mrrb_reader_enable port_ok m (Some i)).2).
Proof.
  unfold mrrb_reader_enable. cbn [port_ok port_lock]. change (0 <? 0) with false. cbv iota.
  destruct (readers m !! i) as [r|] eqn:Hr;
    [|split; [reflexivity|apply same_identity_diag]].
  destruct (is_disabled r); [|split; [reflexivity|apply same_identity_diag]].
  cbn [snd]. split; [reflexivity|].
  cbn [readers set_readers]. eapply same_identity_insert; [exact Hr|repeat split].
Qed.

Lemma reader_disable_sound (m : multi_reader_ring_buffer_t) (i : nat) :
  buffer_length (mrrb_reader_disable port_ok m (Some i)).1.2 = buffer_length m ∧
  Forall2 same_identity (readers m) (readers (mrrb_reader_disable port_ok m (Some i)).1.2) ∧
  Forall (event_sound m) (mrrb_reader_disable port_ok m (Some i)).2.
Proof.
  assert (Hsame : buffer_length m = buffer_length m ∧
                  Forall2 same_identity (readers m) (readers m) ∧
                  Forall (event_sound m) [])
    by (split; [reflexivity|split; [apply same_identity_diag|constructor]]).
  unfold mrrb_reader_disable. cbn [port_ok port_lock]. change (0 <? 0) with false. cbv iota.
  destruct (readers m !! i) as [r|] eqn:Hr; [|exact Hsame].
  destruct (is_disabled r); [exact Hsame|].
  destruct (Z.eqb_spec (abort_data r) NULL) as [|Hab]; cbn [negb fst snd].
  - split; [reflexivity|]. split; [|constructor].
    cbn [readers set_readers]. eapply same_identity_insert; [exact Hr|repeat split].
  - split; [reflexivity|]. split.
    + cbn [readers set_readers]. eapply same_identity_insert; [exact Hr|repeat split].
    + constructor; [|constructor]. exists r. auto.
Qed.

Lemma step_sound (m : multi_reader_ring_buffer_t) (o : op) :
  quiescent m -> op_fits o ->
  buffer_length (step m o).1.2 = buffer_length m ∧
  Forall2 same_identity (readers m) (readers (step m o).1.2) ∧
  Forall (event_sound m) (step m o).2.
Proof.
  intros Hq Hfit. destruct o as [data|h|h|i|i]; cbn [step].
  - apply write_sound; assumption.
  - pose proof (read_complete_sound m h Hq) as H.
    destruct (mrrb_read_complete port_ok m h). exact H.
  - pose proof (abort_complete_sound m h Hq) as H.
    destruct (mrrb_abort_complete port_ok m h). exact H.
  - pose proof (reader_enable_sound m i) as [H1 H2].
    destruct (mrrb_reader_enable port_ok m (Some i)).
    split; [exact H1|]. split; [exact H2|constructor].
  - apply reader_disable_sound.
Qed.

Lemma run_sound (ops : list op) (m : multi_reader_ring_buffer_t) :
  quiescent m -> Forall op_fits ops ->
  quiescent (run m ops).1 ∧
  buffer_length (run m ops).1 = buffer_length m ∧
  Forall2 same_identity (readers m) (readers (run m ops).1) ∧
  Forall (event_sound m) (trace_events (run m ops).2).
Proof.
  revert m. induction ops as [|o ops IH]; intros m Hq Hfit; cbn [run].
  - split; [assumption|]. split; [reflexivity|]. split; [apply same_identity_diag|constructor].
  - inversion Hfit as [|? ? Ho Hops]; subst.
    destruct (quiescent_step m o Hq Ho) as [Hq' _].
    destruct (step_sound m o Hq Ho) as (Hlen & Hid & Hev).
    destruct (step m o) as [[ret m'] evs]. cbn [fst snd] in *.
    destruct (IH m' Hq' Hops) as (Hq'' & Hlen' & Hid' & Hev').
    destruct (run m' ops) as [m'' tr]. cbn [fst snd] in *.
    split; [assumption|]. split; [congruence|]. split.
    + eapply Forall2_trans; [|exact Hid|exact Hid'].
      intros x y z. apply same_identity_trans.
    + unfold trace_events in *. rewrite fmap_cons. cbn [concat snd].
      apply Forall_app. split; [exact Hev|].
      eapply Forall_impl; [exact Hev'|]. intros e. apply event_sound_ext; [congruence|exact Hid].
Qed.

Lemma mrrb_init_identity (lock_init : Z) (m0 m : multi_reader_ring_buffer_t)
    (buf : option (list byte)) (rs0 : list ring_buffer_reader_t) :
  mrrb_init lock_init m0 buf (Some rs0) = (0, m) ->
  Forall2 same_identity rs0 (readers m).
Proof.
  unfold mrrb_init. destruct buf as [b|]; [|discriminate].
  destruct (_ || _); [discriminate|]. destruct (lock_init <? 0); [discriminate|].
  intros [= <-]. cbn [readers set_readers].
  apply Forall2_fmap_r, Forall_Forall2_diag, Forall_forall. intros r _. repeat split.
Qed.

Lemma initialised_checked (r : ring_buffer_reader_t) : initialised r -> callbacks_checked r.
Proof.
  intros (r0 & h & policy & notify & abort & Hinit). unfold mrrb_reader_init in Hinit.
  destruct (Z.eqb_spec notify NULL) as [|Hn]; [discriminate|]. cbn [orb] in Hinit.
  destruct (bool_decide (policy = MRRB_READER_OVERRUN_SKIP)) eqn:Hp; cbn [andb] in Hinit.
  - destruct (Z.eqb_spec abort NULL) as [|Ha]; [discriminate|].
    injection Hinit as <-. split; [exact Hn|]. intros _. exact Ha.
  - injection Hinit as <-. split; [exact Hn|]. cbn [overrun_policy abort_data].
    intros Hs. apply bool_decide_eq_false_1 in Hp. contradiction.
Qed.

(** ** The invariants of sequential use *)

(** X14: whatever sequence of [mrrb_write], [mrrb_read_complete],
    [mrrb_abort_complete], [mrrb_reader_enable] and [mrrb_reader_disable]
    calls follows a successful [mrrb_init] (on a port whose calls succeed),
    between two calls no write is counted as ongoing, the write pointer is
    on the reservation pointer, the reservation pointer and both cursors of
    every reader lie inside the buffer, and an IDLE reader has completed
    everything published; the buffer keeps its length, and every reader
    keeps the handle, the policy and the callbacks it was initialised
    with. *)
Theorem sequential_execution_invariant (lock_init : Z) (m0 m : multi_reader_ring_buffer_t)
    (buf : option (list byte)) (rs : option (list ring_buffer_reader_t)) (ops : list op) :
  mrrb_init lock_init m0 buf rs = (0, m) ->
  buffer_length m < 4294967296 ->
  Forall op_fits ops ->
  quiescent (run m ops).1 ∧
  buffer_length (run m ops).1 = buffer_length m ∧
  Forall2 same_identity (readers m) (readers (run m ops).1).
Proof.
  intros Hinit HN Hfit.
  destruct (run_sound ops m (quiescent_init _ _ _ _ _ Hinit HN) Hfit) as (H1 & H2 & H3 & _).
  auto.
Qed.

Lemma sequential_execution_invariant_witness :
  mrrb_init 0 uninit_mrrb (Some (replicate 4 "000"%byte))
    (Some [example_reader 1 MRRB_READER_OVERRUN_SKIP 8192]) = (0, example_skip) ∧
  quiescent (run example_skip
               [op_write ["a"; "b"; "c"]%byte; op_write ["d"; "e"; "f"]%byte;
                op_abort_complete 1; op_reader_disable 0; op_reader_enable 0]).1.
Proof.
  assert (H1 : mrrb_init 0 uninit_mrrb (Some (replicate 4 "000"%byte))
                 (Some [example_reader 1 MRRB_READER_OVERRUN_SKIP 8192]) = (0, example_skip))
    by (vm_compute; reflexivity).
  split; [exact H1|].
  refine (proj1 (sequential_execution_invariant _ _ _ _ _
                   [op_write ["a"; "b"; "c"]%byte; op_write ["d"; "e"; "f"]%byte;
                    op_abort_complete 1; op_reader_disable 0; op_reader_enable 0] H1 _ _)).
  - vm_compute. reflexivity.
  - repeat constructor.
Defined.

(** ** Memory safety of the notify calls *)

(** X15: over every sequential execution that follows a successful [mrrb_init]
    (on a port whose calls succeed), the span that a notify callback is
    passed lies inside the buffer: it starts at an offset of the buffer, is
    at least one byte long and does not run over the buffer end, so a
    reader never has to wrap. *)
Theorem notify_within_buffer (lock_init : Z) (m0 m : multi_reader_ring_buffer_t)
    (buf : option (list byte)) (rs : option (list ring_buffer_reader_t)) (ops : list op) :
  mrrb_init lock_init m0 buf rs = (0, m) ->
  buffer_length m < 4294967296 ->
  Forall op_fits ops ->
  Forall (notify_in_buffer (buffer_length m)) (trace_events (run m ops).2).
Proof.
  intros Hinit HN Hfit.
  destruct (run_sound ops m (quiescent_init _ _ _ _ _ Hinit HN) Hfit) as (_ & _ & _ & Hev).
  eapply Forall_impl; [exact Hev|].
  intros [k h off len bs|k h]; [intros [_ H]; exact H|intros _; exact I].
Qed.

Lemma notify_within_buffer_witness :
  mrrb_init 0 uninit_mrrb (Some (replicate 4 "000"%byte))
    (Some [example_reader 1 MRRB_READER_OVERRUN_SKIP 8192]) = (0, example_skip) ∧
  Forall (notify_in_buffer (buffer_length example_skip))
    (trace_events (run example_skip
                     [op_write ["a"; "b"; "c"]%byte; op_read_complete 1;
                      op_write ["d"; "e"; "f"]%byte; op_read_complete 1]).2).
Proof.
  assert (H1 : mrrb_init 0 uninit_mrrb (Some (replicate 4 "000"%byte))
                 (Some [example_reader 1 MRRB_READER_OVERRUN_SKIP 8192]) = (0, example_skip))
    by (vm_compute; reflexivity).
  split; [exact H1|].
  refine (notify_within_buffer _ _ _ _ _
            [op_write ["a"; "b"; "c"]%byte; op_read_complete 1;
             op_write ["d"; "e"; "f"]%byte; op_read_complete 1] H1 _ _).
  - vm_compute. reflexivity.
  - repeat constructor.
Defined.

(** ** No null callback *)

(** X16: when every reader of the array given to [mrrb_init] was set up by a
    successful [mrrb_reader_init], no call of a sequential execution ever
    invokes a null callback: every notify call and every abort call is made
    on a reader whose callback of that kind is set, and passes the handle
    that reader was initialised with. The check of [mrrb_reader_init] that
    a SKIP reader has an abort callback is what the abort calls of overrun
    clearing rely on. *)
Theorem callbacks_never_null (lock_init : Z) (m0 m : multi_reader_ring_buffer_t)
    (buf : option (list byte)) (rs0 : list ring_buffer_reader_t) (ops : list op) :
  Forall initialised rs0 ->
  mrrb_init lock_init m0 buf (Some rs0) = (0, m) ->
  buffer_length m < 4294967296 ->
  Forall op_fits ops ->
  Forall (calls_set_callback rs0) (trace_events (run m ops).2).
Proof.
  intros Hrs Hinit HN Hfit.
  pose proof (mrrb_init_identity _ _ _ _ _ Hinit) as Hid.
  destruct (run_sound ops m (quiescent_init _ _ _ _ _ Hinit HN) Hfit) as (_ & _ & _ & Hev).
  eapply Forall_impl; [exact Hev|].
  intros [k h off len bs|k h].
  - intros [(r & Hr & Hh) _].
    destruct (Forall2_lookup_r _ _ _ _ _ Hid Hr) as (r0 & Hr0 & Hh0 & _ & Hn & _).
    exists r0. split; [exact Hr0|]. split; [congruence|].
    rewrite Forall_forall in Hrs.
    apply (initialised_checked r0). apply Hrs. eapply list_elem_of_lookup_2. exact Hr0.
  - intros (r & Hr & Hh & Hab).
    destruct (Forall2_lookup_r _ _ _ _ _ Hid Hr) as (r0 & Hr0 & Hh0 & Hp & _ & Ha).
    exists r0. split; [exact Hr0|]. split; [congruence|].
    rewrite Forall_forall in Hrs.
    destruct (initialised_checked r0) as [_ Hskip];
      [apply Hrs; eapply list_elem_of_lookup_2; exact Hr0|].
    destruct Hab as [Hab|Hs]; [congruence|]. apply Hskip. congruence.
Qed.

Lemma callbacks_never_null_witness :
  Forall initialised [example_reader 1 MRRB_READER_OVERRUN_SKIP 8192] ∧
  Forall (calls_set_callback [example_reader 1 MRRB_READER_OVERRUN_SKIP 8192])
    (trace_events (run example_skip
                     [op_write ["a"; "b"; "c"]%byte; op_write ["d"; "e"; "f"]%byte]).2).
Proof.
  assert (H0 : Forall initialised [example_reader 1 MRRB_READER_OVERRUN_SKIP 8192]).
  { constructor; [|constructor].
    exists uninit_reader, 1, MRRB_READER_OVERRUN_SKIP, 4096, 8192. reflexivity. }
  split; [exact H0|].
  refine (callbacks_never_null 0 uninit_mrrb example_skip (Some (replicate 4 "000"%byte))
            [example_reader 1 MRRB_READER_OVERRUN_SKIP 8192]
            [op_write ["a"; "b"; "c"]%byte; op_write ["d"; "e"; "f"]%byte] H0 _ _ _).
  - vm_compute. reflexivity.
  - vm_compute. reflexivity.
  - repeat constructor.
Defined.

(** ** What a write accepts *)

Lemma overwritable_space_blocking (m : multi_reader_ring_buffer_t) :
  (forall r, r ∈ readers m -> is_disabled r = false ->
     overrun_policy r = MRRB_READER_OVERRUN_BLOCKING) ->
  mrrb_get_overwritable_space (Some m) = mrrb_get_remaining_space (Some m).
Proof.
  intros Hpol. unfold mrrb_get_overwritable_space, mrrb_get_remaining_space.
  apply foldl_min_ext. intros r Hin.
  unfold _mrrb_reader_get_overwritable_space.
  destruct (is_disabled r) eqn:Hd.
  - unfold _mrrb_reader_get_remaining_space. rewrite Hd. destruct (overrun_policy r); reflexivity.
  - rewrite (Hpol r Hin Hd). reflexivity.
Qed.

Lemma mrrb_write_return (m : multi_reader_ring_buffer_t) (data : list byte) (n : Z) :
  buffer_length m < 2147483648 -> 0 < n ->
  (mrrb_write port_ok m (Some data) n).1.1 = (write_fit m n (flags_zero (num_readers m))).2.
Proof.
  intros HN Hn. rewrite mrrb_write_port_ok by lia. cbv zeta. cbn [fst].
  destruct (write_reserve_fields m n (flags_zero (num_readers m))) as (_ & _ & -> & _).
  destruct (write_fit_length m n (flags_zero (num_readers m)) Hn) as [H1 H2].
  apply to_int_small. lia.
Qed.

(** X17: [mrrb_write] (on a port whose calls succeed, the buffer shorter than
    2^31 bytes) never reports more bytes than it was given nor than the
    buffer holds, and never a negative number. A write that fits the
    remaining space is accepted whole and invokes no abort callback. When
    every enabled reader is BLOCKING a write is cut to the remaining space,
    and no abort callback is invoked either. *)
Theorem mrrb_write_accepts (mrrb : multi_reader_ring_buffer_t) (data : list byte) :
  buffer_length mrrb < 2147483648 ->
  let n := Z.of_nat (length data) in
  let w := mrrb_write port_ok mrrb (Some data) n in
  0 <= w.1.1 <= n ∧ w.1.1 <= buffer_length mrrb ∧
  (n <= mrrb_get_remaining_space (Some mrrb) ->
   w.1.1 = n ∧ forall k h, abort_call k h ∉ w.2) ∧
  ((forall r, r ∈ readers mrrb -> is_disabled r = false ->
      overrun_policy r = MRRB_READER_OVERRUN_BLOCKING) ->
   w.1.1 = Z.min n (mrrb_get_remaining_space (Some mrrb)) ∧
   forall k h, abort_call k h ∉ w.2).
Proof.
  intros HN. cbv zeta.
  pose proof (get_remaining_space_bounds mrrb) as Hrem.
  destruct (Z.eq_dec (Z.of_nat (length data)) 0) as [Hz|Hn].
  { unfold mrrb_write. rewrite Hz. cbn [Z.eqb fst snd].
    split; [lia|]. split; [lia|]. split.
    - intros _. split; [reflexivity|]. intros k h. apply not_elem_of_nil.
    - intros _. split; [lia|]. intros k h. apply not_elem_of_nil. }
  assert (Hpos : 0 < Z.of_nat (length data)) by lia.
  rewrite (mrrb_write_return mrrb data _ HN Hpos).
  destruct (write_fit_length mrrb _ (flags_zero (num_readers mrrb)) Hpos) as [Hwl HwlN].
  split; [exact Hwl|]. split; [exact HwlN|]. split.
  - intros Hfit. split.
    + unfold write_fit. destruct (Z.leb_spec (Z.of_nat (length data))
                                    (mrrb_get_remaining_space (Some mrrb))); [reflexivity|lia].
    + intros k h Hin.
      destruct (abort_call_overrun _ _ _ _ _ _ Hin) as (r & Hr & _ & _ & _ & Hsp & _).
      pose proof (get_remaining_space_le mrrb k r Hr).
      destruct (Z.leb_spec (Z.of_nat (length data)) (buffer_length mrrb)); lia.
  - intros Hpol. split.
    + unfold write_fit. rewrite (overwritable_space_blocking mrrb Hpol).
      destruct (Z.leb_spec (Z.of_nat (length data)) (mrrb_get_remaining_space (Some mrrb)));
        [cbn [snd]; lia|].
      destruct (Z.gtb_spec (mrrb_get_remaining_space (Some mrrb))
                  (mrrb_get_remaining_space (Some mrrb))); [lia|]. cbn [snd]. lia.
    + intros k h Hin.
      destruct (abort_call_overrun _ _ _ _ _ _ Hin) as (r & Hr & _ & Hen & _ & _ & Hp).
      pose proof (Hpol r (list_elem_of_lookup_2 _ _ _ Hr) Hen) as Hb.
      destruct Hp as [[Hp _]|[Hp _]]; congruence.
Qed.

Lemma mrrb_write_accepts_witness :
  buffer_length example_two_blocking < 2147483648 ∧
  (mrrb_write port_ok example_two_blocking (Some ["a"; "b"; "c"; "d"; "e"; "f"]%byte)
     (Z.of_nat (length ["a"; "b"; "c"; "d"; "e"; "f"]%byte))).1.1
  <= buffer_length example_two_blocking.
Proof.
  assert (H : buffer_length example_two_blocking < 2147483648) by (vm_compute; reflexivity).
  split; [exact H|].
  exact (proj1 (proj2 (mrrb_write_accepts example_two_blocking
                         ["a"; "b"; "c"; "d"; "e"; "f"]%byte H))).
Defined.

(** ** Where a write puts the bytes *)

(** X18: after a write on a quiescent MRRB the bytes it accepted, the first
    [ret] bytes of the argument, lie in the ring from the old reservation
    pointer on, wrapping at the buffer end; every byte of the buffer outside
    these [ret] positions is what it was; and the reservation pointer and
    the write pointer have both advanced by [ret] around the ring. *)
Theorem mrrb_write_ring_contents (mrrb : multi_reader_ring_buffer_t) (data : list byte) :
  quiescent mrrb ->
  buffer_length mrrb < 2147483648 ->
  Z.of_nat (length data) < 4294967296 ->
  let w := mrrb_write port_ok mrrb (Some data) (Z.of_nat (length data)) in
  ring_holds (buffer w.1.2) (buffer_length mrrb) (reservation_ptr mrrb)
             (take (Z.to_nat w.1.1) data) ∧
  (forall p : nat,
     (forall j, 0 <= j < w.1.1 ->
        Z.of_nat p ≠ wrap (buffer_length mrrb) (reservation_ptr mrrb + j)) ->
     buffer w.1.2 !! p = buffer mrrb !! p) ∧
  reservation_ptr w.1.2 = wrap (buffer_length mrrb) (reservation_ptr mrrb + w.1.1) ∧
  write_ptr w.1.2 = reservation_ptr w.1.2.
Proof.
  intros Hq HN31 Hdata. cbv zeta. pose proof Hq as (HN & Hong & Hwr & Hres & Hrs).
  destruct (Z.eq_dec (Z.of_nat (length data)) 0) as [Hz|Hn].
  { unfold mrrb_write. rewrite Hz. cbn [Z.eqb fst snd]. unfold in_ring, wrap in *.
    destruct data; [|discriminate].
    split; [intros j Hj; rewrite take_nil in Hj; cbn in Hj; lia|]. split; [reflexivity|].
    destruct (Z.ltb_spec (reservation_ptr mrrb + 0) (buffer_length mrrb)); lia. }
  assert (Hpos : 0 < Z.of_nat (length data)) by lia.
  destruct (write_fit_length mrrb _ (flags_zero (num_readers mrrb)) Hpos) as [Hwl HwlN].
  destruct (mrrb_write_effect mrrb data _ Hn Hong)
    as (Hret & Hbuf & Hwp & Hrpn & _).
  set (w := mrrb_write port_ok mrrb (Some data) (Z.of_nat (length data))) in *.
  set (wl := (write_fit mrrb (Z.of_nat (length data)) (flags_zero (num_readers mrrb))).2) in *.
  destruct (write_window mrrb wl HN Hres ltac:(lia))
    as (Hcrs & Hres'eq & Hres' & Hc & Hs & Hcs & Hcl).
  set (crs := u32 (buffer_length mrrb - reservation_ptr mrrb)) in *.
  set (res' := if wl >=? crs then u32 (wl - crs) else reservation_ptr mrrb + wl) in *.
  set (cwl := if wl >=? crs then crs else wl) in *.
  set (swl := if wl >=? crs then u32 (wl - crs) else 0) in *.
  clearbody res' cwl swl.
  assert (Hswl : swl = wl - cwl) by lia.
  assert (Hrw : w.1.1 = wl) by (rewrite Hret; apply to_int_small; lia).
  rewrite Hrw, Hwp, Hrpn. unfold in_ring in *.
  split; [|split; [|split; [|reflexivity]]].
  - rewrite Hbuf, Hcl, Hswl, Hcl.
    apply (ring_holds_write mrrb data [] (reservation_ptr mrrb) wl); cbn [length]; try lia.
    + unfold wrap. change (Z.of_nat 0) with 0.
      destruct (Z.ltb_spec (reservation_ptr mrrb + 0) (buffer_length mrrb)); lia.
    + intros j Hj. cbn in Hj. lia.
  - intros p Hp. rewrite Hbuf.
    rewrite write_copy_lookup; try lia;
      [|destruct (Z.ltb_spec (reservation_ptr mrrb + wl) (buffer_length mrrb)); lia
       |destruct (Z.ltb_spec (reservation_ptr mrrb + wl) (buffer_length mrrb)); lia].
    destruct (decide (reservation_ptr mrrb <= Z.of_nat p < reservation_ptr mrrb + cwl))
      as [Hin|Hout].
    + exfalso. apply (Hp (Z.of_nat p - reservation_ptr mrrb)).
      * destruct (Z.ltb_spec (reservation_ptr mrrb + wl) (buffer_length mrrb)); lia.
      * unfold wrap.
        replace (reservation_ptr mrrb + (Z.of_nat p - reservation_ptr mrrb))
          with (Z.of_nat p) by lia.
        destruct (Z.ltb_spec (Z.of_nat p) (buffer_length mrrb)); [reflexivity|].
        destruct (Z.ltb_spec (reservation_ptr mrrb + wl) (buffer_length mrrb)); lia.
    + destruct (decide (Z.of_nat p < swl)) as [Hsp|]; [|reflexivity].
      exfalso. apply (Hp (cwl + Z.of_nat p)); [lia|].
      unfold wrap.
      destruct (Z.ltb_spec (reservation_ptr mrrb + wl) (buffer_length mrrb)); [lia|].
      destruct (Z.ltb_spec (reservation_ptr mrrb + (cwl + Z.of_nat p)) (buffer_length mrrb));
        lia.
  - rewrite Hres'eq. unfold wrap. reflexivity.
Qed.

Lemma mrrb_write_ring_contents_witness :
  buffer_length (run example_blocking [op_write ["a"; "b"; "c"; "d"; "e"; "f"]%byte;
                                       op_read_complete 1]).1 < 2147483648 ∧
  ring_holds
    (buffer (mrrb_write port_ok
               (run example_blocking [op_write ["a"; "b"; "c"; "d"; "e"; "f"]%byte;
                                      op_read_complete 1]).1
               (Some ["u"; "v"; "w"; "x"]%byte)
               (Z.of_nat (length ["u"; "v"; "w"; "x"]%byte))).1.2)
    (buffer_length (run example_blocking [op_write ["a"; "b"; "c"; "d"; "e"; "f"]%byte;
                                          op_read_complete 1]).1)
    (reservation_ptr (run example_blocking [op_write ["a"; "b"; "c"; "d"; "e"; "f"]%byte;
                                            op_read_complete 1]).1)
    (take (Z.to_nat
             (mrrb_write port_ok
                (run example_blocking [op_write ["a"; "b"; "c"; "d"; "e"; "f"]%byte;
                                       op_read_complete 1]).1
                (Some ["u"; "v"; "w"; "x"]%byte)
                (Z.of_nat (length ["u"; "v"; "w"; "x"]%byte))).1.1)
          ["u"; "v"; "w"; "x"]%byte).
Proof.
  assert (H : buffer_length
                (run example_blocking [op_write ["a"; "b"; "c"; "d"; "e"; "f"]%byte;
                                       op_read_complete 1]).1 < 2147483648)
    by (vm_compute; reflexivity).
  split; [exact H|].
  refine (proj1 (mrrb_write_ring_contents
                   (run example_blocking [op_write ["a"; "b"; "c"; "d"; "e"; "f"]%byte;
                                          op_read_complete 1]).1
                   ["u"; "v"; "w"; "x"]%byte _ H _)).
  - apply (quiescent_run [op_write ["a"; "b"; "c"; "d"; "e"; "f"]%byte; op_read_complete 1]
             example_blocking).
    + apply (quiescent_init 0 uninit_mrrb example_blocking
               (Some (replicate 8 "000"%byte))
               (Some [example_reader 1 MRRB_READER_OVERRUN_BLOCKING NULL]));
        vm_compute; reflexivity.
    + repeat constructor.
  - vm_compute. reflexivity.
Defined.

(** ** Which readers a write notifies *)

Lemma cleared_reader_status (m : multi_reader_ring_buffer_t) (requested : Z)
    (r : ring_buffer_reader_t) :
  needs_notify (cleared_reader m requested r) = true -> needs_notify r = true.
Proof.
  intros H. destruct (needs_notify r) eqn:Hn; [reflexivity|]. exfalso. revert H.
  unfold needs_notify in Hn |- *. unfold cleared_reader, clear_overrun_reader.
  destruct (status r) eqn:Hst; try discriminate Hn; try (rewrite Hst; discriminate).
  all: destruct (_ <? _); [|rewrite Hst; discriminate].
  all: destruct (overrun_policy r);
    [rewrite Hst; discriminate|destruct (negb _); cbn; discriminate|].
  all: cbv beta iota zeta.
  all: repeat match goal with
              | |- context [if ?c then _ else _] => destruct c
              end; cbn; rewrite ?Hst; discriminate.
Qed.

Lemma fitted_reader_status (m : multi_reader_ring_buffer_t) (n : Z) (r : ring_buffer_reader_t) :
  needs_notify (fitted_reader m n r) = true -> needs_notify r = true.
Proof.
  unfold fitted_reader. destruct (_ <=? _); [auto|].
  destruct (_ >? _); [apply cleared_reader_status|auto].
Qed.

Lemma flagged_reader_status (res : Z) (r : ring_buffer_reader_t) :
  needs_notify (flagged_reader res r) = needs_notify r.
Proof. unfold flagged_reader. destruct (is_disabled r); reflexivity. Qed.

(** X19: a write on a quiescent MRRB notifies only readers that are IDLE or
    ABORTED at the call: a reader that has been shown bytes and has not yet
    completed them is never notified a second time by a write. An IDLE
    reader, whatever its policy, is made ACTIVE by a write that accepts at
    least one byte and is handed the accepted bytes up to the buffer end. *)
Theorem mrrb_write_notifies (mrrb : multi_reader_ring_buffer_t) (data : list byte)
    (i : nat) (r : ring_buffer_reader_t) :
  quiescent mrrb ->
  buffer_length mrrb < 2147483648 ->
  Z.of_nat (length data) < 4294967296 ->
  readers mrrb !! i = Some r ->
  let w := mrrb_write port_ok mrrb (Some data) (Z.of_nat (length data)) in
  (status r ≠ MRRB_READER_STATUS_IDLE -> status r ≠ MRRB_READER_STATUS_ABORTED ->
   forall h off len bs, notify_call i h off len bs ∉ w.2) ∧
  (status r = MRRB_READER_STATUS_IDLE -> w.1.1 ≠ 0 ->
   delivered i w.2
   = take (Z.to_nat (Z.min w.1.1 (buffer_length mrrb - reservation_ptr mrrb))) data ∧
   exists r', readers w.1.2 !! i = Some r' ∧
     status r' = MRRB_READER_STATUS_ACTIVE ∧
     read_complete_ptr r' = reservation_ptr mrrb).
Proof.
  intros Hq HN31 Hdata Hr. cbv zeta. pose proof Hq as (HN & Hong & Hwr & Hres & Hrs).
  destruct (Z.eq_dec (Z.of_nat (length data)) 0) as [Hz|Hn].
  { unfold mrrb_write. rewrite Hz. cbn [Z.eqb fst snd]. split.
    - intros _ _ h off len bs. apply not_elem_of_nil.
    - intros _ H0. contradiction. }
  assert (Hpos : 0 < Z.of_nat (length data)) by lia.
  destruct (write_fit_length mrrb _ (flags_zero (num_readers mrrb)) Hpos) as [Hwl HwlN].
  destruct (mrrb_write_effect mrrb data _ Hn Hong)
    as (Hret & Hbuf & Hwp & Hrpn & Ho & Hlook & aborts & notifies & Hev & Hab & Hnt & Hdel).
  specialize (Hdel i r Hr). specialize (Hlook i). rewrite Hr in Hlook.
  cbn [fmap option_fmap option_map] in Hlook. cbv zeta in Hdel.
  set (w := mrrb_write port_ok mrrb (Some data) (Z.of_nat (length data))) in *.
  set (wl := (write_fit mrrb (Z.of_nat (length data)) (flags_zero (num_readers mrrb))).2) in *.
  destruct (write_window mrrb wl HN Hres ltac:(lia))
    as (Hcrs & Hres'eq & Hres' & Hc & Hs & Hcs & Hcl).
  set (crs := u32 (buffer_length mrrb - reservation_ptr mrrb)) in *.
  set (res' := if wl >=? crs then u32 (wl - crs) else reservation_ptr mrrb + wl) in *.
  set (cwl := if wl >=? crs then crs else wl) in *.
  set (swl := if wl >=? crs then u32 (wl - crs) else 0) in *.
  clearbody res' cwl swl.
  assert (Hswl : swl = wl - cwl) by lia.
  assert (Hlen : buffer_length w.1.2 = buffer_length mrrb).
  { unfold buffer_length. rewrite Hbuf. f_equal. unfold in_ring in *.
    apply length_write_copy; try lia.
    destruct (Z.ltb_spec (reservation_ptr mrrb + wl) (buffer_length mrrb)); lia. }
  assert (Hrw : w.1.1 = wl) by (rewrite Hret; apply to_int_small; lia).
  split.
  - intros Hidle Habd h off len bs Hin. rewrite Hev in Hin.
    apply elem_of_app in Hin as [Hin|Hin].
    + rewrite Forall_forall in Hab. exact (Hab _ Hin).
    + rewrite Forall_forall in Hnt.
      destruct (Hnt _ Hin) as (k & r0 & Hr0 & Hneed & Heq). cbv zeta in Heq.
      injection Heq as -> _ _ _ _. assert (r0 = r) as -> by congruence.
      rewrite flagged_reader_status in Hneed. apply fitted_reader_status in Hneed.
      unfold needs_notify in Hneed. destruct (status r); try discriminate; contradiction.
  - intros Hidle Hret0. rewrite Hrw in *.
    rewrite Hev, delivered_app, (delivered_aborts i aborts Hab), app_nil_l, Hdel.
    clear Hnt Hev Hab Hdel. unfold written_reader in Hlook.
    rewrite (fitted_reader_idle mrrb _ r Hidle) in Hlook |- *.
    destruct (Hrs _ _ Hr) as (Hrp & Hrcp & Heq). specialize (Heq Hidle).
    unfold flagged_reader, needs_notify, published_reader, publish_body, is_disabled in *.
    repeat (progress (cbn [fst status set_is_full set_status] in *; rewrite ?Hidle in * )).
    set (r3 := set_read_complete_ptr
                 (set_status (set_is_full r (res' =? read_complete_ptr r))
                             MRRB_READER_STATUS_ACTIVE) (write_ptr mrrb)) in *.
    unfold in_ring in *.
    assert (Hspan : _mrrb_reader_get_continuous_readable_space w.1.2 r3 = cwl).
    { rewrite continuous_readable_space_linear;
        [|lia|rewrite Hwp; unfold in_ring; lia
         |unfold in_ring; change (read_complete_ptr r3) with (write_ptr mrrb); lia].
      rewrite Hwp, Hlen. cbn [read_complete_ptr is_full r3 set_read_complete_ptr set_status
                                set_is_full].
      rewrite Heq in *. rewrite Hwr in *.
      destruct (Z.ltb_spec (reservation_ptr mrrb + wl) (buffer_length mrrb)),
               (Z.gtb_spec (reservation_ptr mrrb) res'),
               (Z.eqb_spec res' (reservation_ptr mrrb)); cbn [orb]; lia. }
    rewrite Hspan in *.
    assert (Hmin : Z.min wl (buffer_length mrrb - reservation_ptr mrrb) = cwl)
      by (destruct (Z.ltb_spec (reservation_ptr mrrb + wl) (buffer_length mrrb)); lia).
    rewrite Hmin. split.
    + change (read_complete_ptr r3) with (write_ptr mrrb). rewrite Hwr.
      assert (Hholds : ring_holds (buffer w.1.2) (buffer_length mrrb) (reservation_ptr mrrb)
                         ([] ++ take (Z.to_nat wl) data)).
      { rewrite Hbuf, Hcl, Hswl, Hcl.
        apply (ring_holds_write mrrb data [] (reservation_ptr mrrb) wl); cbn [length]; try lia.
        - unfold wrap. change (Z.of_nat 0) with 0.
          destruct (Z.ltb_spec (reservation_ptr mrrb + 0) (buffer_length mrrb)); lia.
        - intros j Hj. cbn in Hj. lia. }
      rewrite app_nil_l in Hholds.
      rewrite (slice_pending _ (take (Z.to_nat wl) data) (buffer_length mrrb));
        [|lia|lia
         |destruct (Z.ltb_spec (reservation_ptr mrrb + wl) (buffer_length mrrb)); lia
         |rewrite length_take; lia|exact Hholds].
      rewrite take_take. f_equal. lia.
    + eexists. split; [exact Hlook|]. split; [reflexivity|].
      change (read_complete_ptr (notified_reader w.1.2 r3)) with (write_ptr mrrb).
      exact Hwr.
Qed.

Lemma mrrb_write_notifies_witness :
  delivered 0
    (mrrb_write port_ok example_blocking (Some ["a"; "b"; "c"]%byte)
                (Z.of_nat (length ["a"; "b"; "c"]%byte))).2
  = take (Z.to_nat
            (Z.min (mrrb_write port_ok example_blocking (Some ["a"; "b"; "c"]%byte)
                               (Z.of_nat (length ["a"; "b"; "c"]%byte))).1.1
                   (buffer_length example_blocking - reservation_ptr example_blocking)))
         ["a"; "b"; "c"]%byte.
Proof.
  refine (proj1 (proj2 (mrrb_write_notifies example_blocking ["a"; "b"; "c"]%byte 0
                          (default uninit_reader (readers example_blocking !! 0%nat))
                          _ _ _ _) _ _)).
  - apply (quiescent_init 0 uninit_mrrb example_blocking
             (Some (replicate 8 "000"%byte))
             (Some [example_reader 1 MRRB_READER_OVERRUN_BLOCKING NULL]));
      vm_compute; reflexivity.
  - vm_compute. reflexivity.
  - vm_compute. reflexivity.
  - vm_compute. reflexivity.
  - vm_compute. reflexivity.
  - vm_compute. discriminate.
Defined.

(** ** A fresh MRRB *)

Lemma is_full_loop_none (rs : list ring_buffer_reader_t) :
  (forall r, r ∈ rs -> is_full r = false) -> is_full_loop rs = 0.
Proof.
  induction rs as [|r rs IH]; intros H; cbn [is_full_loop]; [reflexivity|].
  rewrite (H r) by constructor. rewrite andb_false_r. apply IH.
  intros r' Hr'. apply H. now constructor.
Qed.

(** X20: right after a successful [mrrb_init] the MRRB is empty and not full,
    and the whole buffer can be written, whatever the readers and the MRRB
    object held before the call. *)
Theorem mrrb_init_empty (lock_init : Z) (m0 m : multi_reader_ring_buffer_t)
    (buf : option (list byte)) (rs : option (list ring_buffer_reader_t)) :
  mrrb_init lock_init m0 buf rs = (0, m) ->
  buffer_length m < 4294967296 ->
  mrrb_get_remaining_space (Some m) = buffer_length m ∧
  mrrb_is_empty (Some m) = 1 ∧ mrrb_is_full (Some m) = 0.
Proof.
  intros Hinit HN.
  destruct (mrrb_init_success _ _ _ _ _ Hinit) as (Hpos & Hw & Hres & Ho & Hrs).
  assert (Hrem : mrrb_get_remaining_space (Some m) = buffer_length m).
  { unfold mrrb_get_remaining_space.
    destruct (foldl_min (_mrrb_reader_get_remaining_space m) (readers m) (buffer_length m))
      as (_ & _ & [Heq|(r & Hin & Heq)]); cbv zeta in *; [exact Heq|].
    rewrite Heq. apply list_elem_of_lookup_1 in Hin as [k Hk].
    destruct (Hrs _ _ Hk) as (Hst & _ & Hrcp & Hf).
    unfold _mrrb_reader_get_remaining_space, is_disabled. rewrite Hst, Hf, Hrcp, Hres.
    cbn [Z.gtb Z.compare].
    replace (buffer_length m - (0 - 0)) with (buffer_length m) by lia.
    apply u32_small. lia. }
  split; [exact Hrem|]. split.
  - unfold mrrb_is_empty. rewrite Hrem, Z.eqb_refl. reflexivity.
  - cbn [mrrb_is_full]. apply is_full_loop_none. intros r Hin.
    apply list_elem_of_lookup_1 in Hin as [k Hk]. destruct (Hrs _ _ Hk) as (_ & _ & _ & Hf).
    exact Hf.
Qed.

Lemma mrrb_init_empty_witness :
  mrrb_init 0 uninit_mrrb (Some (replicate 4 "000"%byte)) (Some [uninit_reader])
    = (0, example_mrrb 4 [uninit_reader]) ∧
  mrrb_is_empty (Some (example_mrrb 4 [uninit_reader])) = 1.
Proof.
  assert (H : mrrb_init 0 uninit_mrrb (Some (replicate 4 "000"%byte)) (Some [uninit_reader])
              = (0, example_mrrb 4 [uninit_reader])) by (vm_compute; reflexivity).
  split; [exact H|].
  refine (proj1 (proj2 (mrrb_init_empty _ _ _ _ _ H _))).
  vm_compute. reflexivity.
Defined.

(** ** Draining a reader *)

Lemma get_reader_by_handle_from_ext (j : nat) (rs rs' : list ring_buffer_reader_t) (h : Z) :
  handle <$> rs = handle <$> rs' ->
  get_reader_by_handle_from j rs h = get_reader_by_handle_from j rs' h.
Proof.
  revert j rs'. induction rs as [|r rs IH]; intros j [|r' rs'] H; try discriminate;
    [reflexivity|].
  rewrite !fmap_cons in H. injection H as Hh Ht. cbn [get_reader_by_handle_from].
  rewrite Hh. destruct (_ =? _); [reflexivity|]. apply IH. exact Ht.
Qed.

Lemma get_reader_by_handle_insert (m : multi_reader_ring_buffer_t) (h : Z) (i : nat)
    (r r' : ring_buffer_reader_t) :
  readers m !! i = Some r -> handle r' = handle r ->
  _mrrb_get_reader_by_handle (set_readers m (<[i := r']> (readers m))) h
  = _mrrb_get_reader_by_handle m h.
Proof.
  intros Hr Hh. unfold _mrrb_get_reader_by_handle. cbn [readers set_readers].
  apply get_reader_by_handle_from_ext. rewrite list_fmap_insert, Hh.
  apply list_insert_id. rewrite list_lookup_fmap, Hr. reflexivity.
Qed.

Lemma run_cons_state (m : multi_reader_ring_buffer_t) (o : op) (ops : list op) :
  (run m (o :: ops)).1 = (run (step m o).1.2 ops).1.
Proof.
  cbn [run]. destruct (step m o) as [[ret m'] evs]. cbn [fst snd].
  destruct (run m' ops). reflexivity.
Qed.

Lemma step_read_complete_state (m : multi_reader_ring_buffer_t) (h : Z) :
  (step m (op_read_complete h)).1.2 = (mrrb_read_complete port_ok m h).1.
Proof. cbn [step]. destruct (mrrb_read_complete port_ok m h). reflexivity. Qed.

(** One [mrrb_read_complete] on an ACTIVE reader of a quiescent MRRB. *)
Lemma read_complete_step (m : multi_reader_ring_buffer_t) (h : Z) (i : nat)
    (r : ring_buffer_reader_t) :
  quiescent m -> h ≠ NULL ->
  _mrrb_get_reader_by_handle m h = Some i ->
  readers m !! i = Some r -> status r = MRRB_READER_STATUS_ACTIVE ->
  quiescent (mrrb_read_complete port_ok m h).1 ∧
  write_ptr (mrrb_read_complete port_ok m h).1 = write_ptr m ∧
  _mrrb_get_reader_by_handle (mrrb_read_complete port_ok m h).1 h = Some i ∧
  exists r', readers (mrrb_read_complete port_ok m h).1 !! i = Some r' ∧
    is_full r' = false ∧
    (status r' = MRRB_READER_STATUS_IDLE ∧ read_complete_ptr r' = write_ptr m ∨
     status r' = MRRB_READER_STATUS_ACTIVE ∧ read_ptr r ≠ write_ptr m ∧
     read_ptr r' = (if read_ptr r >? write_ptr m then 0 else write_ptr m)).
Proof.
  intros Hq Hh Hget Hr Hst.
  split; [apply quiescent_read_complete; exact Hq|].
  pose proof Hq as (HN & Hong & Hwr & Hres & Hrs).
  destruct (Hrs _ _ Hr) as (H1 & H2 & _).
  pose proof (lookup_lt_Some _ _ _ Hr) as Hlt.
  unfold mrrb_read_complete.
  destruct (Z.eqb_spec h NULL) as [|_]; [contradiction|]. rewrite Hget.
  cbn [port_ok port_lock]. change (0 <? 0) with false. cbv iota. rewrite Hr, Hst.
  set (r1 := set_read_complete_ptr (set_is_full r false) (read_ptr r)).
  assert (Hw : in_ring m (write_ptr m)) by (rewrite Hwr; exact Hres).
  pose proof (continuous_readable_space_linear m r1 HN Hw H1) as Hspan.
  cbn [read_complete_ptr is_full r1 set_read_complete_ptr set_is_full] in Hspan.
  rewrite orb_false_r in Hspan. unfold in_ring in *.
  destruct (Z.gtb_spec (_mrrb_reader_get_continuous_readable_space m r1) 0) as [Hgt|Hle];
    cbn [fst snd].
  - split; [reflexivity|].
    split; [rewrite (get_reader_by_handle_insert m h i r) by (exact Hr || reflexivity);
            exact Hget|].
    eexists. split; [cbn [readers set_readers]; apply list_lookup_insert_eq; exact Hlt|].
    split; [reflexivity|]. right. split; [exact Hst|].
    cbn [read_ptr set_read_ptr].
    change (read_complete_ptr r1) with (read_ptr r).
    rewrite advance_pointer_mod by (unfold in_ring; lia || (rewrite Hspan;
      destruct (Z.gtb_spec (read_ptr r) (write_ptr m)); lia)).
    rewrite Hspan in *.
    destruct (Z.gtb_spec (read_ptr r) (write_ptr m)).
    + split; [lia|].
      replace (read_ptr r + (buffer_length m - read_ptr r)) with (buffer_length m) by lia.
      apply Z.mod_same. lia.
    + split; [lia|].
      replace (read_ptr r + (write_ptr m - read_ptr r)) with (write_ptr m) by lia.
      apply Z.mod_small. lia.
  - split; [reflexivity|].
    split; [rewrite (get_reader_by_handle_insert m h i r) by (exact Hr || reflexivity);
            exact Hget|].
    eexists. split; [cbn [readers set_readers]; apply list_lookup_insert_eq; exact Hlt|].
    split; [reflexivity|]. left. split; [reflexivity|].
    cbn [read_complete_ptr set_status r1 set_read_complete_ptr].
    rewrite Hspan in Hle. destruct (Z.gtb_spec (read_ptr r) (write_ptr m)); lia.
Qed.

Lemma read_complete_not_active (m : multi_reader_ring_buffer_t) (h : Z) (i : nat)
    (r : ring_buffer_reader_t) :
  _mrrb_get_reader_by_handle m h = Some i ->
  readers m !! i = Some r -> status r = MRRB_READER_STATUS_IDLE ->
  mrrb_read_complete port_ok m h = (m, []).
Proof.
  intros Hget Hr Hst. unfold mrrb_read_complete.
  destruct (h =? NULL); [reflexivity|]. rewrite Hget.
  cbn [port_ok port_lock]. change (0 <? 0) with false. cbv iota. rewrite Hr, Hst. reflexivity.
Qed.

(** X21: without a write in between, three calls of [mrrb_read_complete] drain
    an ACTIVE reader of a quiescent MRRB, whatever it had been shown: the
    first completes what it was shown, the second the span up to the buffer
    end, the third the span from the buffer start. Afterwards the reader is
    IDLE, not full, with its complete cursor on the write pointer. *)
Theorem read_complete_drains (mrrb : multi_reader_ring_buffer_t) (h : Z) (i : nat)
    (r : ring_buffer_reader_t) :
  quiescent mrrb -> h ≠ NULL ->
  _mrrb_get_reader_by_handle mrrb h = Some i ->
  readers mrrb !! i = Some r -> status r = MRRB_READER_STATUS_ACTIVE ->
  exists r',
    readers (run mrrb [op_read_complete h; op_read_complete h; op_read_complete h]).1 !! i
    = Some r' ∧
    status r' = MRRB_READER_STATUS_IDLE ∧ is_full r' = false ∧
    read_complete_ptr r' = write_ptr mrrb.
Proof.
  intros Hq Hh Hget Hr Hst.
  rewrite !run_cons_state, !step_read_complete_state. cbn [run fst].
  pose proof Hq as (_ & _ & Hwr & Hres & _). unfold in_ring in Hres.
  destruct (read_complete_step mrrb h i r Hq Hh Hget Hr Hst)
    as (Hq1 & Hw1 & Hget1 & r1 & Hr1 & Hf1 & [[Hst1 Hc1]|(Hst1 & Hne1 & Hp1)]).
  { rewrite (read_complete_not_active _ h i r1 Hget1 Hr1 Hst1). cbn [fst].
    rewrite (read_complete_not_active _ h i r1 Hget1 Hr1 Hst1). cbn [fst].
    exists r1. auto. }
  set (m1 := (mrrb_read_complete port_ok mrrb h).1) in *.
  destruct (read_complete_step m1 h i r1 Hq1 Hh Hget1 Hr1 Hst1)
    as (Hq2 & Hw2 & Hget2 & r2 & Hr2 & Hf2 & [[Hst2 Hc2]|(Hst2 & Hne2 & Hp2)]).
  { rewrite (read_complete_not_active _ h i r2 Hget2 Hr2 Hst2). cbn [fst].
    exists r2. split; [exact Hr2|]. split; [exact Hst2|]. split; [exact Hf2|]. congruence. }
  set (m2 := (mrrb_read_complete port_ok m1 h).1) in *.
  destruct (read_complete_step m2 h i r2 Hq2 Hh Hget2 Hr2 Hst2)
    as (Hq3 & Hw3 & Hget3 & r3 & Hr3 & Hf3 & [[Hst3 Hc3]|(Hst3 & Hne3 & Hp3)]).
  { exists r3. split; [exact Hr3|]. split; [exact Hst3|]. split; [exact Hf3|]. congruence. }
  exfalso. rewrite Hw1 in *. rewrite Hw2 in *.
  destruct (Z.gtb_spec (read_ptr r) (write_ptr mrrb)),
           (Z.gtb_spec (read_ptr r1) (write_ptr mrrb)); lia.
Qed.

Lemma read_complete_drains_witness :
  exists r',
    readers (run (run example_blocking
                    [op_write ["a"; "b"; "c"; "d"; "e"; "f"]%byte; op_read_complete 1;
                     op_write ["u"; "v"; "w"; "x"]%byte]).1
               [op_read_complete 1; op_read_complete 1; op_read_complete 1]).1 !! 0%nat
    = Some r' ∧
    status r' = MRRB_READER_STATUS_IDLE ∧ is_full r' = false ∧
    read_complete_ptr r'
    = write_ptr (run example_blocking
                   [op_write ["a"; "b"; "c"; "d"; "e"; "f"]%byte; op_read_complete 1;
                    op_write ["u"; "v"; "w"; "x"]%byte]).1.
Proof.
  refine (read_complete_drains
            (run example_blocking
               [op_write ["a"; "b"; "c"; "d"; "e"; "f"]%byte; op_read_complete 1;
                op_write ["u"; "v"; "w"; "x"]%byte]).1 1 0
            (default uninit_reader
               (readers (run example_blocking
                           [op_write ["a"; "b"; "c"; "d"; "e"; "f"]%byte; op_read_complete 1;
                            op_write ["u"; "v"; "w"; "x"]%byte]).1 !! 0%nat))
            _ _ _ _ _).
  - apply (quiescent_run [op_write ["a"; "b"; "c"; "d"; "e"; "f"]%byte; op_read_complete 1;
                          op_write ["u"; "v"; "w"; "x"]%byte] example_blocking).
    + apply (quiescent_init 0 uninit_mrrb example_blocking
               (Some (replicate 8 "000"%byte))
               (Some [example_reader 1 MRRB_READER_OVERRUN_BLOCKING NULL]));
        vm_compute; reflexivity.
    + repeat constructor.
  - discriminate.
  - vm_compute. reflexivity.
  - vm_compute. reflexivity.
  - vm_compute. reflexivity.
Defined.

(** ** A reader that joins late *)

Lemma blocking_inv_enable (m : multi_reader_ring_buffer_t) (i : nat)
    (r : ring_buffer_reader_t) :
  quiescent m -> buffer_length m < 2147483648 ->
  readers m !! i = Some r -> is_disabled r = true ->
  overrun_policy r = MRRB_READER_OVERRUN_BLOCKING ->
  blocking_reader_inv i (mrrb_reader_enable port_ok m (Some i)).2 [] [].
Proof.
  intros (HN & Hong & Hwr & Hres & Hrs) HN31 Hr Hd Hpol.
  pose proof (lookup_lt_Some _ _ _ Hr) as Hlt.
  unfold mrrb_reader_enable. cbn [port_ok port_lock]. change (0 <? 0) with false. cbv iota.
  rewrite Hr, Hd. cbn [snd]. unfold blocking_reader_inv, in_ring in *.
  unfold buffer_length in *.
  cbn [buffer readers write_ptr reservation_ptr ongoing_writes set_readers].
  split; [exact HN31|]. split; [exact Hong|]. split; [exact Hwr|]. split; [exact Hres|].
  eexists _, [], 0. rewrite list_lookup_insert_eq by exact Hlt.
  split; [reflexivity|].
  cbn [length app read_ptr read_complete_ptr is_full status overrun_policy
       set_read_complete_ptr set_read_ptr set_is_full set_status].
  change (Z.of_nat 0) with 0. unfold wrap. rewrite !Z.add_0_r.
  destruct (Z.ltb_spec (reservation_ptr m) (Z.of_nat (length (buffer m)))); [|lia].
  split; [exact Hpol|]. split; [reflexivity|].
  split; [lia|]. split; [lia|]. split; [lia|]. split; [lia|].
  split; [reflexivity|]. split; [exact Hwr|].
  split; [symmetry; apply Z.eqb_neq; lia|].
  split; [left; auto|].
  intros j Hj. cbn in Hj. lia.
Qed.

(** X22: a BLOCKING reader that is enabled in the middle of an execution loses
    nothing of what is written from then on: over the calls of [mrrb_write],
    [mrrb_read_complete] and [mrrb_abort_complete] that follow its
    [mrrb_reader_enable] (no write of at least one byte returning 0 while it
    is IDLE), the bytes passed to its notify callback are a prefix of the
    bytes accepted since, and all of them whenever it is IDLE; nothing
    written before it was enabled is handed to it. *)
Theorem late_reader_no_loss (mrrb : multi_reader_ring_buffer_t) (i : nat)
    (r : ring_buffer_reader_t) (ops : list op) :
  quiescent mrrb -> buffer_length mrrb < 2147483648 ->
  readers mrrb !! i = Some r -> is_disabled r = true ->
  overrun_policy r = MRRB_READER_OVERRUN_BLOCKING ->
  Forall data_op ops -> Forall op_fits ops ->
  no_stalled_idle_write i (mrrb_reader_enable port_ok mrrb (Some i)).2 ops ->
  exists pending : list byte,
    accepted (run (mrrb_reader_enable port_ok mrrb (Some i)).2 ops).2
    = delivered i (trace_events (run (mrrb_reader_enable port_ok mrrb (Some i)).2 ops).2)
      ++ pending ∧
    forall r', readers (run (mrrb_reader_enable port_ok mrrb (Some i)).2 ops).1 !! i = Some r' ->
      status r' = MRRB_READER_STATUS_IDLE -> pending = [].
Proof.
  intros Hq HN Hr Hd Hpol Hdo Hfit Hns.
  pose proof (blocking_inv_enable mrrb i r Hq HN Hr Hd Hpol) as Hinv.
  destruct (blocking_inv_run i ops _ [] [] Hinv Hdo Hfit Hns) as [_ Hinv'].
  destruct Hinv' as (_ & _ & _ & _ & r1 & pending & shown & Hr1 & _ & Hs & _ & _ & _ & _
                       & _ & _ & _ & Hst & _).
  exists pending. split; [exact Hs|].
  intros r' Hr' Hidle. assert (r' = r1) as -> by congruence.
  destruct Hst as [(_ & _ & Hp)|[Hact _]]; [exact Hp|congruence].
Qed.

Lemma late_reader_no_loss_witness :
  exists pending : list byte,
    accepted
      (run (mrrb_reader_enable port_ok
              (run example_two_blocking
                 [op_reader_disable 1; op_write ["a"; "b"; "c"]%byte; op_read_complete 1]).1
              (Some 1%nat)).2
           [op_write ["d"; "e"]%byte; op_read_complete 2]).2
    = delivered 1
        (trace_events
           (run (mrrb_reader_enable port_ok
                   (run example_two_blocking
                      [op_reader_disable 1; op_write ["a"; "b"; "c"]%byte;
                       op_read_complete 1]).1
                   (Some 1%nat)).2
                [op_write ["d"; "e"]%byte; op_read_complete 2]).2)
      ++ pending ∧
    forall r',
      readers
        (run (mrrb_reader_enable port_ok
                (run example_two_blocking
                   [op_reader_disable 1; op_write ["a"; "b"; "c"]%byte;
                    op_read_complete 1]).1
                (Some 1%nat)).2
             [op_write ["d"; "e"]%byte; op_read_complete 2]).1 !! 1%nat = Some r' ->
      status r' = MRRB_READER_STATUS_IDLE -> pending = [].
Proof.
  refine (late_reader_no_loss
            (run example_two_blocking
               [op_reader_disable 1; op_write ["a"; "b"; "c"]%byte; op_read_complete 1]).1
            1
            (default uninit_reader
               (readers (run example_two_blocking
                           [op_reader_disable 1; op_write ["a"; "b"; "c"]%byte;
                            op_read_complete 1]).1 !! 1%nat))
            [op_write ["d"; "e"]%byte; op_read_complete 2] _ _ _ _ _ _ _ _).
  - apply (quiescent_run [op_reader_disable 1; op_write ["a"; "b"; "c"]%byte;
                          op_read_complete 1] example_two_blocking).
    + apply (quiescent_init 0 uninit_mrrb example_two_blocking
               (Some (replicate 4 "000"%byte))
               (Some [example_reader 1 MRRB_READER_OVERRUN_BLOCKING NULL;
                      example_reader 2 MRRB_READER_OVERRUN_BLOCKING NULL]));
        vm_compute; reflexivity.
    + repeat constructor.
  - vm_compute. reflexivity.
  - vm_compute. reflexivity.
  - vm_compute. reflexivity.
  - vm_compute. reflexivity.
  - repeat constructor.
  - repeat constructor.
  - vm_compute. repeat split; intros; discriminate.
Defined.

(** ** The disable handshake *)

(** X23: disabling an enabled reader that has an abort callback invokes the
    callback once and parks the reader as DISABLING; the
    [mrrb_abort_complete] with which the reader answers (its handle being
    non-null and the first of the array with that value) makes it DISABLED.
    Neither call moves a cursor or touches another reader. *)
Theorem reader_disable_handshake (mrrb : multi_reader_ring_buffer_t) (i : nat)
    (r : ring_buffer_reader_t) :
  readers mrrb !! i = Some r ->
  is_disabled r = false -> abort_data r ≠ NULL -> handle r ≠ NULL ->
  _mrrb_get_reader_by_handle mrrb (handle r) = Some i ->
  mrrb_reader_disable port_ok mrrb (Some i)
  = (0, set_readers mrrb (<[i := set_status r MRRB_READER_STATUS_DISABLING]> (readers mrrb)),
     [abort_call i (handle r)]) ∧
  mrrb_abort_complete port_ok (mrrb_reader_disable port_ok mrrb (Some i)).1.2 (handle r)
  = (set_readers mrrb (<[i := set_status r MRRB_READER_STATUS_DISABLED]> (readers mrrb)), []).
Proof.
  intros Hr Hen Hab Hh Hget. pose proof (lookup_lt_Some _ _ _ Hr) as Hlt.
  assert (Hd : mrrb_reader_disable port_ok mrrb (Some i)
               = (0, set_readers mrrb
                       (<[i := set_status r MRRB_READER_STATUS_DISABLING]> (readers mrrb)),
                  [abort_call i (handle r)])).
  { unfold mrrb_reader_disable. cbn [port_ok port_lock]. change (0 <? 0) with false. cbv iota.
    rewrite Hr, Hen. destruct (Z.eqb_spec (abort_data r) NULL); [contradiction|]. reflexivity. }
  split; [exact Hd|]. rewrite Hd. cbn [fst snd].
  unfold mrrb_abort_complete.
  destruct (Z.eqb_spec (handle r) NULL); [contradiction|].
  rewrite (get_reader_by_handle_insert mrrb (handle r) i r) by (exact Hr || reflexivity).
  rewrite Hget. cbn [port_ok port_lock]. change (0 <? 0) with false. cbv iota.
  cbn [readers set_readers]. rewrite list_lookup_insert_eq by exact Hlt.
  cbn [status set_status]. unfold set_readers. cbn [buffer readers write_ptr reservation_ptr
                                                      ongoing_writes].
  rewrite list_insert_insert_eq. reflexivity.
Qed.

Lemma reader_disable_handshake_witness :
  mrrb_abort_complete port_ok
    (mrrb_reader_disable port_ok
       (run example_skip [op_write ["a"; "b"; "c"]%byte]).1 (Some 0%nat)).1.2
    (handle (default uninit_reader
               (readers (run example_skip [op_write ["a"; "b"; "c"]%byte]).1 !! 0%nat)))
  = (set_readers (run example_skip [op_write ["a"; "b"; "c"]%byte]).1
       (<[0%nat := set_status
                     (default uninit_reader
                        (readers (run example_skip [op_write ["a"; "b"; "c"]%byte]).1
                           !! 0%nat))
                     MRRB_READER_STATUS_DISABLED]>
          (readers (run example_skip [op_write ["a"; "b"; "c"]%byte]).1)), []).
Proof.
  refine (proj2 (reader_disable_handshake
                   (run example_skip [op_write ["a"; "b"; "c"]%byte]).1 0
                   (default uninit_reader
                      (readers (run example_skip [op_write ["a"; "b"; "c"]%byte]).1 !! 0%nat))
                   _ _ _ _ _)).
  - vm_compute. reflexivity.
  - vm_compute. reflexivity.
  - vm_compute. discriminate.
  - vm_compute. discriminate.
  - vm_compute. reflexivity.
Defined.

(** * Completion calls and overrun clearing, field by field *)

(** ** Completion of a read *)

(** C4, as stated, fails in two places. A NULL handle is rejected before the
    scan, although a reader may have been initialised with a NULL handle: the
    ACTIVE reader with handle NULL keeps its complete cursor at 0, not at its
    read cursor 3. And when the lock is not acquired the ACTIVE reader with
    handle 1 is left as it is. *)
Lemma mrrb_read_complete_counterexample :
  (let mrrb := (run example_null_handle [op_write ["a"; "b"; "c"]%byte]).1 in
   ¬ read_complete_spec mrrb NULL (mrrb_read_complete port_ok mrrb NULL).1
                        (mrrb_read_complete port_ok mrrb NULL).2) ∧
  (let mrrb := (run example_blocking [op_write ["a"; "b"; "c"]%byte]).1 in
   ¬ read_complete_spec mrrb 1 (mrrb_read_complete (port_fail_lock 0) mrrb 1).1
                        (mrrb_read_complete (port_fail_lock 0) mrrb 1).2).
Proof.
  split; intros mrrb H; unfold read_complete_spec in H.
  - assert (Hget : _mrrb_get_reader_by_handle mrrb NULL = Some 0%nat)
      by (vm_compute; reflexivity).
    rewrite Hget in H.
    assert (Hr : readers mrrb !! 0%nat
                 = Some (mk_reader NULL MRRB_READER_OVERRUN_BLOCKING 3 0
                                   MRRB_READER_STATUS_ACTIVE false 4096 NULL))
      by (vm_compute; reflexivity).
    specialize (H _ Hr). cbn [status bool_decide decide_rel] in H.
    destruct H as (r' & Hrep & Hrcp & _).
    unfold reader_replaced in Hrep. vm_compute in Hrep. injection Hrep as <-.
    discriminate Hrcp.
  - assert (Hget : _mrrb_get_reader_by_handle mrrb 1 = Some 0%nat)
      by (vm_compute; reflexivity).
    rewrite Hget in H.
    assert (Hr : readers mrrb !! 0%nat
                 = Some (mk_reader 1 MRRB_READER_OVERRUN_BLOCKING 3 0
                                   MRRB_READER_STATUS_ACTIVE false 4096 NULL))
      by (vm_compute; reflexivity).
    specialize (H _ Hr). cbn [status bool_decide decide_rel] in H.
    destruct H as (r' & Hrep & Hrcp & _).
    unfold reader_replaced in Hrep. vm_compute in Hrep. injection Hrep as <-.
    discriminate Hrcp.
Qed.

(** C4, amended: called with a non-NULL handle and the lock acquired,
    [mrrb_read_complete] changes nothing when the scan finds no reader with
    that handle or the reader found is not ACTIVE; when it is ACTIVE only
    that reader changes: its complete cursor takes the value of its read
    cursor and its full flag is cleared, then, if the continuous readable
    span is positive, the reader stays ACTIVE, its read cursor is advanced
    by the span from the new complete cursor (modulo the buffer length when
    the cursors lie inside the buffer) and the notify callback is invoked
    (after the unlock) with the new complete cursor and that span, otherwise
    the reader becomes IDLE with its read cursor unmoved; handle, policy and
    callbacks are kept. Called with a NULL handle, or when the lock is not
    acquired, it changes nothing and invokes no callback. *)
Theorem mrrb_read_complete_correct (p : port_t) (mrrb : multi_reader_ring_buffer_t) (h : Z) :
  (h ≠ NULL -> 0 <= port_lock p 0 ->
   read_complete_spec mrrb h (mrrb_read_complete p mrrb h).1
                      (mrrb_read_complete p mrrb h).2) ∧
  (h = NULL ∨ port_lock p 0 < 0 -> mrrb_read_complete p mrrb h = (mrrb, [])).
Proof.
  unfold mrrb_read_complete, read_complete_spec. split.
  - intros Hh Hlock.
    destruct (Z.eqb_spec h NULL) as [|_]; [contradiction|].
    destruct (_mrrb_get_reader_by_handle mrrb h) as [i|] eqn:Hget; [|split; reflexivity].
    destruct (Z.ltb_spec (port_lock p 0) 0) as [|_]; [lia|].
    intros r Hr. rewrite Hr.
    destruct (get_reader_by_handle_Some _ _ _ Hget) as (r0 & Hr0 & Hh0).
    assert (r0 = r) as -> by congruence.
    destruct (status r) eqn:Hst; cbn [bool_decide decide_rel]; try (split; reflexivity).
    rewrite bool_decide_eq_true_2 by reflexivity.
    set (r1 := set_read_complete_ptr (set_is_full r false) (read_ptr r)).
    set (span := _mrrb_reader_get_continuous_readable_space mrrb r1).
    destruct (Z.gtb_spec span 0) as [Hpos|Hle]; cbn [fst snd].
    + exists (set_read_ptr r1 (_mrrb_advance_pointer mrrb (read_complete_ptr r1) span)).
      split; [reflexivity|]. repeat (split; [reflexivity|]).
      cbv zeta.
      change (_mrrb_reader_get_continuous_readable_space mrrb (set_read_ptr r1 _))
        with span.
      destruct (Z.ltb_spec 0 span) as [_|]; [|lia].
      split; [exact Hst|]. split.
      * split; [reflexivity|]. intros (HN & Hw & Hrp & _).
        cbn [read_ptr set_read_ptr]. change (read_complete_ptr r1) with (read_ptr r).
        apply advance_pointer_mod; [exact HN|exact Hrp|].
        destruct (continuous_readable_space_bounds mrrb r1 HN Hw Hrp) as [Hb _].
        fold span in Hb. lia.
      * rewrite <- Hh0. reflexivity.
    + exists (set_status r1 MRRB_READER_STATUS_IDLE).
      split; [reflexivity|]. repeat (split; [reflexivity|]).
      cbv zeta.
      change (_mrrb_reader_get_continuous_readable_space mrrb (set_status r1 _)) with span.
      destruct (Z.ltb_spec 0 span) as [|_]; [lia|]. repeat split.
  - intros [->|Hlock]; [reflexivity|].
    destruct (h =? NULL); [reflexivity|].
    destruct (_mrrb_get_reader_by_handle mrrb h); [|reflexivity].
    destruct (Z.ltb_spec (port_lock p 0) 0); [reflexivity|lia].
Qed.

Lemma mrrb_read_complete_correct_witness :
  1 ≠ NULL ∧ 0 <= port_lock port_ok 0 ∧
  read_complete_spec
    (run example_blocking [op_write ["a"; "b"; "c"]%byte; op_write ["d"; "e"]%byte]).1 1
    (mrrb_read_complete port_ok
       (run example_blocking [op_write ["a"; "b"; "c"]%byte; op_write ["d"; "e"]%byte]).1 1).1
    (mrrb_read_complete port_ok
       (run example_blocking [op_write ["a"; "b"; "c"]%byte; op_write ["d"; "e"]%byte]).1 1).2 ∧
  (mrrb_read_complete port_ok
     (run example_blocking [op_write ["a"; "b"; "c"]%byte; op_write ["d"; "e"]%byte]).1 1).2
  = [notify_call 0 1 3 2 ["d"; "e"]%byte].
Proof.
  assert (H1 : 1 ≠ NULL) by discriminate.
  assert (H2 : 0 <= port_lock port_ok 0) by discriminate.
  split; [exact H1|]. split; [exact H2|]. split.
  - exact (proj1 (mrrb_read_complete_correct port_ok
                    (run example_blocking
                       [op_write ["a"; "b"; "c"]%byte; op_write ["d"; "e"]%byte]).1 1)
             H1 H2).
  - vm_compute. reflexivity.
Defined.

(** ** Completion of an abort *)

(** C5, as stated, fails in two places. A NULL handle is rejected before the
    scan: the DISABLING reader with handle NULL stays DISABLING. And when
    the lock is not acquired the DISABLING reader with handle 1 stays
    DISABLING. *)
Lemma mrrb_abort_complete_counterexample :
  (let mrrb := (run example_null_handle_abort [op_reader_disable 0]).1 in
   ¬ abort_complete_spec mrrb NULL (mrrb_abort_complete port_ok mrrb NULL).1
                         (mrrb_abort_complete port_ok mrrb NULL).2) ∧
  (let mrrb := (run example_skip [op_reader_disable 0]).1 in
   ¬ abort_complete_spec mrrb 1 (mrrb_abort_complete (port_fail_lock 0) mrrb 1).1
                         (mrrb_abort_complete (port_fail_lock 0) mrrb 1).2).
Proof.
  split; intros mrrb H; unfold abort_complete_spec in H.
  - assert (Hget : _mrrb_get_reader_by_handle mrrb NULL = Some 0%nat)
      by (vm_compute; reflexivity).
    rewrite Hget in H.
    assert (Hr : readers mrrb !! 0%nat
                 = Some (mk_reader NULL MRRB_READER_OVERRUN_DISABLE 0 0
                                   MRRB_READER_STATUS_DISABLING false 4096 8192))
      by (vm_compute; reflexivity).
    specialize (H _ Hr). cbn [status] in H. destruct H as [Hrep _].
    unfold reader_replaced in Hrep. vm_compute in Hrep. discriminate Hrep.
  - assert (Hget : _mrrb_get_reader_by_handle mrrb 1 = Some 0%nat)
      by (vm_compute; reflexivity).
    rewrite Hget in H.
    assert (Hr : readers mrrb !! 0%nat
                 = Some (mk_reader 1 MRRB_READER_OVERRUN_SKIP 0 0
                                   MRRB_READER_STATUS_DISABLING false 4096 8192))
      by (vm_compute; reflexivity).
    specialize (H _ Hr). cbn [status] in H. destruct H as [Hrep _].
    unfold reader_replaced in Hrep. vm_compute in Hrep. discriminate Hrep.
Qed.

(** C5, amended: called with a non-NULL handle and the lock acquired,
    [mrrb_abort_complete] moves a DISABLING reader to DISABLED; it moves an
    ABORTING reader to ACTIVE, advancing its read cursor by the continuous
    readable span from its complete cursor (modulo the buffer length when
    the cursors lie inside the buffer) and invoking its notify callback
    (after the unlock) with the complete cursor and that span, when the
    span is positive and no write is ongoing, and to ABORTED otherwise; in
    each case only the state of the reader (and, on the way to ACTIVE, its
    read cursor) changes. A reader in any other state, and a handle that
    the scan does not find, cause no change. Called with a NULL handle, or
    when the lock is not acquired, it changes nothing and invokes no
    callback. *)
Theorem mrrb_abort_complete_correct (p : port_t) (mrrb : multi_reader_ring_buffer_t) (h : Z) :
  (h ≠ NULL -> 0 <= port_lock p 0 ->
   abort_complete_spec mrrb h (mrrb_abort_complete p mrrb h).1
                       (mrrb_abort_complete p mrrb h).2) ∧
  (h = NULL ∨ port_lock p 0 < 0 -> mrrb_abort_complete p mrrb h = (mrrb, [])).
Proof.
  unfold mrrb_abort_complete, abort_complete_spec. split.
  - intros Hh Hlock.
    destruct (Z.eqb_spec h NULL) as [|_]; [contradiction|].
    destruct (_mrrb_get_reader_by_handle mrrb h) as [i|] eqn:Hget; [|split; reflexivity].
    destruct (Z.ltb_spec (port_lock p 0) 0) as [|_]; [lia|].
    intros r Hr. rewrite Hr.
    destruct (get_reader_by_handle_Some _ _ _ Hget) as (r0 & Hr0 & Hh0).
    assert (r0 = r) as -> by congruence.
    destruct (status r) eqn:Hst; cbv zeta; try (split; reflexivity).
    set (span := _mrrb_reader_get_continuous_readable_space mrrb r).
    rewrite Z.gtb_ltb.
    destruct (Z.ltb_spec 0 span) as [Hpos|]; cbn [andb]; [|split; reflexivity].
    destruct (ongoing_writes mrrb =? 0); cbn [fst snd]; [|split; reflexivity].
    eexists. split; [reflexivity|]. repeat (split; [reflexivity|]). split.
    + split; [reflexivity|]. intros (HN & Hw & _ & Hrcp).
      cbn [read_ptr set_read_ptr set_status].
      apply advance_pointer_mod; [exact HN|exact Hrcp|].
      destruct (continuous_readable_space_bounds mrrb r HN Hw Hrcp) as [Hb _].
      fold span in Hb. lia.
    + rewrite <- Hh0. reflexivity.
  - intros [->|Hlock]; [reflexivity|].
    destruct (h =? NULL); [reflexivity|].
    destruct (_mrrb_get_reader_by_handle mrrb h); [|reflexivity].
    destruct (Z.ltb_spec (port_lock p 0) 0); [reflexivity|lia].
Qed.

Lemma mrrb_abort_complete_correct_witness :
  1 ≠ NULL ∧ 0 <= port_lock port_ok 0 ∧
  abort_complete_spec
    (run example_skip [op_write ["a"; "b"; "c"]%byte; op_write ["d"; "e"; "f"]%byte]).1 1
    (mrrb_abort_complete port_ok
       (run example_skip [op_write ["a"; "b"; "c"]%byte; op_write ["d"; "e"; "f"]%byte]).1 1).1
    (mrrb_abort_complete port_ok
       (run example_skip [op_write ["a"; "b"; "c"]%byte; op_write ["d"; "e"; "f"]%byte]).1 1).2 ∧
  (mrrb_abort_complete port_ok
     (run example_skip [op_write ["a"; "b"; "c"]%byte; op_write ["d"; "e"; "f"]%byte]).1 1).2
  = [notify_call 0 1 3 1 ["d"]%byte].
Proof.
  assert (H1 : 1 ≠ NULL) by discriminate.
  assert (H2 : 0 <= port_lock port_ok 0) by discriminate.
  split; [exact H1|]. split; [exact H2|]. split.
  - exact (proj1 (mrrb_abort_complete_correct port_ok
                    (run example_skip
                       [op_write ["a"; "b"; "c"]%byte; op_write ["d"; "e"; "f"]%byte]).1 1)
             H1 H2).
  - vm_compute. reflexivity.
Defined.

(** ** Overrun clearing of a SKIP reader *)






(** ** A completion inside a write *)

Lemma mrrb_write_interleaved_alone (m : multi_reader_ring_buffer_t) (data : list byte)
    (n : Z) :
  mrrb_write_interleaved m data n (fun m' => (m', [])) = mrrb_write port_ok m (Some data) n.
Proof.
  unfold mrrb_write_interleaved, mrrb_write.
  cbn [port_ok allow_write_from_isr port_interrupt_active port_lock port_unlock].
  destruct (n =? 0); [reflexivity|]. cbn [negb andb Z.eqb Z.ltb Z.compare].
  destruct (write_publish _ _) as [m3 evs]. reflexivity.
Qed.

(** C6 fails on the code when a completion falls between the two locks of a
    write. One BLOCKING reader (handle 1) has been shown a full ring of 8
    bytes. A write of one byte reserves nothing ([write_length] is 0, the
    function does not return, mrrb.c:439-491) and releases the lock; the
    reader now calls [mrrb_read_complete], which clears its full flag and,
    nothing being readable, makes it IDLE; the write takes the lock again
    and, being the last ongoing one, makes the IDLE reader ACTIVE and calls
    its notify callback with [_mrrb_reader_get_continuous_readable_space],
    which is 0: the callback is passed a length of 0 bytes. Run without the
    completion in between, the same write notifies nobody. *)
Theorem notify_length_zero_interleaved :
  mrrb_write_interleaved example_full ["i"]%byte 1
    (fun m => mrrb_read_complete port_ok m 1)
  = (0, set_readers example_full
          [mk_reader 1 MRRB_READER_OVERRUN_BLOCKING 0 0 MRRB_READER_STATUS_ACTIVE false
                     4096 NULL],
     [notify_call 0 1 0 0 []]) ∧
  ¬ notify_length_positive (notify_call 0 1 0 0 []) ∧
  (mrrb_write port_ok example_full (Some ["i"]%byte) 1).2 = [].
Proof.
  split; [vm_compute; reflexivity|]. split; [|vm_compute; reflexivity].
  cbn [notify_length_positive]. lia.
Qed.
